(** * The explicit-free-list allocator of malloclab-handout/mm.c

    A shallow embedding of mm.c: the heap is a byte-addressed memory, the
    region driver (memlib) is a break pointer moving upward, and every routine
    of mm.c is a computation in a state-and-error monad over the allocator's
    globals.  An access outside the region [mem_start_brk, mem_brk) is a
    [Fault]; [exit(1)] is an [Exit]; a list walk that revisits an address
    never ends in C and is a [Diverge]. *)

From Stdlib Require Import ZArith List Lia Bool String.
Import ListNotations.
Open Scope Z_scope.

(** ** Data model of the C target *)

(** mm.c reads and writes its links through [char **] and takes sizes as
    [size_t]; their width is the target's.  Boundary tags are [uint32_t] on
    both targets. *)
Inductive data_model := ILP32 | LP64.

(** sizeof(char * ) = sizeof(size_t) *)
Definition PSIZE (dm : data_model) : Z :=
  match dm with ILP32 => 4 | LP64 => 8 end.

Definition pbytes (dm : data_model) : nat :=
  match dm with ILP32 => 4%nat | LP64 => 8%nat end.

(** conversion to uint32_t, to size_t and to int (two's complement) *)
Definition u32 (x : Z) : Z := x mod 2 ^ 32.
Definition to_size_t (dm : data_model) (x : Z) : Z := x mod 2 ^ (8 * PSIZE dm).
Definition to_int (x : Z) : Z :=
  let y := x mod 2 ^ 32 in if y <? 2 ^ 31 then y else y - 2 ^ 32.

(** ** Basic constants and macros *)

Definition WSIZE : Z := 4.
Definition DSIZE : Z := 8.
Definition CHUNKSIZE : Z := Z.shiftl 1 16.
Definition OVERHEAD : Z := 8.

Definition MAX (x y : Z) : Z := if x >? y then x else y.

Definition PACK (size alloc : Z) : Z := Z.lor size alloc.

(** ** Memory: little-endian bytes *)

Definition memory := Z -> Z.

Fixpoint le_load (m : memory) (a : Z) (n : nat) : Z :=
  match n with
  | O => 0
  | S k => m a mod 256 + 256 * le_load m (a + 1) k
  end.

Definition le_store (m : memory) (a : Z) (n : nat) (v : Z) : memory :=
  fun x =>
    if (a <=? x) && (x <? a + Z.of_nat n)
    then Z.shiftr v (8 * (x - a)) mod 256
    else m x.

Definition mem_copy (m : memory) (dst src n : Z) : memory :=
  fun x => if (dst <=? x) && (x <? dst + n) then m (src + (x - dst)) else m x.

(** ** Allocator state: memlib's region, mm.c's globals, find_fit's statics *)

Record state := mkState {
  mem : memory;
  mem_start_brk : Z;
  mem_brk : Z;
  mem_max_addr : Z;
  heap_listp : Z;
  free_listp : Z;
  ff_size : Z;
  ff_count : Z
}.

Definition set_mem (s : state) (m : memory) : state :=
  mkState m (mem_start_brk s) (mem_brk s) (mem_max_addr s)
          (heap_listp s) (free_listp s) (ff_size s) (ff_count s).
Definition set_brk (s : state) (b : Z) : state :=
  mkState (mem s) (mem_start_brk s) b (mem_max_addr s)
          (heap_listp s) (free_listp s) (ff_size s) (ff_count s).
Definition set_heap_listp (s : state) (p : Z) : state :=
  mkState (mem s) (mem_start_brk s) (mem_brk s) (mem_max_addr s)
          p (free_listp s) (ff_size s) (ff_count s).
Definition set_free_listp (s : state) (p : Z) : state :=
  mkState (mem s) (mem_start_brk s) (mem_brk s) (mem_max_addr s)
          (heap_listp s) p (ff_size s) (ff_count s).
Definition set_ff_size (s : state) (v : Z) : state :=
  mkState (mem s) (mem_start_brk s) (mem_brk s) (mem_max_addr s)
          (heap_listp s) (free_listp s) v (ff_count s).
Definition set_ff_count (s : state) (v : Z) : state :=
  mkState (mem s) (mem_start_brk s) (mem_brk s) (mem_max_addr s)
          (heap_listp s) (free_listp s) (ff_size s) v.

(** The process before mm_init: an empty region at [base] that may grow by
    [max_heap] bytes, memory contents [m0], all globals zero. *)
Definition boot (base max_heap : Z) (m0 : memory) : state :=
  mkState m0 base base (base + max_heap) 0 0 0 0.

(** ** The monad *)

Inductive outcome (A : Type) : Type :=
| Ok (a : A) (s : state)
| Fault
| Exit (msg : string)
| Diverge.
Arguments Ok {A} a s.
Arguments Fault {A}.
Arguments Exit {A} msg.
Arguments Diverge {A}.

Definition M (A : Type) : Type := state -> outcome A.

Definition ret {A} (a : A) : M A := fun s => Ok a s.

Definition bind {A B} (m : M A) (k : A -> M B) : M B :=
  fun s =>
    match m s with
    | Ok a s' => k a s'
    | Fault => Fault
    | Exit msg => Exit msg
    | Diverge => Diverge
    end.

Notation "x <- m ;; k" := (bind m (fun x => k))
  (at level 61, m at next level, right associativity).
Notation "m ;;; k" := (bind m (fun _ => k))
  (at level 61, right associativity).

Definition gets {A} (f : state -> A) : M A := fun s => Ok (f s) s.
Definition modify (f : state -> state) : M unit := fun s => Ok tt (f s).
Definition exit_with {A} (msg : string) : M A := fun _ => Exit msg.

(** ** Region accesses *)

Definition in_heap (s : state) (a n : Z) : bool :=
  (mem_start_brk s <=? a) && (a + n <=? mem_brk s).

Definition load (n : nat) (p : Z) : M Z :=
  fun s => if in_heap s p (Z.of_nat n) then Ok (le_load (mem s) p n) s else Fault.

Definition store (n : nat) (p v : Z) : M unit :=
  fun s => if in_heap s p (Z.of_nat n)
           then Ok tt (set_mem s (le_store (mem s) p n v)) else Fault.

(** Read and write a word at address p *)
Definition GET (p : Z) : M Z := load 4 p.
Definition PUT (p val : Z) : M unit := store 4 p val.

(** Read the size and allocated fields from address p *)
Definition GET_SIZE (p : Z) : M Z := v <- GET p ;; ret (Z.land v (Z.lnot 7)).
Definition GET_ALLOC (p : Z) : M Z := v <- GET p ;; ret (Z.land v 1).

(** Given block ptr bp, compute address of its header and footer *)
Definition HDRP (bp : Z) : Z := bp - WSIZE.
Definition FTRP (bp : Z) : M Z :=
  sz <- GET_SIZE (HDRP bp) ;; ret (bp + sz - DSIZE).

(** Given block ptr bp, compute address of next and previous blocks *)
Definition NEXT_BLKP (bp : Z) : M Z :=
  sz <- GET_SIZE (bp - WSIZE) ;; ret (bp + sz).
Definition PREV_BLKP (bp : Z) : M Z :=
  sz <- GET_SIZE (bp - DSIZE) ;; ret (bp - sz).

Definition GET_NEXT (dm : data_model) (bp : Z) : M Z := load (pbytes dm) bp.
Definition GET_PREV (dm : data_model) (bp : Z) : M Z := load (pbytes dm) (bp + DSIZE).
Definition SET_NEXT (dm : data_model) (bp qp : Z) : M unit := store (pbytes dm) bp qp.
Definition SET_PREV (dm : data_model) (bp qp : Z) : M unit :=
  store (pbytes dm) (bp + DSIZE) qp.

(** memcpy of [n] bytes; both ranges have to lie in the region *)
Definition memcpy (dst src n : Z) : M unit :=
  fun s => if in_heap s src n && in_heap s dst n
           then Ok tt (set_mem s (mem_copy (mem s) dst src n)) else Fault.

(** ** memlib *)

(** Modelled from the spec: the Region Driver's [grow(n)], [currentLowBound()]
    and [currentHighBound()] (memlib.c is not among the sources).  The region
    only grows; growth fails when the increment, an [int], is negative or the
    region would pass its maximum, and failure is the value extend_heap tests
    for, [(void * )-1]. *)
Definition mem_sbrk (dm : data_model) (incr : Z) : M Z :=
  fun s =>
    if (incr <? 0) || (mem_max_addr s <? mem_brk s + incr)
    then Ok (2 ^ (8 * PSIZE dm) - 1) s
    else Ok (mem_brk s) (set_brk s (mem_brk s + incr)).

Definition mem_heap_lo : M Z := gets mem_start_brk.
Definition mem_heap_hi : M Z := gets (fun s => mem_brk s - 1).

(** ** mm.c *)

Definition nonzero (x : Z) : bool := negb (x =? 0).

(** A walk over the heap or over the free list only reads memory, so one that
    takes more steps than the region has bytes has revisited an address and
    never ends: that many steps are allowed before [Diverge]. *)
Definition walk_fuel (s : state) : nat :=
  S (Z.to_nat (mem_brk s - mem_start_brk s)).

(** edit_free_list(bp, i): i = 0 removes bp from the free list, any other i
    adds it at the head *)
Definition edit_free_list (dm : data_model) (bp i : Z) : M unit :=
  if nonzero i then
    fl <- gets free_listp ;;
    (if nonzero fl then
       SET_PREV dm fl bp ;;;
       SET_NEXT dm bp fl
     else
       SET_NEXT dm bp 0) ;;;
    SET_PREV dm bp 0 ;;;
    modify (fun s => set_free_listp s bp)
  else
    p <- GET_PREV dm bp ;;
    (if nonzero p then
       n <- GET_NEXT dm bp ;;
       SET_NEXT dm p n
     else
       n <- GET_NEXT dm bp ;;
       modify (fun s => set_free_listp s n)) ;;;
    n <- GET_NEXT dm bp ;;
    if nonzero n then
      p' <- GET_PREV dm bp ;;
      SET_PREV dm n p'
    else ret tt.

(** coalesce - boundary tag coalescing. Return ptr to coalesced block *)
Definition coalesce (dm : data_model) (bp : Z) : M Z :=
  prev_alloc <-
    (pb <- PREV_BLKP bp ;;
     f <- FTRP pb ;;
     a <- GET_ALLOC f ;;
     if nonzero a then ret true else ret (pb =? bp)) ;;
  next_alloc <- (nb <- NEXT_BLKP bp ;; a <- GET_ALLOC (HDRP nb) ;; ret (nonzero a)) ;;
  size <- GET_SIZE (HDRP bp) ;;
  bp' <-
    (if prev_alloc && next_alloc then
       ret bp
     else if prev_alloc && negb next_alloc then      (* Case 2 *)
       nb <- NEXT_BLKP bp ;;
       nsz <- GET_SIZE (HDRP nb) ;;
       let size := u32 (size + nsz) in
       edit_free_list dm nb 0 ;;;
       PUT (HDRP bp) (PACK size 0) ;;;
       f <- FTRP bp ;;
       PUT f (PACK size 0) ;;;
       ret bp
     else if negb prev_alloc && next_alloc then      (* Case 3 *)
       pb <- PREV_BLKP bp ;;
       psz <- GET_SIZE (HDRP pb) ;;
       let size := u32 (size + psz) in
       PUT (HDRP pb) (PACK size 0) ;;;
       f <- FTRP pb ;;
       PUT f (PACK size 0) ;;;
       edit_free_list dm pb 0 ;;;
       ret pb
     else                                            (* Case 4 *)
       pb <- PREV_BLKP bp ;;
       psz <- GET_SIZE (HDRP pb) ;;
       nb <- NEXT_BLKP bp ;;
       nf <- FTRP nb ;;
       nsz <- GET_SIZE nf ;;
       let size := u32 (size + u32 (psz + nsz)) in
       edit_free_list dm nb 0 ;;;
       pb1 <- PREV_BLKP bp ;;
       PUT (HDRP pb1) (PACK size 0) ;;;
       pb2 <- PREV_BLKP bp ;;
       f <- FTRP pb2 ;;
       PUT f (PACK size 0) ;;;
       pb3 <- PREV_BLKP bp ;;
       edit_free_list dm pb3 0 ;;;
       ret pb3) ;;
  edit_free_list dm bp' 1 ;;;
  ret bp'.

(** the uint32_t [size] extend_heap asks mem_sbrk for, given [words] *)
Definition extend_size (dm : data_model) (words : Z) : Z :=
  let size :=
    u32 (if nonzero (words mod 2)
         then to_size_t dm (to_size_t dm (words + 1) * WSIZE)
         else to_size_t dm (words * WSIZE)) in
  if size <? 24 then 24 else size.

(** extend_heap - Extend heap with free block and return its block pointer *)
Definition extend_heap (dm : data_model) (words : Z) : M Z :=
  let size := extend_size dm words in
  bp <- mem_sbrk dm (to_int size) ;;
  if bp =? 2 ^ (8 * PSIZE dm) - 1 then ret 0
  else
    PUT (HDRP bp) (PACK size 0) ;;;
    f <- FTRP bp ;;
    PUT f (PACK size 0) ;;;
    nb <- NEXT_BLKP bp ;;
    PUT (HDRP nb) (PACK 0 1) ;;;
    coalesce dm bp.

(** mm_init - Initialize the memory manager; returns 0, or -1 on failure *)
Definition mm_init (dm : data_model) : M Z :=
  hp <- mem_sbrk dm (4 * WSIZE) ;;
  modify (fun s => set_heap_listp s hp) ;;;
  if hp =? 0 then ret (-1)
  else
    PUT hp 0 ;;;
    PUT (hp + WSIZE) (PACK OVERHEAD 1) ;;;
    PUT (hp + DSIZE) (PACK OVERHEAD 1) ;;;
    PUT (hp + WSIZE + DSIZE) (PACK 0 1) ;;;
    modify (fun s => set_free_listp s 0) ;;;
    bp <- extend_heap dm (CHUNKSIZE / WSIZE) ;;
    if bp =? 0 then ret (-1) else ret 0.

(** the while loop of find_fit *)
Fixpoint find_fit_scan (dm : data_model) (fuel : nat) (asize fp : Z) : M Z :=
  match fuel with
  | O => fun _ => Diverge
  | S k =>
      if nonzero fp then
        sz <- GET_SIZE (HDRP fp) ;;
        if asize <=? sz then
          modify (fun s => set_ff_size s (to_int asize)) ;;;
          ret fp
        else
          nx <- GET_NEXT dm fp ;;
          find_fit_scan dm k asize nx
      else ret 0
  end.

(** find_fit - Find a fit for a block with asize bytes; [ff_size] and
    [ff_count] are its static variables size and count *)
Definition find_fit (dm : data_model) (asize : Z) : M Z :=
  fp <- gets free_listp ;;
  size <- gets ff_size ;;
  count <- gets ff_count ;;
  let scan := (fuel <- gets walk_fuel ;; find_fit_scan dm fuel asize fp) in
  if size =? to_int asize then
    if count >? 40 then
      let extendsize := to_int (MAX asize (4 * WSIZE)) in
      extend_heap dm (to_size_t dm (Z.quot extendsize 4))
    else
      modify (fun s => set_ff_count s (to_int (count + 1))) ;;;
      scan
  else
    modify (fun s => set_ff_count s 0) ;;;
    scan.

(** place - Place block of asize bytes at start of free block bp
    and split if remainder would be at least minimum block size *)
Definition place (dm : data_model) (bp asize : Z) : M unit :=
  csize <- GET_SIZE (HDRP bp) ;;
  edit_free_list dm bp 0 ;;;
  if to_size_t dm (csize - asize) >=? DSIZE * 3 then
    PUT (HDRP bp) (PACK asize 1) ;;;
    f <- FTRP bp ;;
    PUT f (PACK asize 1) ;;;
    nb <- NEXT_BLKP bp ;;
    PUT (HDRP nb) (PACK (to_size_t dm (csize - asize)) 0) ;;;
    f' <- FTRP nb ;;
    PUT f' (PACK (to_size_t dm (csize - asize)) 0) ;;;
    edit_free_list dm nb 1
  else
    PUT (HDRP bp) (PACK csize 1) ;;;
    f <- FTRP bp ;;
    PUT f (PACK csize 1).

(** the adjusted block size mm_malloc computes for a request of [size] bytes *)
Definition adjust_size (dm : data_model) (size : Z) : Z :=
  if size <=? DSIZE then DSIZE + OVERHEAD
  else u32 (to_size_t dm (DSIZE * (to_size_t dm (size + OVERHEAD + (DSIZE - 1)) / DSIZE))).

(** mm_malloc - Allocate a block with at least size bytes of payload *)
Definition mm_malloc (dm : data_model) (size : Z) : M Z :=
  hp <- gets heap_listp ;;
  (if nonzero hp then ret 0 else mm_init dm) ;;;
  if size <=? 0 then ret 0
  else
    let asize := adjust_size dm size in
    bp <- find_fit dm asize ;;
    if nonzero bp then
      place dm bp asize ;;;
      ret bp
    else
      let extendsize := MAX asize CHUNKSIZE in
      bp <- extend_heap dm (extendsize / WSIZE) ;;
      if bp =? 0 then ret 0
      else
        place dm bp asize ;;;
        ret bp.

(** mm_free - Free a block *)
Definition mm_free (dm : data_model) (bp : Z) : M unit :=
  size <- GET_SIZE (HDRP bp) ;;
  if bp =? 0 then ret tt
  else
    hp <- gets heap_listp ;;
    (if nonzero hp then ret 0 else mm_init dm) ;;;
    PUT (HDRP bp) (PACK size 0) ;;;
    f <- FTRP bp ;;
    PUT f (PACK size 0) ;;;
    coalesce dm bp ;;;
    ret tt.

(** the number of bytes mm_realloc copies, given the word in ptr's header *)
Definition copy_size (size hdr : Z) : Z :=
  let copySize := Z.land hdr (Z.lnot 7) in
  if size <? copySize then size else copySize.

(** mm_realloc - naive implementation of mm_realloc *)
Definition mm_realloc (dm : data_model) (ptr size : Z) : M Z :=
  newp <- mm_malloc dm size ;;
  if newp =? 0 then exit_with "ERROR: mm_malloc failed in mm_realloc\n"
  else
    hdr <- GET (HDRP ptr) ;;
    memcpy newp ptr (copy_size size hdr) ;;;
    mm_free dm ptr ;;;
    ret newp.

(** printblock: the reads it performs; the text it prints is not modelled *)
Definition printblock (bp : Z) : M unit :=
  GET_SIZE (HDRP bp) ;;;
  GET_ALLOC (HDRP bp) ;;;
  f <- FTRP bp ;;
  GET_SIZE f ;;;
  GET_ALLOC f ;;;
  ret tt.

Definition checkblock (dm : data_model) (bp : Z) : M unit :=
  hi <- mem_heap_hi ;;
  lo <- mem_heap_lo ;;
  if negb ((bp <=? hi) && (bp >=? lo)) then exit_with "Not in heap\n"
  else if negb (Z.land (to_size_t dm (bp + 7)) (Z.lnot 7) =? to_size_t dm bp)
  then exit_with "Not in alignment"
  else
    h <- GET (HDRP bp) ;;
    f <- FTRP bp ;;
    t <- GET f ;;
    if negb (h =? t) then exit_with "header not equal to foot" else ret tt.

(** the for loop of mm_checkheap; returns the final bp and the counter *)
Fixpoint heap_walk (dm : data_model) (fuel : nat) (bp heap_counter : Z) : M (Z * Z) :=
  match fuel with
  | O => fun _ => Diverge
  | S k =>
      sz <- GET_SIZE (HDRP bp) ;;
      if sz >? 0 then
        a <- GET_ALLOC (HDRP bp) ;;
        let heap_counter := if nonzero a then heap_counter else heap_counter + 1 in
        printblock bp ;;;
        checkblock dm bp ;;;
        nb <- NEXT_BLKP bp ;;
        heap_walk dm k nb heap_counter
      else ret (bp, heap_counter)
  end.

(** the while loop of mm_checkheap *)
Fixpoint list_walk (dm : data_model) (fuel : nat) (cp list_counter : Z) : M Z :=
  match fuel with
  | O => fun _ => Diverge
  | S k =>
      if nonzero cp then
        checkblock dm cp ;;;
        nx <- GET_NEXT dm cp ;;
        printblock nx ;;;
        list_walk dm k nx (list_counter + 1)
      else ret list_counter
  end.

(** mm_checkheap - Check the heap for consistency *)
Definition mm_checkheap (dm : data_model) (verbose : Z) : M unit :=
  fl <- gets free_listp ;;
  let go := fl + DSIZE in
  hp <- gets heap_listp ;;
  lo <- mem_heap_lo ;;
  if negb (hp =? lo) then exit_with "not correctly started"
  else
    hs <- GET_SIZE (HDRP go) ;;
    ha <- GET_ALLOC (HDRP go) ;;
    if negb (hs =? DSIZE) || negb (nonzero ha) then exit_with "bad prologue HDR"
    else
      f <- FTRP go ;;
      fs <- GET_SIZE f ;;
      fa <- GET_ALLOC f ;;
      if negb (fs =? DSIZE) || negb (nonzero fa) then exit_with "Bad prologue FTR\n"
      else
        checkblock dm go ;;;
        fuel <- gets walk_fuel ;;
        nb <- NEXT_BLKP go ;;
        r <- heap_walk dm fuel nb 0 ;;
        let '(bp, heap_counter) := r in
        cp <- gets free_listp ;;
        list_counter <- list_walk dm fuel cp 0 ;;
        es <- GET_SIZE (HDRP bp) ;;
        ea <- GET_ALLOC (HDRP bp) ;;
        if negb (es =? 0) || negb (nonzero ea) then exit_with "epilogue"
        else if negb (heap_counter =? list_counter) then exit_with "counter !=\n"
        else ret tt.

(** ** The heap as mm.c reads it *)

(** the uint32_t at p and the pointer at p *)
Definition word (m : memory) (p : Z) : Z := le_load m p 4.
Definition link (dm : data_model) (m : memory) (p : Z) : Z := le_load m p (pbytes dm).

(** the block at bp has size sz and allocated bit a in both boundary tags *)
Definition tagged (m : memory) (bp sz a : Z) : Prop :=
  word m (bp - 4) = PACK sz a /\ word m (bp + sz - 8) = PACK sz a.

(** the nodes [l] are doubly linked in this order, the first one's previous
    link being [prv] and the last one's next link [nxt] *)
Fixpoint dseg (dm : data_model) (m : memory) (prv : Z) (l : list Z) (nxt : Z) : Prop :=
  match l with
  | [] => True
  | x :: l' =>
      x <> 0 /\ link dm m (x + DSIZE) = prv /\ link dm m x = hd nxt l' /\
      dseg dm m x l' nxt
  end.

(** the link words of the nodes, 16 bytes from each node on, do not overlap *)
Fixpoint apart (l : list Z) : Prop :=
  match l with
  | [] => True
  | x :: l' => Forall (fun y => 16 <= Z.abs (x - y)) l' /\ apart l'
  end.

(** [l] is the free list of state [s], from free_listp on *)
Definition free_list (dm : data_model) (s : state) (l : list Z) : Prop :=
  free_listp s = hd 0 l /\
  dseg dm (mem s) 0 l 0 /\
  Forall (fun x => mem_start_brk s <= x /\ x + 16 <= mem_brk s) l /\
  apart l.

(** the region lies in the address space of the data model, above NULL *)
Definition region_ok (dm : data_model) (s : state) : Prop :=
  0 < mem_start_brk s /\ mem_brk s <= 2 ^ (8 * PSIZE dm).

(** memory [m'] differs from [m] at most in the link words of the nodes [L] *)
Definition frame (L : list Z) (m m' : memory) : Prop :=
  forall x, Forall (fun y => x < y \/ y + 16 <= x) L -> m' x = m x.

(** everything but the memory and free_listp is the same *)
Definition same_globals (s s' : state) : Prop :=
  mem_start_brk s' = mem_start_brk s /\ mem_brk s' = mem_brk s /\
  mem_max_addr s' = mem_max_addr s /\ heap_listp s' = heap_listp s /\
  ff_size s' = ff_size s /\ ff_count s' = ff_count s.

(** the block bp, of size sz and allocated bit a, and its surroundings as
    coalesce reads them: the block before it has size psz and allocated bit
    pa, the block after it size nsz and allocated bit na; bp has at least
    16 bytes and its free neighbours at least 24 *)
Definition neighbours (s : state) (bp sz a psz pa nsz na : Z) : Prop :=
  (16 <= sz /\ sz mod 8 = 0) /\
  (8 <= psz /\ psz mod 8 = 0 /\ 0 <= pa <= 1) /\
  (0 <= nsz /\ nsz mod 8 = 0 /\ 0 <= na <= 1) /\
  (mem_start_brk s <= bp - psz - 4 /\ bp + sz <= mem_brk s) /\
  tagged (mem s) bp sz a /\
  tagged (mem s) (bp - psz) psz pa /\
  word (mem s) (bp + sz - 4) = PACK nsz na /\
  (pa = 0 -> 24 <= psz) /\
  (na = 0 -> 24 <= nsz /\ bp + sz + nsz <= mem_brk s /\
             word (mem s) (bp + sz + nsz - 8) = PACK nsz 0).

(** the block coalesce makes of bp and its free neighbours *)
Definition merged_start (bp psz pa : Z) : Z := if pa =? 0 then bp - psz else bp.
Definition merged_size (sz psz pa nsz na : Z) : Z :=
  sz + (if pa =? 0 then psz else 0) + (if na =? 0 then nsz else 0).

(** the free neighbours, which the merged block absorbs *)
Definition absorbed (bp sz psz pa na : Z) : list Z :=
  (if pa =? 0 then [bp - psz] else []) ++ (if na =? 0 then [bp + sz] else []).

(** [l] without the nodes [xs] *)
Definition without (xs l : list Z) : list Z := fold_right (remove Z.eq_dec) l xs.

(** each node of [l] is an absorbed neighbour or lies in a block outside the
    bytes [lo, hi) of the merged block *)
Definition nodes_outside (xs l : list Z) (lo hi : Z) : Prop :=
  Forall (fun x => In x xs \/ x + 16 <= lo - 4 \/ hi + 4 <= x) l.

(** memory [m'] equals [m] outside the bytes [lo, hi) and outside the link
    words of the nodes [l] *)
Definition unchanged_outside (l : list Z) (lo hi : Z) (m m' : memory) : Prop :=
  forall a, a < lo \/ hi <= a -> Forall (fun y => a < y \/ y + 16 <= a) l -> m' a = m a.

(** what coalesce leaves behind: the merged block, free in both tags, at the
    head of the free list, which has lost the absorbed neighbours and nothing
    else; memory is touched only inside the merged block and in link words *)
Definition coalesce_post (dm : data_model) (s : state) (bp sz psz pa nsz na : Z)
    (l : list Z) (s' : state) : Prop :=
  let r := merged_start bp psz pa in
  let total := merged_size sz psz pa nsz na in
  tagged (mem s') r total 0 /\
  free_list dm s' (r :: without (absorbed bp sz psz pa na) l) /\
  same_globals s s' /\
  unchanged_outside l (r - 4) (r + total - 4) (mem s) (mem s').

(** every state a computation returns is related to the state it started in *)
Definition keeps (P : state -> state -> Prop) {A} (m : M A) : Prop :=
  forall s a s', m s = Ok a s' -> P s s'.

(** the region is the same *)
Definition same_region (s s' : state) : Prop :=
  mem_start_brk s' = mem_start_brk s /\ mem_brk s' = mem_brk s /\
  mem_max_addr s' = mem_max_addr s.

(** the region has the same low end and has not shrunk *)
Definition grown (s s' : state) : Prop :=
  mem_start_brk s' = mem_start_brk s /\ mem_brk s <= mem_brk s' /\
  mem_max_addr s' = mem_max_addr s.

(** ** The heap as a sequence of blocks *)

(** the size field of the header of block bp *)
Definition block_size (m : memory) (bp : Z) : Z :=
  Z.land (word m (bp - 4)) (Z.lnot 7).

(** find_fit's count after a call that does not take the bypass *)
Definition next_count (s : state) (asize : Z) : Z :=
  if ff_size s =? to_int asize then to_int (ff_count s + 1) else 0.

(** the bytes a list of blocks, given by size and allocated bit, takes *)
Fixpoint span (bs : list (Z * Z)) : Z :=
  match bs with
  | [] => 0
  | (sz, _) :: bs' => sz + span bs'
  end.

(** the blocks of [bs] laid out from block pointer [bp] on: block pointer,
    size and allocated bit of each *)
Fixpoint placed (bp : Z) (bs : list (Z * Z)) : list (Z * Z * Z) :=
  match bs with
  | [] => []
  | (sz, a) :: bs' => (bp, sz, a) :: placed (bp + sz) bs'
  end.

(** a block carries its size and bit in both tags; sizes are multiples of 8,
    and a free block has room for both links between its tags *)
Definition block_ok (m : memory) (b : Z * Z * Z) : Prop :=
  let '(bp, sz, a) := b in
  8 <= sz /\ sz mod 8 = 0 /\ 0 <= a <= 1 /\ (a = 0 -> 24 <= sz) /\ tagged m bp sz a.

Definition blocks (m : memory) (bp : Z) (bs : list (Z * Z)) : Prop :=
  Forall (block_ok m) (placed bp bs).

(** the block pointers of the blocks with allocated bit [a] *)
Definition nodes (a : Z) (bp : Z) (bs : list (Z * Z)) : list Z :=
  map (fun b => fst (fst b)) (filter (fun b => snd b =? a) (placed bp bs)).

(** a well-formed heap: the region starts at an 8-byte boundary above NULL
    and stays below 4 GB in size; after the padding word come the prologue,
    the blocks [bs] and the epilogue header, which ends at the break; the
    free list [l] holds the free blocks of [bs] and nothing else *)
Definition heap_ok (dm : data_model) (s : state) (bs : list (Z * Z)) (l : list Z) : Prop :=
  let lo := mem_start_brk s in
  (0 < lo /\ lo mod 8 = 0 /\ mem_brk s <= mem_max_addr s /\
   mem_max_addr s <= 2 ^ (8 * PSIZE dm) /\ mem_max_addr s - lo < 2 ^ 32) /\
  heap_listp s = lo /\
  blocks (mem s) (lo + 8) ((8, 1) :: bs) /\
  mem_brk s = lo + 16 + span bs /\
  word (mem s) (mem_brk s - 4) = PACK 0 1 /\
  free_list dm s l /\
  (forall y, In y l <-> In y (nodes 0 (lo + 16) bs)).

(** the allocated bit of the first block of [bs], the epilogue's when there
    is none, and of the last block, the prologue's when there is none *)
Definition first_bit (bs : list (Z * Z)) : Z := snd (hd (0, 1) bs).
Definition last_bit (bs : list (Z * Z)) : Z := snd (last bs (8, 1)).

(** no free block is followed by a free block *)
Fixpoint coalesced (bs : list (Z * Z)) : Prop :=
  match bs with
  | [] => True
  | b :: bs' => (snd b = 0 -> first_bit bs' = 1) /\ coalesced bs'
  end.

(** the bytes between the tags of the allocated blocks of [bs] are the same
    in [m'] as in [m] *)
Definition payloads_kept (bp : Z) (bs : list (Z * Z)) (m m' : memory) : Prop :=
  forall b sz x, In (b, sz, 1) (placed bp bs) -> b <= x < b + sz - 8 -> m' x = m x.

(** the allocated blocks of [bs] are allocated blocks of [bs'], of the same
    size, and the bytes between their tags are the same in [m'] as in [m] *)
Definition allocated_kept (bp : Z) (bs : list (Z * Z)) (m : memory)
    (bs' : list (Z * Z)) (m' : memory) : Prop :=
  forall b sz, In (b, sz, 1) (placed bp bs) ->
    In (b, sz, 1) (placed bp bs') /\ forall x, b <= x < b + sz - 8 -> m' x = m x.

(** ** Running the allocator *)

Definition result {A} (o : outcome A) : option A :=
  match o with Ok a _ => Some a | _ => None end.

Definition final {A} (o : outcome A) (d : state) : state :=
  match o with Ok _ s => s | _ => d end.

Definition brk_after {A} (o : outcome A) : option Z :=
  match o with Ok _ s => Some (mem_brk s) | _ => None end.

(** a process whose region starts at [heap_base], zero filled, and may grow
    to 20 MB *)
Definition zero_mem : memory := fun _ => 0.
Definition heap_base : Z := 65536.
Definition MAX_HEAP : Z := 20 * 2 ^ 20.
Definition fresh : state := boot heap_base MAX_HEAP zero_mem.

Fixpoint repeat_malloc (dm : data_model) (k : nat) (size : Z) : M unit :=
  match k with
  | O => ret tt
  | S k' => mm_malloc dm size ;;; repeat_malloc dm k' size
  end.

(** initialize(); X = allocate(100); Y = allocate(200); release(X);
    allocate(50): X, the last result, and the break before and after the
    last call *)
Definition scenario_A (dm : data_model) : M (Z * Z * Z * Z) :=
  mm_init dm ;;;
  x <- mm_malloc dm 100 ;;
  mm_malloc dm 200 ;;;
  mm_free dm x ;;;
  b0 <- gets mem_brk ;;
  z <- mm_malloc dm 50 ;;
  b1 <- gets mem_brk ;;
  ret (x, z, b0, b1).

(** X = allocate(n); release(X); allocate(m): X, the last result, and the
    break before and after the last call *)
Definition roundtrip (dm : data_model) (n m : Z) : M (Z * Z * Z * Z) :=
  x <- mm_malloc dm n ;;
  mm_free dm x ;;;
  b0 <- gets mem_brk ;;
  y <- mm_malloc dm m ;;
  b1 <- gets mem_brk ;;
  ret (x, y, b0, b1).

(** the heap after initialize(); allocate(100); allocate(200) *)
Definition heap_A : state :=
  final ((mm_init LP64 ;;; mm_malloc LP64 100 ;;; mm_malloc LP64 200) fresh) fresh.

(** four blocks of 112 bytes at 65552, 65664, 65776 and 65888, the first and
    the third released, the second with its tags already marked free *)
Definition heap_B : state :=
  final ((mm_init LP64 ;;;
          a <- mm_malloc LP64 100 ;;
          b <- mm_malloc LP64 100 ;;
          c <- mm_malloc LP64 100 ;;
          mm_malloc LP64 100 ;;;
          mm_free LP64 a ;;;
          mm_free LP64 c ;;;
          PUT (HDRP b) (PACK 112 0) ;;;
          f <- FTRP b ;;
          PUT f (PACK 112 0)) fresh) fresh.

(** the heap after initialize() *)
Definition heap_C : state := final (mm_init LP64 fresh) fresh.

(** the heap after initialize(); allocate(8); allocate(8): two blocks of 16
    bytes at 65552 and 65568 *)
Definition heap_D : state :=
  final ((mm_init LP64 ;;; mm_malloc LP64 8 ;;; mm_malloc LP64 8) fresh) fresh.

(** initialize(); A = allocate(8); B = allocate(100); allocate(100);
    release(A); release(B): A, B, the word in A's footer when B is released,
    then the head of the free list, its successor, and the header words of A
    and B *)
Definition small_neighbour (dm : data_model) : M (Z * Z * Z * Z * Z * Z * Z) :=
  mm_init dm ;;;
  a <- mm_malloc dm 8 ;;
  b <- mm_malloc dm 100 ;;
  mm_malloc dm 100 ;;;
  mm_free dm a ;;;
  f <- FTRP a ;;
  fa <- GET f ;;
  mm_free dm b ;;;
  head <- gets free_listp ;;
  next <- GET_NEXT dm head ;;
  ha <- GET (HDRP a) ;;
  hb <- GET (HDRP b) ;;
  ret (a, b, fa, head, next, ha, hb).

(** initialize(); H = allocate(8); P = allocate(65512); the caller stores
    the 8-byte value [v] at P + 8, in its payload; release(H); then what
    allocate(70000) does first: find_fit for the adjusted size, and
    extend_heap.  P, the results of find_fit and extend_heap, the break
    before and after extend_heap, and the header and footer words of the
    space between the two breaks *)
Definition grow_after_small (dm : data_model) (v : Z) : M (Z * Z * Z * Z * Z * Z * Z) :=
  mm_init dm ;;;
  h <- mm_malloc dm 8 ;;
  p <- mm_malloc dm 65512 ;;
  store 8 (p + 8) v ;;;
  mm_free dm h ;;;
  let asize := adjust_size dm 70000 in
  f <- find_fit dm asize ;;
  b0 <- gets mem_brk ;;
  r <- extend_heap dm (MAX asize CHUNKSIZE / WSIZE) ;;
  b1 <- gets mem_brk ;;
  hdr <- GET (HDRP b0) ;;
  ftr <- GET (b1 - DSIZE) ;;
  ret (p, f, r, b0, b1, hdr, ftr).

(** * Lemmas *)

(** ** Bytes *)

Lemma le_load_ext (m m' : memory) (n : nat) : forall a,
  (forall x, a <= x < a + Z.of_nat n -> m' x = m x) ->
  le_load m' a n = le_load m a n.
Proof.
  induction n as [|k IH]; intros a H; [reflexivity|].
  cbn [le_load]. rewrite (H a) by lia. rewrite (IH (a + 1)); [reflexivity|].
  intros x Hx. apply H. lia.
Qed.

Lemma le_store_out (m : memory) a n v x :
  x < a \/ a + Z.of_nat n <= x -> le_store m a n v x = m x.
Proof.
  intros H. unfold le_store.
  destruct (a <=? x) eqn:E1; cbn [andb]; [|reflexivity].
  destruct (x <? a + Z.of_nat n) eqn:E2; [|reflexivity].
  apply Z.leb_le in E1. apply Z.ltb_lt in E2. lia.
Qed.

Lemma le_store_in (m : memory) a n v x :
  a <= x < a + Z.of_nat n -> le_store m a n v x = Z.shiftr v (8 * (x - a)) mod 256.
Proof.
  intros H. unfold le_store.
  replace (a <=? x) with true by (symmetry; apply Z.leb_le; lia).
  replace (x <? a + Z.of_nat n) with true by (symmetry; apply Z.ltb_lt; lia).
  reflexivity.
Qed.

Lemma le_load_store_other (m : memory) a n v b k :
  b + Z.of_nat k <= a \/ a + Z.of_nat n <= b ->
  le_load (le_store m a n v) b k = le_load m b k.
Proof.
  intros H. apply le_load_ext. intros x Hx. apply le_store_out. lia.
Qed.

Lemma le_load_store_mod (n : nat) : forall m a v,
  le_load (le_store m a n v) a n = v mod 2 ^ (8 * Z.of_nat n).
Proof.
  induction n as [|k IH]; intros m a v.
  - cbn. rewrite Z.mod_1_r. reflexivity.
  - cbn [le_load].
    rewrite le_store_in by lia.
    replace (8 * (a - a)) with 0 by lia. rewrite Z.shiftr_0_r.
    rewrite (le_load_ext (le_store m (a + 1) k (v / 256))).
    + rewrite IH.
      replace (8 * Z.of_nat (S k)) with (8 + 8 * Z.of_nat k) by lia.
      rewrite Z.pow_add_r by lia. change (2 ^ 8) with 256.
      rewrite (Z.rem_mul_r v 256 (2 ^ (8 * Z.of_nat k))) by lia.
      rewrite Z.mod_mod by lia. reflexivity.
    + intros x Hx. rewrite !le_store_in by lia.
      f_equal. replace (8 * (x - a)) with (8 + 8 * (x - (a + 1))) by lia.
      rewrite <- Z.shiftr_shiftr by lia. f_equal.
      rewrite Z.shiftr_div_pow2 by lia. reflexivity.
Qed.

Lemma le_load_store_same (m : memory) a n v :
  0 <= v < 2 ^ (8 * Z.of_nat n) -> le_load (le_store m a n v) a n = v.
Proof. intros H. rewrite le_load_store_mod. apply Z.mod_small. exact H. Qed.

(** ** Boundary tags *)

Lemma land_mul8_small (sz a : Z) :
  sz mod 8 = 0 -> 0 <= a < 8 -> Z.land sz a = 0.
Proof.
  intros Hs Ha. apply Z.bits_inj'. intros i Hi.
  rewrite Z.land_spec, Z.bits_0.
  destruct (Z.ltb_spec i 3).
  - replace sz with (8 * (sz / 8)) by (pose proof (Z.div_mod sz 8); lia).
    replace (8 * (sz / 8)) with (sz / 8 * 2 ^ 3) by lia.
    rewrite Z.mul_pow2_bits_low by lia. reflexivity.
  - replace (Z.testbit a i) with false; [apply andb_false_r|].
    symmetry. destruct (Z.eq_dec a 0) as [->|]; [apply Z.bits_0|].
    apply Z.bits_above_log2; [lia|].
    apply Z.log2_lt_pow2; [lia|].
    apply Z.lt_le_trans with (2 ^ 3); [cbn; lia|].
    apply Z.pow_le_mono_r; lia.
Qed.

Lemma PACK_add (sz a : Z) : sz mod 8 = 0 -> 0 <= a < 8 -> PACK sz a = sz + a.
Proof.
  intros Hs Ha. unfold PACK.
  pose proof (land_mul8_small sz a Hs Ha) as H.
  rewrite <- Z.lxor_lor by exact H.
  symmetry. apply Z.add_nocarry_lxor. exact H.
Qed.

Lemma size_of_word (w : Z) : 0 <= w -> Z.land w (Z.lnot 7) = 8 * (w / 8).
Proof.
  intros Hw. change 7 with (Z.ones 3).
  rewrite <- Z.ldiff_land, Z.ldiff_ones_r by lia.
  rewrite Z.shiftr_div_pow2, Z.shiftl_mul_pow2 by lia.
  change (2 ^ 3) with 8. lia.
Qed.

Lemma alloc_of_word (w : Z) : Z.land w 1 = w mod 2.
Proof. change 1 with (Z.ones 1). rewrite Z.land_ones by lia. reflexivity. Qed.

Lemma size_of_PACK (sz a : Z) :
  sz mod 8 = 0 -> 0 <= sz -> 0 <= a <= 1 -> Z.land (PACK sz a) (Z.lnot 7) = sz.
Proof.
  intros Hs H0 Ha. rewrite PACK_add by lia. rewrite size_of_word by lia.
  pose proof (Z.div_mod sz 8 ltac:(lia)).
  replace (sz + a) with (a + (sz / 8) * 8) by lia.
  rewrite Z.div_add by lia. rewrite (Z.div_small a 8) by lia. lia.
Qed.

Lemma alloc_of_PACK (sz a : Z) :
  sz mod 8 = 0 -> 0 <= a <= 1 -> Z.land (PACK sz a) 1 = a.
Proof.
  intros Hs Ha. rewrite PACK_add by lia. rewrite alloc_of_word.
  pose proof (Z.div_mod sz 8 ltac:(lia)).
  replace (sz + a) with (a + (4 * (sz / 8)) * 2) by lia.
  rewrite Z.mod_add by lia. apply Z.mod_small. lia.
Qed.

Lemma mul8_add a b : a mod 8 = 0 -> b mod 8 = 0 -> (a + b) mod 8 = 0.
Proof. intros Ha Hb. rewrite Z.add_mod, Ha, Hb by lia. reflexivity. Qed.

Lemma mul8_below a : a mod 8 = 0 -> a < 2 ^ 32 -> a + 8 <= 2 ^ 32.
Proof.
  intros Ha Hb. pose proof (Z.div_mod a 8 ltac:(lia)) as E. rewrite Ha in E.
  assert (a / 8 < 2 ^ 29) by (apply Z.div_lt_upper_bound; [lia|exact Hb]).
  change (2 ^ 32) with (8 * 2 ^ 29). lia.
Qed.

(** ** Running the monad *)

Lemma pbytes_bound dm : Z.of_nat (pbytes dm) = PSIZE dm /\ 4 <= PSIZE dm <= 8.
Proof. destruct dm; cbn; lia. Qed.

Lemma in_heap_intro s a n :
  mem_start_brk s <= a -> a + n <= mem_brk s -> in_heap s a n = true.
Proof.
  intros H1 H2. unfold in_heap. apply andb_true_intro. split; apply Z.leb_le; assumption.
Qed.

Lemma run_bind {A B C} (m : M A) (f : A -> M B) (g : B -> M C) s :
  bind (bind m f) g s = bind m (fun x => bind (f x) g) s.
Proof. unfold bind. destruct (m s); reflexivity. Qed.

Lemma run_ret {A B} (a : A) (k : A -> M B) s : bind (ret a) k s = k a s.
Proof. reflexivity. Qed.

Lemma run_gets {A B} (f : state -> A) (k : A -> M B) s : bind (gets f) k s = k (f s) s.
Proof. reflexivity. Qed.

Lemma run_modify {B} (f : state -> state) (k : unit -> M B) s :
  bind (modify f) k s = k tt (f s).
Proof. reflexivity. Qed.

Lemma run_load {B} n p (k : Z -> M B) s :
  in_heap s p (Z.of_nat n) = true ->
  bind (load n p) k s = k (le_load (mem s) p n) s.
Proof. intros H. unfold bind, load. rewrite H. reflexivity. Qed.

Lemma run_store {B} n p v (k : unit -> M B) s :
  in_heap s p (Z.of_nat n) = true ->
  bind (store n p v) k s = k tt (set_mem s (le_store (mem s) p n v)).
Proof. intros H. unfold bind, store. rewrite H. reflexivity. Qed.

Lemma run_GET {B} p (k : Z -> M B) s :
  in_heap s p 4 = true -> bind (GET p) k s = k (word (mem s) p) s.
Proof. intros H. unfold GET. rewrite run_load by exact H. reflexivity. Qed.

Lemma run_PUT {B} p v (k : unit -> M B) s :
  in_heap s p 4 = true ->
  bind (PUT p v) k s = k tt (set_mem s (le_store (mem s) p 4 v)).
Proof. intros H. unfold PUT. rewrite run_store by exact H. reflexivity. Qed.

Lemma run_GET_SIZE {B} p (k : Z -> M B) s :
  in_heap s p 4 = true ->
  bind (GET_SIZE p) k s = k (Z.land (word (mem s) p) (Z.lnot 7)) s.
Proof.
  intros H. unfold GET_SIZE. rewrite run_bind, run_GET by exact H. reflexivity.
Qed.

Lemma run_GET_ALLOC {B} p (k : Z -> M B) s :
  in_heap s p 4 = true ->
  bind (GET_ALLOC p) k s = k (Z.land (word (mem s) p) 1) s.
Proof.
  intros H. unfold GET_ALLOC. rewrite run_bind, run_GET by exact H. reflexivity.
Qed.

Lemma run_FTRP {B} bp (k : Z -> M B) s :
  in_heap s (bp - 4) 4 = true ->
  bind (FTRP bp) k s = k (bp + Z.land (word (mem s) (bp - 4)) (Z.lnot 7) - 8) s.
Proof.
  intros H. unfold FTRP, HDRP, WSIZE, DSIZE.
  rewrite run_bind, run_GET_SIZE by exact H. reflexivity.
Qed.

Lemma run_NEXT_BLKP {B} bp (k : Z -> M B) s :
  in_heap s (bp - 4) 4 = true ->
  bind (NEXT_BLKP bp) k s = k (bp + Z.land (word (mem s) (bp - 4)) (Z.lnot 7)) s.
Proof.
  intros H. unfold NEXT_BLKP, WSIZE.
  rewrite run_bind, run_GET_SIZE by exact H. reflexivity.
Qed.

Lemma run_PREV_BLKP {B} bp (k : Z -> M B) s :
  in_heap s (bp - 8) 4 = true ->
  bind (PREV_BLKP bp) k s = k (bp - Z.land (word (mem s) (bp - 8)) (Z.lnot 7)) s.
Proof.
  intros H. unfold PREV_BLKP, DSIZE.
  rewrite run_bind, run_GET_SIZE by exact H. reflexivity.
Qed.

Lemma run_GET_NEXT {B} dm bp (k : Z -> M B) s :
  in_heap s bp (PSIZE dm) = true ->
  bind (GET_NEXT dm bp) k s = k (link dm (mem s) bp) s.
Proof.
  intros H. unfold GET_NEXT. rewrite run_load; [reflexivity|].
  rewrite (proj1 (pbytes_bound dm)). exact H.
Qed.

Lemma run_GET_PREV {B} dm bp (k : Z -> M B) s :
  in_heap s (bp + 8) (PSIZE dm) = true ->
  bind (GET_PREV dm bp) k s = k (link dm (mem s) (bp + 8)) s.
Proof.
  intros H. unfold GET_PREV, DSIZE. rewrite run_load; [reflexivity|].
  rewrite (proj1 (pbytes_bound dm)). exact H.
Qed.

Lemma run_SET_NEXT {B} dm bp v (k : unit -> M B) s :
  in_heap s bp (PSIZE dm) = true ->
  bind (SET_NEXT dm bp v) k s = k tt (set_mem s (le_store (mem s) bp (pbytes dm) v)).
Proof.
  intros H. unfold SET_NEXT. rewrite run_store; [reflexivity|].
  rewrite (proj1 (pbytes_bound dm)). exact H.
Qed.

Lemma run_SET_PREV {B} dm bp v (k : unit -> M B) s :
  in_heap s (bp + 8) (PSIZE dm) = true ->
  bind (SET_PREV dm bp v) k s =
  k tt (set_mem s (le_store (mem s) (bp + 8) (pbytes dm) v)).
Proof.
  intros H. unfold SET_PREV, DSIZE. rewrite run_store; [reflexivity|].
  rewrite (proj1 (pbytes_bound dm)). exact H.
Qed.

Lemma do_PUT p v s :
  in_heap s p 4 = true -> PUT p v s = Ok tt (set_mem s (le_store (mem s) p 4 v)).
Proof.
  intros H. unfold PUT, store. change (Z.of_nat 4) with 4. rewrite H. reflexivity.
Qed.

Lemma do_SET_PREV dm bp v s :
  in_heap s (bp + 8) (PSIZE dm) = true ->
  SET_PREV dm bp v s = Ok tt (set_mem s (le_store (mem s) (bp + 8) (pbytes dm) v)).
Proof.
  intros H. unfold SET_PREV, DSIZE, store.
  rewrite (proj1 (pbytes_bound dm)), H. reflexivity.
Qed.

Lemma nonzero_true x : x <> 0 -> nonzero x = true.
Proof. intros H. unfold nonzero. apply negb_true_iff. apply Z.eqb_neq. exact H. Qed.

(** ** Links *)

Lemma link_store_same dm m a v :
  0 <= v < 2 ^ (8 * PSIZE dm) -> link dm (le_store m a (pbytes dm) v) a = v.
Proof.
  intros H. unfold link. apply le_load_store_same.
  rewrite (proj1 (pbytes_bound dm)). exact H.
Qed.

Lemma link_store_other dm m a n v b :
  b + PSIZE dm <= a \/ a + Z.of_nat n <= b ->
  link dm (le_store m a n v) b = link dm m b.
Proof.
  intros H. unfold link. apply le_load_store_other.
  rewrite (proj1 (pbytes_bound dm)). exact H.
Qed.

Lemma word_store_same m a v : 0 <= v < 2 ^ 32 -> word (le_store m a 4 v) a = v.
Proof. intros H. unfold word. apply le_load_store_same. exact H. Qed.

Lemma word_store_other m a n v b :
  b + 4 <= a \/ a + Z.of_nat n <= b -> word (le_store m a n v) b = word m b.
Proof. intros H. unfold word. apply le_load_store_other. exact H. Qed.

Lemma word_frame L m m' z :
  frame L m m' -> Forall (fun y => z + 4 <= y \/ y + 16 <= z) L ->
  word m' z = word m z.
Proof.
  intros Hf Hz. unfold word. apply le_load_ext. intros x Hx. apply Hf.
  eapply Forall_impl; [|exact Hz]. cbv beta. intros y Hy. lia.
Qed.

Lemma frame_refl L m : frame L m m.
Proof. intros x _. reflexivity. Qed.

Lemma frame_trans L m1 m2 m3 : frame L m1 m2 -> frame L m2 m3 -> frame L m1 m3.
Proof. intros H1 H2 x Hx. rewrite (H2 x Hx). apply H1. exact Hx. Qed.

Lemma frame_incl L L' m m' : incl L L' -> frame L m m' -> frame L' m m'.
Proof.
  intros Hi Hf x Hx. apply Hf. apply Forall_forall. intros y Hy.
  rewrite Forall_forall in Hx. apply Hx. apply Hi. exact Hy.
Qed.

Lemma frame_store L m a n v y :
  In y L -> y <= a -> a + Z.of_nat n <= y + 16 -> frame L m (le_store m a n v).
Proof.
  intros Hy H1 H2 x Hx. rewrite Forall_forall in Hx. specialize (Hx y Hy).
  apply le_store_out. lia.
Qed.

Lemma frame_step L m m1 a n v y :
  In y L -> y <= a -> a + Z.of_nat n <= y + 16 ->
  frame L m m1 -> frame L m (le_store m1 a n v).
Proof.
  intros Hy H1 H2 Hf. eapply frame_trans; [exact Hf|].
  eapply frame_store; eassumption.
Qed.

(** ** Doubly linked segments *)

Lemma dseg_frame dm m m' l : forall prv nxt,
  (forall z, In z l ->
     link dm m' z = link dm m z /\ link dm m' (z + DSIZE) = link dm m (z + DSIZE)) ->
  dseg dm m prv l nxt -> dseg dm m' prv l nxt.
Proof.
  induction l as [|x l IH]; intros prv nxt H D; [exact I|].
  cbn [dseg] in *. destruct D as (Hx & Hp & Hn & D).
  destruct (H x (or_introl eq_refl)) as [E1 E2].
  repeat split; [exact Hx|congruence|congruence|].
  apply IH; [|exact D]. intros z Hz. apply H. right. exact Hz.
Qed.

Lemma last_cons (l : list Z) : forall x d, last (x :: l) d = last l x.
Proof.
  induction l as [|y l IH]; intros x d; [reflexivity|].
  change (last (x :: y :: l) d) with (last (y :: l) d).
  rewrite (IH y d), (IH y x). reflexivity.
Qed.

Lemma dseg_app dm m l1 : forall prv l2 nxt,
  dseg dm m prv (l1 ++ l2) nxt <->
  dseg dm m prv l1 (hd nxt l2) /\ dseg dm m (last l1 prv) l2 nxt.
Proof.
  induction l1 as [|x l1 IH]; intros prv l2 nxt.
  - cbn. tauto.
  - cbn [app dseg]. rewrite IH.
    replace (hd nxt (l1 ++ l2)) with (hd (hd nxt l2) l1) by (destruct l1; reflexivity).
    rewrite last_cons.
    tauto.
Qed.

Lemma apart_app l1 l2 :
  apart (l1 ++ l2) <->
  apart l1 /\ apart l2 /\ Forall (fun x => Forall (fun y => 16 <= Z.abs (x - y)) l2) l1.
Proof.
  induction l1 as [|x l1 IH]; cbn [app apart].
  - split; [intros H; repeat split; [exact H|constructor]|tauto].
  - rewrite IH, Forall_app. split.
    + intros ((H1 & H2) & H3 & H4 & H5). repeat split; try assumption.
      constructor; assumption.
    + intros ((H1 & H2) & H3 & H4). inversion H4; subst. tauto.
Qed.

Ltac fields :=
  cbn [mem mem_start_brk mem_brk mem_max_addr heap_listp free_listp ff_size ff_count
       set_mem set_brk set_heap_listp set_free_listp set_ff_size set_ff_count] in *.

Ltac proj :=
  cbn [mem mem_start_brk mem_brk mem_max_addr heap_listp free_listp ff_size ff_count
       set_mem set_brk set_heap_listp set_free_listp set_ff_size set_ff_count].

(** lia on the bounds in the context: divisibility facts and packed
    equalities between states are left out *)
Ltac arith :=
  try assumption;
  repeat match goal with
         | H : same_globals _ _ |- _ => clear H
         | H : _ mod 8 = 0 |- _ => clear H
         end;
  lia.

Ltac inh :=
  apply in_heap_intro;
  cbn [mem mem_start_brk mem_brk set_mem set_brk set_heap_listp set_free_listp
       set_ff_size set_ff_count];
  arith.

(** ** edit_free_list, insertion *)

Lemma edit_free_list_insert dm s l bp :
  region_ok dm s -> free_list dm s l ->
  mem_start_brk s <= bp -> bp + 16 <= mem_brk s ->
  Forall (fun y => 16 <= Z.abs (bp - y)) l ->
  exists s', edit_free_list dm bp 1 s = Ok tt s' /\
    free_list dm s' (bp :: l) /\ frame (bp :: l) (mem s) (mem s') /\
    same_globals s s'.
Proof.
  intros [R1 R2] (Hh & Hd & Hin & Hap) B1 B2 Hfar.
  pose proof (pbytes_bound dm) as [Pb1 Pb2].
  unfold edit_free_list. change (nonzero 1) with true. cbv iota.
  rewrite run_gets, Hh.
  destruct l as [|y l].
  - cbn [hd]. change (nonzero 0) with false. cbv iota.
    rewrite run_SET_NEXT by inh. rewrite run_SET_PREV by inh.
    eexists. split; [reflexivity|]. fields.
    split; [|split; [|repeat split]].
    + unfold free_list. fields. repeat split.
      * lia.
      * unfold DSIZE. apply link_store_same. lia.
      * cbn [hd]. rewrite link_store_other by lia. apply link_store_same. lia.
      * constructor; [lia|constructor].
      * constructor.
    + do 2 (apply frame_step with (y := bp); [left; reflexivity|lia|lia|]).
      apply frame_refl.
  - cbn [hd]. inversion Hin as [|? ? [Y1 Y2] Hin']; subst.
    inversion Hfar as [|? ? Hy Hfar']; subst.
    cbn [dseg] in Hd. destruct Hd as (Y0 & Yp & Yn & Hd).
    cbn [apart] in Hap. destruct Hap as [Hap1 Hap2].
    rewrite (nonzero_true y Y0). cbv iota.
    rewrite run_bind. rewrite run_SET_PREV by inh. rewrite run_SET_NEXT by inh.
    rewrite run_SET_PREV by inh.
    eexists. split; [reflexivity|]. fields.
    split; [|split; [|repeat split]].
    + unfold free_list. fields. repeat split.
      * lia.
      * unfold DSIZE. apply link_store_same. lia.
      * cbn [hd]. rewrite link_store_other by lia. apply link_store_same. lia.
      * exact Y0.
      * unfold DSIZE. repeat (rewrite link_store_other by lia). apply link_store_same. lia.
      * repeat (rewrite link_store_other by lia). exact Yn.
      * eapply dseg_frame; [|exact Hd]. intros z Hz.
        rewrite Forall_forall in Hap1, Hfar'.
        specialize (Hap1 z Hz). specialize (Hfar' z Hz).
        unfold DSIZE. repeat (rewrite link_store_other by lia). split; reflexivity.
      * constructor; [lia|]. constructor; [lia|exact Hin'].
      * constructor; assumption.
      * exact Hap1.
      * exact Hap2.
    + do 2 (apply frame_step with (y := bp); [left; reflexivity|lia|lia|]).
      apply frame_step with (y := y); [right; left; reflexivity|lia|lia|].
      apply frame_refl.
Qed.

(** ** edit_free_list, removal *)

Lemma dseg_store_far dm m c n v l : forall prv nxt,
  Forall (fun z => c + Z.of_nat n <= z \/ z + 16 <= c) l ->
  dseg dm m prv l nxt -> dseg dm (le_store m c n v) prv l nxt.
Proof.
  intros prv nxt Hfar. apply dseg_frame. intros z Hz.
  rewrite Forall_forall in Hfar. specialize (Hfar z Hz).
  pose proof (pbytes_bound dm) as [Pb1 Pb2]. unfold DSIZE.
  split; apply link_store_other; lia.
Qed.

Lemma dseg_set_next_last dm m l p v : forall prv nxt,
  0 <= v < 2 ^ (8 * PSIZE dm) ->
  apart (l ++ [p]) ->
  dseg dm m prv (l ++ [p]) nxt ->
  dseg dm (le_store m p (pbytes dm) v) prv (l ++ [p]) v.
Proof.
  intros prv nxt Hv Hap D.
  pose proof (pbytes_bound dm) as [Pb1 Pb2].
  apply apart_app in Hap. destruct Hap as (_ & _ & Hfar).
  apply dseg_app in D. destruct D as [D1 D2]. apply dseg_app. split.
  - cbn [hd] in *. apply dseg_store_far; [|exact D1].
    eapply Forall_impl; [|exact Hfar]. cbv beta. intros z Hz.
    inversion Hz; subst. lia.
  - cbn [dseg hd] in *. destruct D2 as (P0 & Pp & _ & _).
    repeat split; [exact P0| |].
    + unfold DSIZE in *. rewrite link_store_other by lia. exact Pp.
    + apply link_store_same. exact Hv.
Qed.

Lemma dseg_set_prev_head dm m n l v : forall prv nxt,
  0 <= v < 2 ^ (8 * PSIZE dm) ->
  apart (n :: l) ->
  dseg dm m prv (n :: l) nxt ->
  dseg dm (le_store m (n + 8) (pbytes dm) v) v (n :: l) nxt.
Proof.
  intros prv nxt Hv [Hfar _] D.
  pose proof (pbytes_bound dm) as [Pb1 Pb2].
  cbn [dseg] in *. destruct D as (N0 & _ & Nn & D).
  repeat split; [exact N0| | |].
  - unfold DSIZE. apply link_store_same. exact Hv.
  - rewrite link_store_other by lia. exact Nn.
  - apply dseg_store_far; [|exact D].
    eapply Forall_impl; [|exact Hfar]. cbv beta. intros z Hz. lia.
Qed.

Lemma remove_middle (x : Z) l1 l2 :
  ~ In x l1 -> ~ In x l2 -> remove Z.eq_dec x (l1 ++ x :: l2) = l1 ++ l2.
Proof.
  intros H1 H2. rewrite remove_app, remove_cons.
  rewrite !notin_remove by assumption. reflexivity.
Qed.

Lemma apart_drop l1 x l2 : apart (l1 ++ x :: l2) -> apart (l1 ++ l2).
Proof.
  rewrite !apart_app. intros (H1 & [_ H2] & H3). repeat split; try assumption.
  eapply Forall_impl; [|exact H3]. cbv beta. intros a Ha. inversion Ha; assumption.
Qed.

Lemma apart_middle l1 x l2 : apart (l1 ++ x :: l2) -> ~ In x l1 /\ ~ In x l2.
Proof.
  rewrite apart_app. intros (_ & [H2 _] & H3). split; intros Hin.
  - rewrite Forall_forall in H3. specialize (H3 x Hin). inversion H3; subst. lia.
  - rewrite Forall_forall in H2. specialize (H2 x Hin). lia.
Qed.

Lemma last_or_nil (l : list Z) : l = [] \/ exists l' p, l = l' ++ [p].
Proof. induction l using rev_ind; [left; reflexivity|right; eauto]. Qed.

Lemma edit_free_list_remove dm s l x :
  region_ok dm s -> free_list dm s l -> In x l ->
  exists s', edit_free_list dm x 0 s = Ok tt s' /\
    free_list dm s' (remove Z.eq_dec x l) /\ frame l (mem s) (mem s') /\
    same_globals s s'.
Proof.
  intros [R1 R2] (Hh & Hd & Hin & Hap) Hx.
  pose proof (pbytes_bound dm) as [Pb1 Pb2].
  apply in_split in Hx. destruct Hx as (l1 & l2 & El). rewrite El in *. clear El l.
  destruct (apart_middle _ _ _ Hap) as [Hx1 Hx2].
  rewrite (remove_middle x l1 l2 Hx1 Hx2).
  pose proof (apart_drop _ _ _ Hap) as Hap'.
  apply Forall_app in Hin. destruct Hin as [Hin1 Hin2].
  pose proof (Forall_inv Hin2) as Hxin. apply Forall_inv_tail in Hin2. cbv beta in Hxin.
  assert (Hin' : Forall (fun z => mem_start_brk s <= z /\ z + 16 <= mem_brk s) (l1 ++ l2)).
  { apply Forall_app. split; assumption. }
  apply dseg_app in Hd. destruct Hd as [D1 D2]. cbn [hd] in D1.
  assert (D2' := D2). cbn [dseg] in D2'. destruct D2' as (X0 & Xp & Xn & D3).
  unfold DSIZE in Xp.
  unfold edit_free_list. change (nonzero 0) with false. cbv iota.
  rewrite run_GET_PREV by inh. rewrite Xp.
  destruct (last_or_nil l1) as [El|(l1' & p & El)]; rewrite El in *; clear El l1.
  - (* x is the head *)
    cbn [last app] in *. change (nonzero 0) with false. cbv iota.
    rewrite run_bind, run_GET_NEXT by inh. rewrite Xn.
    rewrite run_modify. rewrite run_GET_NEXT by inh. fields. rewrite Xn.
    destruct l2 as [|n l2].
    + cbn [hd]. change (nonzero 0) with false. cbv iota.
      eexists. split; [reflexivity|]. fields.
      split; [|split; [apply frame_refl|repeat split]].
      unfold free_list. fields. repeat split; constructor.
    + cbn [hd] in *. pose proof (Forall_inv Hin2) as Hn. cbv beta in Hn.
      rewrite nonzero_true by lia. cbv iota.
      rewrite run_GET_PREV by inh. fields. rewrite Xp.
      rewrite do_SET_PREV by inh.
      eexists. split; [reflexivity|]. fields.
      split; [|split; [|repeat split]].
      * unfold free_list. fields. split; [reflexivity|]. split; [|split; assumption].
        apply dseg_set_prev_head with (prv := x); [lia|exact Hap'|exact D3].
      * apply frame_step with (y := n); [right; left; reflexivity|lia|lia|].
        apply frame_refl.
  - (* x has a predecessor p *)
    rewrite last_last in *.
    apply Forall_app in Hin1. destruct Hin1 as [Hin1 Hp].
    apply Forall_inv in Hp. cbv beta in Hp.
    assert (Hpx : 16 <= Z.abs (p - x)).
    { apply apart_app in Hap. destruct Hap as (_ & _ & H).
      apply Forall_app in H. destruct H as [_ H]. apply Forall_inv in H.
      apply Forall_inv in H. exact H. }
    rewrite nonzero_true by lia. cbv iota.
    rewrite run_bind, run_GET_NEXT by inh. rewrite Xn.
    rewrite run_SET_NEXT by inh.
    rewrite run_GET_NEXT by inh. fields.
    rewrite link_store_other by lia. rewrite Xn.
    assert (Hn0 : 0 <= hd 0 l2 < 2 ^ (8 * PSIZE dm)).
    { destruct l2 as [|n l2]; cbn [hd]; [lia|].
      apply Forall_inv in Hin2. lia. }
    assert (E1 : dseg dm (le_store (mem s) p (pbytes dm) (hd 0 l2)) 0 (l1' ++ [p]) (hd 0 l2)).
    { apply dseg_set_next_last with (nxt := x); [exact Hn0| |exact D1].
      apply apart_app in Hap. tauto. }
    destruct l2 as [|n l2].
    + cbn [hd] in *. change (nonzero 0) with false. cbv iota.
      eexists. split; [reflexivity|]. fields.
      split; [|split; [|repeat split]].
      * unfold free_list. fields. rewrite app_nil_r in *.
        split; [|split; [exact E1|split; assumption]].
        rewrite Hh. destruct l1'; reflexivity.
      * apply frame_step with (y := p); [|lia|lia|apply frame_refl].
        apply in_or_app. left. apply in_or_app. right. left. reflexivity.
    + cbn [hd] in *.
      pose proof (Forall_inv Hin2) as Hn. cbv beta in Hn.
      assert (Hpn : 16 <= Z.abs (p - n)).
      { apply apart_app in Hap'. destruct Hap' as (_ & _ & H).
        apply Forall_app in H. destruct H as [_ H]. apply Forall_inv in H.
        apply Forall_inv in H. exact H. }
      rewrite nonzero_true by lia. cbv iota.
      rewrite run_GET_PREV by inh. fields.
      rewrite link_store_other by lia. rewrite Xp.
      rewrite do_SET_PREV by inh.
      eexists. split; [reflexivity|]. fields.
      split; [|split; [|repeat split]].
      * unfold free_list. fields.
        split; [|split; [|split; assumption]].
        { rewrite Hh. destruct l1'; reflexivity. }
        apply dseg_app. split.
        { cbn [hd]. apply dseg_store_far; [|exact E1].
          apply apart_app in Hap'. destruct Hap' as (_ & _ & H).
          eapply Forall_impl; [|exact H]. cbv beta. intros z Hz.
          apply Forall_inv in Hz. lia. }
        { rewrite last_last.
          apply dseg_set_prev_head with (prv := x); [lia|apply apart_app in Hap'; tauto|].
          apply dseg_store_far; [|exact D3].
          apply apart_app in Hap'. destruct Hap' as (_ & _ & H).
          apply Forall_app in H. destruct H as [_ H]. apply Forall_inv in H.
          eapply Forall_impl; [|exact H]. cbv beta. intros z Hz. lia. }
      * apply frame_step with (y := n);
          [apply in_or_app; right; right; left; reflexivity|lia|lia|].
        apply frame_step with (y := p); [|lia|lia|apply frame_refl].
        apply in_or_app. left. apply in_or_app. right. left. reflexivity.
Qed.

Lemma run_ok {A B} (m : M A) (k : A -> M B) s a s' :
  m s = Ok a s' -> bind m k s = k a s'.
Proof. intros H. unfold bind. rewrite H. reflexivity. Qed.

Lemma same_globals_trans s1 s2 s3 :
  same_globals s1 s2 -> same_globals s2 s3 -> same_globals s1 s3.
Proof. unfold same_globals. intuition congruence. Qed.

Lemma PACK_0 sz : PACK sz 0 = sz.
Proof. apply Z.lor_0_r. Qed.

Lemma mem_set_mem s m : mem (set_mem s m) = m.
Proof. reflexivity. Qed.

Lemma size_of_mul8 sz : sz mod 8 = 0 -> 0 <= sz -> Z.land sz (Z.lnot 7) = sz.
Proof. intros H1 H2. rewrite <- (PACK_0 sz) at 1. apply size_of_PACK; lia. Qed.

(** what coalesce reads before it branches *)
Lemma coalesce_reads s bp sz psz pa nsz na (k : bool -> bool -> Z -> M Z) :
  neighbours s bp sz 0 psz pa nsz na ->
  (prev_alloc <-
     (pb <- PREV_BLKP bp ;;
      f <- FTRP pb ;;
      a <- GET_ALLOC f ;;
      if nonzero a then ret true else ret (pb =? bp)) ;;
   next_alloc <- (nb <- NEXT_BLKP bp ;; a <- GET_ALLOC (HDRP nb) ;; ret (nonzero a)) ;;
   size <- GET_SIZE (HDRP bp) ;;
   k prev_alloc next_alloc size) s
  = k (nonzero pa) (nonzero na) sz s.
Proof.
  intros ((S1 & S2) & (P1 & P2 & P3) & (N1 & N2 & N3) & (B1 & B2) &
          (Th & Tf) & (Ph & Pf) & Nh & Pfree & Nfree).
  assert (Wpf : word (mem s) (bp - 8) = PACK psz pa).
  { replace (bp - 8) with (bp - psz + psz - 8) by lia. exact Pf. }
  assert (Wh : word (mem s) (bp - 4) = sz) by (rewrite <- (PACK_0 sz); exact Th).
  rewrite run_bind, run_PREV_BLKP by inh.
  rewrite Wpf, size_of_PACK by lia.
  rewrite run_bind, run_FTRP by inh.
  rewrite Ph, size_of_PACK by lia.
  rewrite run_bind, run_GET_ALLOC by inh.
  rewrite Pf, alloc_of_PACK by lia.
  assert (E : (if nonzero pa then ret true else ret (bp - psz =? bp)) = ret (A:=bool) (nonzero pa)).
  { assert (pa = 0 \/ pa = 1) as [->| ->] by lia; [|reflexivity].
    change (nonzero 0) with false. cbv iota. f_equal. apply Z.eqb_neq. lia. }
  rewrite E, run_ret.
  rewrite run_bind, run_NEXT_BLKP by inh.
  rewrite Wh, size_of_word by lia.
  replace (8 * (sz / 8)) with sz by (pose proof (Z.div_mod sz 8); lia).
  unfold HDRP, WSIZE.
  rewrite run_bind, run_GET_ALLOC by inh.
  rewrite Nh, alloc_of_PACK by lia.
  rewrite run_ret.
  rewrite run_GET_SIZE by inh.
  rewrite Wh, size_of_word by lia.
  replace (8 * (sz / 8)) with sz by (pose proof (Z.div_mod sz 8); lia).
  reflexivity.
Qed.

Lemma free_list_store dm s l c n v :
  Forall (fun z => c + Z.of_nat n <= z \/ z + 16 <= c) l ->
  free_list dm s l -> free_list dm (set_mem s (le_store (mem s) c n v)) l.
Proof.
  intros Hfar (Hh & Hd & Hin & Hap). unfold free_list. fields.
  repeat split; try assumption. apply dseg_store_far; assumption.
Qed.

Lemma region_ok_same dm s s' : same_globals s s' -> region_ok dm s -> region_ok dm s'.
Proof. intros (E1 & E2 & _) [R1 R2]. unfold region_ok. rewrite E1, E2. split; assumption. Qed.

Lemma unchanged_trans l lo hi m1 m2 m3 :
  unchanged_outside l lo hi m1 m2 -> unchanged_outside l lo hi m2 m3 ->
  unchanged_outside l lo hi m1 m3.
Proof. intros H1 H2 a Ha Hl. rewrite (H2 a Ha Hl). apply H1; assumption. Qed.

Lemma unchanged_store l lo hi m c n v :
  lo <= c -> c + Z.of_nat n <= hi -> unchanged_outside l lo hi m (le_store m c n v).
Proof. intros H1 H2 a Ha _. apply le_store_out. lia. Qed.

Lemma unchanged_frame L l lo hi m m' :
  frame L m m' ->
  Forall (fun y => In y l \/ (lo <= y /\ y + 16 <= hi)) L ->
  unchanged_outside l lo hi m m'.
Proof.
  intros Hf HL a Ha Hl. apply Hf. rewrite Forall_forall in *.
  intros y Hy. destruct (HL y Hy) as [Hin|Hin]; [apply Hl; exact Hin|lia].
Qed.

Section Coalesce.

Variable dm : data_model.
Variable s : state.
Variables bp sz psz pa nsz na : Z.
Variable l : list Z.

Hypothesis Hregion : region_ok dm s.
Hypothesis Hlist : free_list dm s l.
Hypothesis Hnb : neighbours s bp sz 0 psz pa nsz na.
Hypothesis Hroom : 24 <= merged_size sz psz pa nsz na.
Hypothesis Htotal : merged_size sz psz pa nsz na < 2 ^ 32.
Hypothesis Hgone : incl (absorbed bp sz psz pa na) l.
Hypothesis Hout :
  nodes_outside (absorbed bp sz psz pa na) l
    (merged_start bp psz pa - 4)
    (merged_start bp psz pa + merged_size sz psz pa nsz na - 4).

Lemma coalesce_case1 :
  pa = 1 -> na = 1 -> exists s', coalesce dm bp s = Ok (merged_start bp psz pa) s' /\
    coalesce_post dm s bp sz psz pa nsz na l s'.
Proof.
  intros Epa Ena. unfold coalesce_post. cbv zeta.
  pose proof Hout as Hout'. pose proof Htotal as Htotal'. pose proof Hroom as Hroom'.
  unfold merged_start, merged_size, absorbed, nodes_outside, without in *.
  rewrite Epa, Ena in Hout', Htotal', Hroom' |- *. cbn [Z.eqb app fold_right] in *.
  clear Hout Htotal Hroom. rename Hout' into Hout.
  pose proof Hnb as ((S1 & S2) & (P1 & P2 & P3) & (N1 & N2 & N3) & (B1 & B2) &
          (Th & Tf) & (Ph & Pf) & Nh & Pfree & Nfree).
  rewrite !Z.add_0_r in *.
  pose proof Hregion as [R1 R2].
  unfold coalesce. rewrite (coalesce_reads _ _ _ _ _ _ _ _ Hnb).
  rewrite Epa, Ena. change (nonzero 1) with true. cbn [andb negb]. rewrite run_ret.
  assert (Hfar : Forall (fun y => 16 <= Z.abs (bp - y)) l).
  { eapply Forall_impl; [|exact Hout]. cbv beta. intros y [[]|Hy]. lia. }
  destruct (edit_free_list_insert dm s l bp Hregion Hlist ltac:(lia) ltac:(lia) Hfar)
    as (s' & Hrun & Hfl & Hfr & Hsg).
  rewrite (run_ok _ _ _ _ _ Hrun). exists s'. split; [reflexivity|].
  split; [|split; [exact Hfl|split; [exact Hsg|]]].
  - split.
    + rewrite (word_frame _ _ _ _ Hfr); [exact Th|].
      constructor; [lia|]. eapply Forall_impl; [|exact Hout]. cbv beta.
      intros y [[]|Hy]. lia.
    + rewrite (word_frame _ _ _ _ Hfr); [exact Tf|].
      constructor; [lia|]. eapply Forall_impl; [|exact Hout]. cbv beta.
      intros y [[]|Hy]. lia.
  - eapply unchanged_frame; [exact Hfr|].
    constructor; [right; lia|]. apply Forall_forall. intros y Hy. left. exact Hy.
Qed.

Lemma coalesce_case2 :
  pa = 1 -> na = 0 -> exists s', coalesce dm bp s = Ok (merged_start bp psz pa) s' /\
    coalesce_post dm s bp sz psz pa nsz na l s'.
Proof.
  intros Epa Ena. unfold coalesce_post. cbv zeta.
  pose proof Hout as Hout'. pose proof Htotal as Htotal'. pose proof Hgone as Hgone'.
  unfold merged_start, merged_size, absorbed, nodes_outside, without in *.
  rewrite Epa, Ena in Hout', Htotal', Hgone' |- *. cbn [Z.eqb app fold_right] in *.
  clear Hout Htotal Hgone. rename Hout' into Hout.
  pose proof Hnb as ((S1 & S2) & (P1 & P2 & P3) & (N1 & N2 & N3) & (B1 & B2) &
          (Th & Tf) & (Ph & Pf) & Nh & Pfree & Nfree).
  destruct (Nfree Ena) as (N4 & N5 & Nf).
  rewrite !Z.add_0_r in *.
  pose proof Hregion as [R1 R2].
  set (n := bp + sz) in *. set (T := sz + nsz) in *.
  assert (Hn : In n l) by (apply Hgone'; left; reflexivity).
  assert (Wh : word (mem s) (bp - 4) = sz) by (rewrite <- (PACK_0 sz); exact Th).
  unfold coalesce. rewrite (coalesce_reads _ _ _ _ _ _ _ _ Hnb).
  rewrite Epa, Ena. change (nonzero 1) with true. change (nonzero 0) with false.
  cbn [andb negb].
  rewrite !run_bind, run_NEXT_BLKP by inh. rewrite Wh, size_of_mul8 by arith.
  unfold HDRP, WSIZE.
  rewrite !run_bind, run_GET_SIZE by (subst n; inh).
  fold n. replace (word (mem s) (n - 4)) with (PACK nsz na) by (symmetry; exact Nh).
  rewrite size_of_PACK by arith.
  unfold u32. rewrite (Z.mod_small (sz + nsz)) by (subst T; arith). fold T.
  rewrite PACK_0.
  destruct (edit_free_list_remove dm s l n Hregion Hlist Hn)
    as (s1 & Hrun1 & Hfl1 & Hfr1 & Hsg1).
  rewrite !run_bind, (run_ok _ _ _ _ _ Hrun1).
  pose proof Hsg1 as (G1 & G2 & _).
  rewrite !run_bind, run_PUT by (subst n; inh).
  rewrite !run_bind, run_FTRP by (subst n; inh).
  rewrite mem_set_mem. rewrite word_store_same. 2:{ subst T. arith. } rewrite size_of_mul8 by (subst T; first [apply mul8_add; assumption|arith]).
  rewrite !run_bind, run_PUT by (subst n T; inh).
  rewrite run_ret.
  set (m3 := le_store _ (bp + T - 8) 4 T).
  set (s3 := set_mem _ m3).
  assert (Hrest : forall x, In x (remove Z.eq_dec n l) -> x + 16 <= bp - 8 \/ bp + T <= x).
  { intros x Hx. apply in_remove in Hx. destruct Hx as [Hx Hxn].
    rewrite Forall_forall in Hout. destruct (Hout x Hx) as [[E|[]]|H]; [congruence|arith]. }
  assert (Hfl3 : free_list dm s3 (remove Z.eq_dec n l)).
  { subst s3 m3. apply free_list_store.
    - apply Forall_forall. intros x Hx. specialize (Hrest x Hx). cbn. arith.
    - apply free_list_store; [|exact Hfl1].
      apply Forall_forall. intros x Hx. specialize (Hrest x Hx). cbn. arith. }
  assert (Hsg3 : same_globals s s3).
  { eapply same_globals_trans; [exact Hsg1|]. subst s3. repeat split. }
  assert (Hfar : Forall (fun y => 16 <= Z.abs (bp - y)) (remove Z.eq_dec n l)).
  { apply Forall_forall. intros x Hx. specialize (Hrest x Hx). subst T. arith. }
  destruct (edit_free_list_insert dm s3 (remove Z.eq_dec n l) bp
              (region_ok_same dm s s3 Hsg3 Hregion) Hfl3) as (s' & Hrun & Hfl & Hfr & Hsg);
    [subst s3; cbn; subst n; arith|subst s3; cbn; subst n; arith|exact Hfar|].
  rewrite (run_ok _ _ _ _ _ Hrun). exists s'. split; [reflexivity|].
  assert (Hfr' : Forall (fun y => y = bp \/ In y l) (bp :: remove Z.eq_dec n l)).
  { constructor; [left; reflexivity|]. apply Forall_forall. intros x Hx.
    right. apply in_remove in Hx. tauto. }
  split; [|split; [exact Hfl|split; [eapply same_globals_trans; eassumption|]]].
  - split.
    + rewrite (word_frame _ _ _ _ Hfr).
      * subst s3 m3. rewrite mem_set_mem. rewrite word_store_other by (subst T; arith).
        rewrite mem_set_mem. rewrite word_store_same by (subst T; arith).
        symmetry. apply PACK_0.
      * constructor; [arith|]. apply Forall_forall. intros x Hx.
        specialize (Hrest x Hx). arith.
    + rewrite (word_frame _ _ _ _ Hfr).
      * subst s3 m3. rewrite mem_set_mem. rewrite word_store_same by (subst T; arith).
        symmetry. apply PACK_0.
      * constructor; [subst T; arith|]. apply Forall_forall. intros x Hx.
        specialize (Hrest x Hx). arith.
  - eapply unchanged_trans; [|eapply unchanged_frame; [exact Hfr|]].
    + subst s3 m3. rewrite mem_set_mem.
      eapply unchanged_trans; [|apply unchanged_store; subst T; cbn; arith].
      rewrite mem_set_mem.
      eapply unchanged_trans; [|apply unchanged_store; subst T; cbn; arith].
      eapply unchanged_frame; [exact Hfr1|].
      apply Forall_forall. intros y Hy. left. exact Hy.
    + eapply Forall_impl; [|exact Hfr']. cbv beta. intros y [->|Hy]; [right|left; exact Hy].
      subst T. arith.
Qed.

Lemma coalesce_case3 :
  pa = 0 -> na = 1 -> exists s', coalesce dm bp s = Ok (merged_start bp psz pa) s' /\
    coalesce_post dm s bp sz psz pa nsz na l s'.
Proof.
  intros Epa Ena. unfold coalesce_post. cbv zeta.
  pose proof Hout as Hout'. pose proof Htotal as Htotal'. pose proof Hgone as Hgone'.
  unfold merged_start, merged_size, absorbed, nodes_outside, without in *.
  rewrite Epa, Ena in Hout', Htotal', Hgone' |- *. cbn [Z.eqb app fold_right] in *.
  clear Hout Htotal Hgone. rename Hout' into Hout.
  pose proof Hnb as ((S1 & S2) & (P1 & P2 & P3) & (N1 & N2 & N3) & (B1 & B2) &
          (Th & Tf) & (Ph & Pf) & Nh & Pfree & Nfree).
  pose proof (Pfree Epa) as P4.
  rewrite !Z.add_0_r in *.
  pose proof Hregion as [R1 R2].
  set (p := bp - psz) in *. set (T := sz + psz) in *.
  assert (Hp : In p l) by (apply Hgone'; left; reflexivity).
  assert (Wpf : word (mem s) (bp - 8) = PACK psz pa).
  { replace (bp - 8) with (p + psz - 8) by (subst p; lia). exact Pf. }
  assert (HT : T mod 8 = 0) by (subst T; apply mul8_add; assumption).
  unfold coalesce. rewrite (coalesce_reads _ _ _ _ _ _ _ _ Hnb).
  rewrite Epa, Ena. change (nonzero 1) with true. change (nonzero 0) with false.
  cbn [andb negb].
  rewrite !run_bind, run_PREV_BLKP by (subst p; inh).
  rewrite Wpf, size_of_PACK by arith. fold p.
  unfold HDRP, WSIZE.
  rewrite !run_bind, run_GET_SIZE by (subst p; inh).
  rewrite Ph, size_of_PACK by arith.
  unfold u32. rewrite (Z.mod_small (sz + psz)) by (subst T; arith). fold T.
  rewrite PACK_0.
  rewrite !run_bind, run_PUT by (subst p; inh).
  rewrite !run_bind, run_FTRP by (subst p; inh).
  rewrite mem_set_mem, word_store_same, size_of_mul8 by (subst T; arith).
  rewrite !run_bind, run_PUT by (subst p T; inh).
  set (m2 := le_store _ (p + T - 8) 4 T).
  set (s2 := set_mem _ m2).
  assert (Hl : forall x, In x l -> x = p \/ x + 16 <= p - 8 \/ p + T <= x).
  { intros x Hx. rewrite Forall_forall in Hout.
    destruct (Hout x Hx) as [[E|[]]|H]; [left; congruence|right; lia]. }
  assert (Hfl2 : free_list dm s2 l).
  { subst s2 m2. apply free_list_store.
    - apply Forall_forall. intros x Hx. specialize (Hl x Hx). cbn. subst T. arith.
    - apply free_list_store; [|exact Hlist].
      apply Forall_forall. intros x Hx. specialize (Hl x Hx). cbn. arith. }
  assert (Hsg2 : same_globals s s2) by (subst s2; repeat split).
  destruct (edit_free_list_remove dm s2 l p (region_ok_same dm s s2 Hsg2 Hregion) Hfl2 Hp)
    as (s3 & Hrun3 & Hfl3 & Hfr3 & Hsg3).
  rewrite !run_bind, (run_ok _ _ _ _ _ Hrun3). rewrite run_ret.
  assert (Hsg3' : same_globals s s3) by exact (same_globals_trans _ _ _ Hsg2 Hsg3).
  pose proof Hsg3' as (G1 & G2 & _).
  assert (Hrest : forall x, In x (remove Z.eq_dec p l) -> x + 16 <= p - 8 \/ p + T <= x).
  { intros x Hx. apply in_remove in Hx. destruct Hx as [Hx Hxp].
    destruct (Hl x Hx) as [E|H]; [congruence|exact H]. }
  assert (Hfar : Forall (fun y => 16 <= Z.abs (p - y)) (remove Z.eq_dec p l)).
  { apply Forall_forall. intros x Hx. specialize (Hrest x Hx). subst T. arith. }
  destruct (edit_free_list_insert dm s3 (remove Z.eq_dec p l) p
              (region_ok_same dm s s3 Hsg3' Hregion) Hfl3) as (s' & Hrun & Hfl & Hfr & Hsg);
    [subst p; arith|subst p T; arith|exact Hfar|].
  rewrite (run_ok _ _ _ _ _ Hrun). exists s'. split; [reflexivity|].
  assert (Hfr' : Forall (fun y => y = p \/ In y l) (p :: remove Z.eq_dec p l)).
  { constructor; [left; reflexivity|]. apply Forall_forall. intros x Hx.
    right. apply in_remove in Hx. tauto. }
  split; [|split; [exact Hfl|split; [eapply same_globals_trans; eassumption|]]].
  - split.
    + rewrite (word_frame _ _ _ _ Hfr), (word_frame _ _ _ _ Hfr3).
      * subst s2 m2. rewrite mem_set_mem. rewrite word_store_other by (subst T; arith).
        rewrite mem_set_mem. rewrite word_store_same by (subst T; arith).
        symmetry. apply PACK_0.
      * apply Forall_forall. intros x Hx. specialize (Hl x Hx). arith.
      * constructor; [arith|]. apply Forall_forall. intros x Hx.
        specialize (Hrest x Hx). arith.
    + rewrite (word_frame _ _ _ _ Hfr), (word_frame _ _ _ _ Hfr3).
      * subst s2 m2. rewrite mem_set_mem. rewrite word_store_same by (subst T; arith).
        symmetry. apply PACK_0.
      * apply Forall_forall. intros x Hx. specialize (Hl x Hx). subst T. arith.
      * constructor; [subst T; arith|]. apply Forall_forall. intros x Hx.
        specialize (Hrest x Hx). arith.
  - eapply unchanged_trans; [|eapply unchanged_frame; [exact Hfr|]].
    + eapply unchanged_trans; [|eapply unchanged_frame; [exact Hfr3|]].
      * subst s2 m2. rewrite mem_set_mem.
        eapply unchanged_trans; [|apply unchanged_store; subst T; cbn; arith].
        rewrite mem_set_mem. apply unchanged_store; subst T; cbn; arith.
      * apply Forall_forall. intros y Hy. left. exact Hy.
    + eapply Forall_impl; [|exact Hfr']. cbv beta. intros y [->|Hy]; [right|left; exact Hy].
      subst T. arith.
Qed.

Lemma coalesce_case4 :
  pa = 0 -> na = 0 -> exists s', coalesce dm bp s = Ok (merged_start bp psz pa) s' /\
    coalesce_post dm s bp sz psz pa nsz na l s'.
Proof.
  intros Epa Ena. unfold coalesce_post. cbv zeta.
  pose proof Hout as Hout'. pose proof Htotal as Htotal'. pose proof Hgone as Hgone'.
  unfold merged_start, merged_size, absorbed, nodes_outside, without in *.
  rewrite Epa, Ena in Hout', Htotal', Hgone' |- *. cbn [Z.eqb app fold_right] in *.
  clear Hout Htotal Hgone. rename Hout' into Hout.
  pose proof Hnb as ((S1 & S2) & (P1 & P2 & P3) & (N1 & N2 & N3) & (B1 & B2) &
          (Th & Tf) & (Ph & Pf) & Nh & Pfree & Nfree).
  pose proof (Pfree Epa) as P4.
  destruct (Nfree Ena) as (N4 & N5 & Nf).
  pose proof Hregion as [R1 R2].
  set (p := bp - psz) in *. set (n := bp + sz) in *. set (T := sz + psz + nsz) in *.
  assert (Hp : In p l) by (apply Hgone'; left; reflexivity).
  assert (Hn : In n l) by (apply Hgone'; right; left; reflexivity).
  assert (Wpf : word (mem s) (bp - 8) = PACK psz pa).
  { replace (bp - 8) with (p + psz - 8) by (subst p; lia). exact Pf. }
  assert (Wh : word (mem s) (bp - 4) = sz) by (rewrite <- (PACK_0 sz); exact Th).
  assert (HT : T mod 8 = 0) by (subst T; repeat apply mul8_add; assumption).
  assert (Hl : forall x, In x l -> x = p \/ x = n \/ x + 16 <= p - 8 \/ p + T <= x).
  { intros x Hx. rewrite Forall_forall in Hout.
    destruct (Hout x Hx) as [[E|[E|[]]]|H];
      [left; congruence|right; left; congruence|right; right; lia]. }
  unfold coalesce. rewrite (coalesce_reads _ _ _ _ _ _ _ _ Hnb).
  rewrite Epa, Ena. change (nonzero 0) with false.
  cbn [andb negb].
  rewrite !run_bind, run_PREV_BLKP by (subst p; inh).
  rewrite Wpf, size_of_PACK by arith. fold p.
  unfold HDRP, WSIZE.
  rewrite !run_bind, run_GET_SIZE by (subst p; inh).
  rewrite Ph, size_of_PACK by arith.
  rewrite !run_bind, run_NEXT_BLKP by inh. rewrite Wh, size_of_mul8 by arith. fold n.
  rewrite !run_bind, run_FTRP by (subst n; inh).
  rewrite Nh, size_of_PACK by arith.
  rewrite !run_bind, run_GET_SIZE by (subst n; inh).
  rewrite Nf, size_of_PACK by arith.
  unfold u32. rewrite (Z.mod_small (psz + nsz)) by (subst T; arith).
  rewrite (Z.mod_small (sz + (psz + nsz))) by (subst T; arith).
  replace (sz + (psz + nsz)) with T by (subst T; lia).
  rewrite PACK_0.
  (* the successor leaves the list *)
  destruct (edit_free_list_remove dm s l n Hregion Hlist Hn)
    as (s1 & Hrun1 & Hfl1 & Hfr1 & Hsg1).
  rewrite !run_bind, (run_ok _ _ _ _ _ Hrun1).
  pose proof Hsg1 as (G1 & G2 & _).
  assert (Wpf1 : word (mem s1) (bp - 8) = PACK psz pa).
  { rewrite (word_frame _ _ _ _ Hfr1); [exact Wpf|].
    apply Forall_forall. intros x Hx. specialize (Hl x Hx). subst p n. arith. }
  rewrite !run_bind, run_PREV_BLKP by (subst p; inh).
  rewrite Wpf1, size_of_PACK by arith. fold p.
  rewrite !run_bind, run_PUT by (subst p; inh).
  rewrite !run_bind, run_PREV_BLKP by (subst p; inh).
  rewrite mem_set_mem, word_store_other by (subst p; arith).
  rewrite Wpf1, size_of_PACK by arith. fold p.
  rewrite !run_bind, run_FTRP by (subst p; inh).
  rewrite mem_set_mem, word_store_same, size_of_mul8 by (subst T; arith).
  rewrite !run_bind, run_PUT by (subst p n T; inh).
  rewrite !run_bind, run_PREV_BLKP by (subst p; inh).
  rewrite mem_set_mem, word_store_other by (subst p n T; arith).
  rewrite mem_set_mem, word_store_other by (subst p; arith).
  rewrite Wpf1, size_of_PACK by arith. fold p.
  set (m3 := le_store _ (p + T - 8) 4 T).
  set (s3 := set_mem _ m3).
  assert (Hl1 : forall x, In x (remove Z.eq_dec n l) ->
                          x = p \/ x + 16 <= p - 8 \/ p + T <= x).
  { intros x Hx. apply in_remove in Hx. destruct Hx as [Hx Hxn].
    destruct (Hl x Hx) as [E|[E|H]]; [left; exact E|congruence|right; exact H]. }
  assert (Hfl3 : free_list dm s3 (remove Z.eq_dec n l)).
  { subst s3 m3. apply free_list_store.
    - apply Forall_forall. intros x Hx. specialize (Hl1 x Hx). cbn. subst T. arith.
    - apply free_list_store; [|exact Hfl1].
      apply Forall_forall. intros x Hx. specialize (Hl1 x Hx). cbn. arith. }
  assert (Hsg3 : same_globals s s3).
  { eapply same_globals_trans; [exact Hsg1|]. subst s3. repeat split. }
  assert (Hp1 : In p (remove Z.eq_dec n l)).
  { apply in_in_remove; [subst p n; arith|exact Hp]. }
  (* the predecessor leaves the list *)
  destruct (edit_free_list_remove dm s3 _ p (region_ok_same dm s s3 Hsg3 Hregion) Hfl3 Hp1)
    as (s4 & Hrun4 & Hfl4 & Hfr4 & Hsg4).
  rewrite !run_bind, (run_ok _ _ _ _ _ Hrun4). rewrite run_ret.
  assert (Hsg4' : same_globals s s4) by exact (same_globals_trans _ _ _ Hsg3 Hsg4).
  pose proof Hsg4' as (G3 & G4 & _).
  assert (Hrest : forall x, In x (remove Z.eq_dec p (remove Z.eq_dec n l)) ->
                            x + 16 <= p - 8 \/ p + T <= x).
  { intros x Hx. apply in_remove in Hx. destruct Hx as [Hx Hxp].
    destruct (Hl1 x Hx) as [E|H]; [congruence|exact H]. }
  assert (Hfar : Forall (fun y => 16 <= Z.abs (p - y))
                        (remove Z.eq_dec p (remove Z.eq_dec n l))).
  { apply Forall_forall. intros x Hx. specialize (Hrest x Hx). subst T. arith. }
  destruct (edit_free_list_insert dm s4 _ p
              (region_ok_same dm s s4 Hsg4' Hregion) Hfl4) as (s' & Hrun & Hfl & Hfr & Hsg);
    [subst p; arith|subst p n T; arith|exact Hfar|].
  rewrite (run_ok _ _ _ _ _ Hrun). exists s'. split; [reflexivity|].
  assert (Hfr' : Forall (fun y => y = p \/ In y l)
                        (p :: remove Z.eq_dec p (remove Z.eq_dec n l))).
  { constructor; [left; reflexivity|]. apply Forall_forall. intros x Hx.
    right. apply in_remove in Hx. destruct Hx as [Hx _].
    apply in_remove in Hx. tauto. }
  assert (Hfr4' : frame l (mem s3) (mem s4)).
  { eapply frame_incl; [|exact Hfr4]. intros x Hx. apply in_remove in Hx. tauto. }
  split; [|split; [exact Hfl|split; [eapply same_globals_trans; eassumption|]]].
  - split.
    + rewrite (word_frame _ _ _ _ Hfr), (word_frame _ _ _ _ Hfr4').
      * subst s3 m3. rewrite ?mem_set_mem. rewrite word_store_other by (subst T; arith).
        rewrite word_store_same by (subst T; arith).
        symmetry. apply PACK_0.
      * apply Forall_forall. intros x Hx. specialize (Hl x Hx). subst p n. arith.
      * constructor; [arith|]. apply Forall_forall. intros x Hx.
        specialize (Hrest x Hx). arith.
    + rewrite (word_frame _ _ _ _ Hfr), (word_frame _ _ _ _ Hfr4').
      * subst s3 m3. rewrite ?mem_set_mem. rewrite word_store_same by (subst T; arith).
        symmetry. apply PACK_0.
      * apply Forall_forall. intros x Hx. specialize (Hl x Hx). subst p n T. arith.
      * constructor; [subst T; arith|]. apply Forall_forall. intros x Hx.
        specialize (Hrest x Hx). arith.
  - eapply unchanged_trans; [|eapply unchanged_frame; [exact Hfr|]].
    + eapply unchanged_trans; [|eapply unchanged_frame; [exact Hfr4'|]].
      * subst s3 m3. rewrite ?mem_set_mem.
        eapply unchanged_trans; [|apply unchanged_store; subst T; cbn; arith].
        eapply unchanged_trans; [|apply unchanged_store; subst T; cbn; arith].
        eapply unchanged_frame; [exact Hfr1|].
        apply Forall_forall. intros y Hy. left. exact Hy.
      * apply Forall_forall. intros y Hy. left. exact Hy.
    + eapply Forall_impl; [|exact Hfr']. cbv beta. intros y [->|Hy]; [right|left; exact Hy].
      subst T. arith.
Qed.

End Coalesce.

(** ** The coalescer *)

Lemma coalesce_spec dm s bp sz psz pa nsz na l :
  region_ok dm s -> free_list dm s l ->
  neighbours s bp sz 0 psz pa nsz na ->
  24 <= merged_size sz psz pa nsz na < 2 ^ 32 ->
  incl (absorbed bp sz psz pa na) l ->
  nodes_outside (absorbed bp sz psz pa na) l
    (merged_start bp psz pa - 4)
    (merged_start bp psz pa + merged_size sz psz pa nsz na - 4) ->
  exists s', coalesce dm bp s = Ok (merged_start bp psz pa) s' /\
             coalesce_post dm s bp sz psz pa nsz na l s'.
Proof.
  intros H1 H2 H3 [H0 H4] H5 H6.
  pose proof H3 as (_ & (_ & _ & Pa) & (_ & _ & Na) & _).
  assert (pa = 0 \/ pa = 1) as [Epa|Epa] by lia;
    assert (na = 0 \/ na = 1) as [Ena|Ena] by lia.
  - apply coalesce_case4; assumption.
  - apply coalesce_case3; assumption.
  - apply coalesce_case2; assumption.
  - apply coalesce_case1; assumption.
Qed.

(** ** extend_heap *)

Lemma mod8_of_mod_pow2 x k : 3 <= k -> x mod 8 = 0 -> (x mod 2 ^ k) mod 8 = 0.
Proof.
  intros Hk Hx. rewrite Z.mod_mod_divide; [exact Hx|].
  exists (2 ^ (k - 3)). replace 8 with (2 ^ 3) by reflexivity.
  rewrite <- Z.pow_add_r by lia. f_equal. lia.
Qed.

Lemma even_of_mod_pow2 x k : 1 <= k -> x mod 2 = 0 -> (x mod 2 ^ k) mod 2 = 0.
Proof.
  intros Hk Hx. rewrite Z.mod_mod_divide; [exact Hx|].
  exists (2 ^ (k - 1)). replace 2 with (2 ^ 1) at 3 by reflexivity.
  rewrite <- Z.pow_add_r by lia. f_equal. lia.
Qed.

Lemma extend_size_aligned dm words :
  24 <= extend_size dm words < 2 ^ 32 /\ extend_size dm words mod 8 = 0.
Proof.
  unfold extend_size.
  set (v := if nonzero (words mod 2) then _ else _).
  assert (Hv : v mod 8 = 0).
  { subst v. pose proof (pbytes_bound dm) as [_ Hp].
    unfold nonzero, to_size_t, WSIZE.
    destruct (Z.eqb_spec (words mod 2) 0) as [E|E]; cbn [negb].
    - apply mod8_of_mod_pow2; [lia|].
      pose proof (Z.div_mod words 2 ltac:(lia)).
      replace (words * 4) with ((words / 2) * 8) by lia. apply Z.mod_mul. lia.
    - apply mod8_of_mod_pow2; [lia|].
      assert (E2 : ((words + 1) mod 2 ^ (8 * PSIZE dm)) mod 2 = 0).
      { apply even_of_mod_pow2; [lia|].
        pose proof (Z.mod_pos_bound words 2 ltac:(lia)).
        rewrite Z.add_mod by lia. replace (words mod 2) with 1 by lia. reflexivity. }
      set (w := (words + 1) mod 2 ^ (8 * PSIZE dm)) in *.
      pose proof (Z.div_mod w 2 ltac:(lia)).
      replace (w * 4) with ((w / 2) * 8) by lia. apply Z.mod_mul. lia. }
  assert (Hu : u32 v mod 8 = 0) by (apply (mod8_of_mod_pow2 v 32); [lia|exact Hv]).
  pose proof (Z.mod_pos_bound v (2 ^ 32) ltac:(lia)) as Hb. fold (u32 v) in Hb.
  destruct (Z.ltb_spec (u32 v) 24); split; try lia. reflexivity.
Qed.

Lemma free_list_grow dm s l b :
  mem_brk s <= b -> free_list dm s l -> free_list dm (set_brk s b) l.
Proof.
  intros Hb (Hh & Hd & Hin & Hap). unfold free_list.
  cbn [mem mem_start_brk mem_brk free_listp set_brk].
  repeat split; try assumption.
  eapply Forall_impl; [|exact Hin]. cbv beta. intros x Hx. lia.
Qed.

Lemma word_unchanged l lo hi m m' z :
  unchanged_outside l lo hi m m' ->
  z + 4 <= lo \/ hi <= z ->
  Forall (fun y => z + 4 <= y \/ y + 16 <= z) l ->
  word m' z = word m z.
Proof.
  intros Hu Hz Hl. unfold word. apply le_load_ext. intros x Hx. apply Hu; [lia|].
  eapply Forall_impl; [|exact Hl]. cbv beta. intros y Hy. lia.
Qed.

Lemma to_int_small x : 0 <= x < 2 ^ 31 -> to_int x = x.
Proof.
  intros H. unfold to_int. rewrite Z.mod_small by lia.
  destruct (Z.ltb_spec x (2 ^ 31)); lia.
Qed.

Lemma run_mem_sbrk {B} dm incr (k : Z -> M B) s :
  0 <= incr -> mem_brk s + incr <= mem_max_addr s ->
  bind (mem_sbrk dm incr) k s = k (mem_brk s) (set_brk s (mem_brk s + incr)).
Proof.
  intros H1 H2. unfold bind, mem_sbrk.
  replace (incr <? 0) with false by (symmetry; apply Z.ltb_ge; lia).
  replace (mem_max_addr s <? mem_brk s + incr) with false
    by (symmetry; apply Z.ltb_ge; lia).
  reflexivity.
Qed.

Lemma extend_heap_spec dm s words l psz pa :
  let size := extend_size dm words in
  let bp := mem_brk s in
  let r := merged_start bp psz pa in
  let total := merged_size size psz pa 0 1 in
  region_ok dm s ->
  mem_max_addr s <= 2 ^ (8 * PSIZE dm) ->
  free_list dm s l ->
  (8 <= psz /\ psz mod 8 = 0 /\ 0 <= pa <= 1) ->
  mem_start_brk s <= bp - psz - 4 ->
  tagged (mem s) (bp - psz) psz pa ->
  (pa = 0 -> 24 <= psz) ->
  incl (absorbed bp size psz pa 1) l ->
  Forall (fun x => In x (absorbed bp size psz pa 1) \/ x + 16 <= r - 8) l ->
  size < 2 ^ 31 -> bp + size <= mem_max_addr s -> total < 2 ^ 32 ->
  exists s',
    extend_heap dm words s = Ok r s' /\ r <> 0 /\
    mem_brk s' = mem_brk s + size /\ 24 <= size /\ size mod 8 = 0 /\
    tagged (mem s') r total 0 /\ r + total = mem_brk s' /\
    word (mem s') (mem_brk s' - 4) = PACK 0 1 /\
    free_list dm s' (r :: without (absorbed bp size psz pa 1) l) /\
    same_globals (set_brk s (mem_brk s + size)) s' /\
    unchanged_outside l (r - 4) (r + total) (mem s) (mem s').
Proof.
  intros size bp r total [R1 R2] Hmax Hfl (P1 & P2 & P3) B1 [Ph Pf] Pfree Hgone Hout
         Hsz Hfit Htot.
  destruct (extend_size_aligned dm words) as [[Z1 Z2] Z3]. fold size in Z1, Z2, Z3.
  unfold extend_heap. fold size.
  rewrite to_int_small by lia.
  rewrite run_mem_sbrk by (fold bp; lia). fold bp.
  replace (bp =? 2 ^ (8 * PSIZE dm) - 1) with false by (symmetry; apply Z.eqb_neq; lia).
  rewrite PACK_0. unfold HDRP, WSIZE.
  rewrite ?run_bind, run_PUT by (fold bp; inh).
  rewrite ?run_bind, run_FTRP by (fold bp; inh).
  rewrite mem_set_mem, word_store_same, size_of_mul8 by arith.
  rewrite ?run_bind, run_PUT by (fold bp; inh).
  rewrite ?run_bind, run_NEXT_BLKP by (fold bp; inh).
  rewrite mem_set_mem, word_store_other by arith.
  rewrite mem_set_mem, word_store_same, size_of_mul8 by arith.
  rewrite ?run_bind, run_PUT by (fold bp; inh).
  set (sc := set_mem _ _).
  assert (Hlin : Forall (fun x => x + 16 <= bp - 8) l).
  { eapply Forall_impl; [|exact Hout]. cbv beta. intros x [Hx|Hx].
    - unfold absorbed in Hx. apply in_app_or in Hx. destruct Hx as [Hx|[]].
      destruct (pa =? 0) eqn:E; [|destruct Hx]. destruct Hx as [<-|[]].
      apply Z.eqb_eq in E. specialize (Pfree E). lia.
    - subst r. unfold merged_start in Hx. destruct (pa =? 0); lia. }
  assert (Hflc : free_list dm sc l).
  { subst sc.
    repeat (apply free_list_store;
            [eapply Forall_impl; [|exact Hlin]; cbv beta; intros x Hx; cbn; lia|]).
    apply free_list_grow; [lia|exact Hfl]. }
  assert (Hnb : neighbours sc bp size 0 psz pa 0 1).
  { subst sc. unfold neighbours, tagged. cbn [mem mem_start_brk mem_brk set_mem set_brk].
    rewrite !PACK_0. fold bp.
    repeat split; try lia.
    - repeat (rewrite word_store_other by lia). apply word_store_same. lia.
    - rewrite word_store_other by lia. apply word_store_same. lia.
    - repeat (rewrite word_store_other by lia). exact Ph.
    - repeat (rewrite word_store_other by lia). exact Pf.
    - apply word_store_same. cbn. lia. }
  assert (Hrc : region_ok dm sc).
  { subst sc. unfold region_ok. cbn [mem_start_brk mem_brk set_mem set_brk]. fold bp. lia. }
  assert (Hroom : 24 <= total).
  { subst total. unfold merged_size. change (1 =? 0) with false. cbv iota.
    destruct (pa =? 0); lia. }
  destruct (coalesce_spec dm sc bp size psz pa 0 1 l Hrc Hflc Hnb (conj Hroom Htot) Hgone)
    as (s' & Hrun & (Tg & Hfl' & Hsg & Hun)).
  { fold r. fold total. unfold nodes_outside.
    eapply Forall_impl; [|exact Hout]. cbv beta. intros x [Hx|Hx]; [left; exact Hx|].
    right. left. lia. }
  fold r total in Hrun, Tg, Hfl', Hun.
  exists s'. split; [exact Hrun|].
  assert (Ert : r + total = bp + size).
  { subst r total. unfold merged_start, merged_size. destruct (pa =? 0); cbn; lia. }
  assert (Er : bp - psz <= r <= bp)
    by (subst r; unfold merged_start; destruct (pa =? 0); lia).
  pose proof Hsg as (G1 & G2 & _).
  assert (Eb : mem_brk s' = bp + size) by (rewrite G2; reflexivity).
  split; [lia|]. split; [exact Eb|]. split; [lia|]. split; [exact Z3|].
  split; [exact Tg|]. split; [lia|]. split; [|split; [exact Hfl'|split]].
  - rewrite Eb. rewrite (word_unchanged _ _ _ _ _ _ Hun).
    + subst sc. rewrite mem_set_mem. apply word_store_same. cbn. lia.
    + lia.
    + eapply Forall_impl; [|exact Hlin]. cbv beta. intros x Hx. lia.
  - eapply same_globals_trans; [|exact Hsg]. subst sc. repeat split.
  - intros a Ha Hl.
    rewrite (Hun a); [|lia|exact Hl].
    subst sc. rewrite ?mem_set_mem.
    repeat (rewrite le_store_out by (change (Z.of_nat 4) with 4; lia)). reflexivity.
Qed.

(** ** mm_free *)

Lemma mm_free_marks dm s bp sz psz pa nsz na l :
  heap_listp s <> 0 ->
  region_ok dm s -> free_list dm s l ->
  neighbours s bp sz 1 psz pa nsz na ->
  merged_size sz psz pa nsz na < 2 ^ 32 ->
  nodes_outside (absorbed bp sz psz pa na) l
    (merged_start bp psz pa - 4)
    (merged_start bp psz pa + merged_size sz psz pa nsz na - 4) ->
  exists s0, mm_free dm bp s = (coalesce dm bp ;;; ret tt) s0 /\
             same_globals s s0 /\ free_list dm s0 l /\
             neighbours s0 bp sz 0 psz pa nsz na /\
             unchanged_outside l (merged_start bp psz pa - 4)
               (merged_start bp psz pa + merged_size sz psz pa nsz na - 4)
               (mem s) (mem s0).
Proof.
  intros Hh Hreg Hfl Hnb Htot Hout.
  pose proof Hnb as ((S1 & S2) & (P1 & P2 & P3) & (N1 & N2 & N3) & (B1 & B2) &
          (Th & Tf) & (Ph & Pf) & Nh & Pfree & Nfree).
  pose proof Hreg as [R1 R2].
  set (r := merged_start bp psz pa) in *.
  set (total := merged_size sz psz pa nsz na) in *.
  assert (Hr : bp - psz <= r <= bp /\ bp + sz <= r + total /\ (pa = 1 -> r = bp)).
  { subst r total. unfold merged_start, merged_size.
    destruct (Z.eqb_spec pa 0); destruct (Z.eqb_spec na 0); lia. }
  unfold mm_free, HDRP, WSIZE.
  rewrite run_GET_SIZE by inh. rewrite Th, size_of_PACK by arith.
  replace (bp =? 0) with false by (symmetry; apply Z.eqb_neq; lia).
  rewrite run_gets, nonzero_true, run_ret by exact Hh.
  rewrite PACK_0.
  rewrite ?run_bind, run_PUT by inh.
  rewrite ?run_bind, run_FTRP by inh.
  rewrite mem_set_mem, word_store_same, size_of_mul8 by arith.
  rewrite ?run_bind, run_PUT by inh.
  set (s0 := set_mem _ _).
  exists s0. split; [reflexivity|].
  split; [subst s0; repeat split|].
  assert (Hl : forall x, In x l -> x + 16 <= bp - 8 \/ bp + sz <= x).
  { intros x Hx. unfold nodes_outside in Hout. rewrite Forall_forall in Hout.
    destruct (Hout x Hx) as [Hin|Hin]; [|lia].
    unfold absorbed in Hin. apply in_app_or in Hin. destruct Hin as [Hin|Hin].
    - destruct (Z.eqb_spec pa 0); [|destruct Hin]. destruct Hin as [<-|[]].
      specialize (Pfree e). lia.
    - destruct (na =? 0); [|destruct Hin]. destruct Hin as [<-|[]]. lia. }
  split; [|split].
  - subst s0.
    repeat (apply free_list_store;
            [apply Forall_forall; intros x Hx; specialize (Hl x Hx); cbn; lia|]).
    exact Hfl.
  - subst s0. unfold neighbours, tagged. rewrite !mem_set_mem.
    cbn [mem_start_brk mem_brk set_mem]. rewrite !PACK_0.
    split; [tauto|]. split; [tauto|]. split; [tauto|]. split; [tauto|].
    split; [split|].
    + rewrite word_store_other by lia. apply word_store_same. lia.
    + apply word_store_same. lia.
    + split; [split|].
      * repeat (rewrite word_store_other by lia). exact Ph.
      * repeat (rewrite word_store_other by lia). exact Pf.
      * split; [|split; [exact Pfree|]].
        -- repeat (rewrite word_store_other by lia). exact Nh.
        -- intros E. destruct (Nfree E) as (N4 & N5 & Nf).
           split; [exact N4|split; [exact N5|]].
           repeat (rewrite word_store_other by lia). rewrite Nf. apply PACK_0.
  - subst s0. rewrite !mem_set_mem.
    eapply unchanged_trans; apply unchanged_store; cbn; lia.
Qed.

Lemma mm_free_spec dm s bp sz psz pa nsz na l :
  heap_listp s <> 0 ->
  region_ok dm s -> free_list dm s l ->
  neighbours s bp sz 1 psz pa nsz na ->
  24 <= merged_size sz psz pa nsz na < 2 ^ 32 ->
  incl (absorbed bp sz psz pa na) l ->
  nodes_outside (absorbed bp sz psz pa na) l
    (merged_start bp psz pa - 4)
    (merged_start bp psz pa + merged_size sz psz pa nsz na - 4) ->
  exists s', mm_free dm bp s = Ok tt s' /\
             coalesce_post dm s bp sz psz pa nsz na l s'.
Proof.
  intros Hh Hreg Hfl Hnb Htot Hgone Hout.
  destruct (mm_free_marks dm s bp sz psz pa nsz na l Hh Hreg Hfl Hnb (proj2 Htot) Hout)
    as (s0 & Hrun0 & Hsg0 & Hfl0 & Hnb0 & Hun0).
  destruct (coalesce_spec dm s0 bp sz psz pa nsz na l
              (region_ok_same dm s s0 Hsg0 Hreg) Hfl0 Hnb0 Htot Hgone Hout)
    as (s' & Hrun & (Tg & Hfl' & Hsg & Hun)).
  rewrite Hrun0, (run_ok _ _ _ _ _ Hrun). exists s'. split; [reflexivity|].
  split; [exact Tg|]. split; [exact Hfl'|].
  split; [exact (same_globals_trans _ _ _ Hsg0 Hsg)|].
  eapply unchanged_trans; [exact Hun0|exact Hun].
Qed.

(** ** find_fit *)

Lemma find_fit_head dm s asize total :
  let r := free_listp s in
  r <> 0 -> mem_start_brk s <= r - 4 -> r <= mem_brk s ->
  word (mem s) (r - 4) = PACK total 0 ->
  total mod 8 = 0 -> 0 <= total -> asize <= total ->
  ~ (ff_size s = to_int asize /\ 40 < ff_count s) ->
  exists s', find_fit dm asize s = Ok r s' /\
    mem s' = mem s /\ free_listp s' = r /\
    mem_start_brk s' = mem_start_brk s /\ mem_brk s' = mem_brk s /\
    mem_max_addr s' = mem_max_addr s /\ heap_listp s' = heap_listp s /\
    ff_size s' = to_int asize.
Proof.
  intros r Hr B1 B2 Hw T1 T2 Ha Hby.
  assert (Hscan : forall s1, mem s1 = mem s -> free_listp s1 = r ->
            mem_start_brk s1 = mem_start_brk s -> mem_brk s1 = mem_brk s ->
            (fuel <- gets walk_fuel ;; find_fit_scan dm fuel asize r) s1 =
            Ok r (set_ff_size s1 (to_int asize))).
  { intros s1 E1 E2 E3 E4. rewrite run_gets. unfold walk_fuel.
    cbn [find_fit_scan]. rewrite (nonzero_true r Hr). unfold HDRP, WSIZE.
    rewrite run_GET_SIZE by (apply in_heap_intro; lia).
    rewrite E1, Hw, size_of_PACK by lia.
    replace (asize <=? total) with true by (symmetry; apply Z.leb_le; lia).
    reflexivity. }
  unfold find_fit. rewrite !run_gets. fold r.
  destruct (Z.eqb_spec (ff_size s) (to_int asize)) as [E|E].
  - replace (ff_count s >? 40) with false
      by (symmetry; rewrite Z.gtb_ltb; apply Z.ltb_ge; lia).
    rewrite run_modify, Hscan by reflexivity.
    eexists. split; [reflexivity|]. repeat split.
  - rewrite run_modify, Hscan by reflexivity.
    eexists. split; [reflexivity|]. repeat split.
Qed.

(** ** place *)

Lemma size_t_small dm x : 0 <= x < 2 ^ 32 -> to_size_t dm x = x.
Proof.
  intros H. unfold to_size_t. apply Z.mod_small.
  destruct dm; cbn [PSIZE]; change (2 ^ (8 * 8)) with (2 ^ 32 * 2 ^ 32);
    change (2 ^ (8 * 4)) with (2 ^ 32); lia.
Qed.

Lemma in_remove_iff (x y : Z) l : In y (remove Z.eq_dec x l) <-> In y l /\ y <> x.
Proof.
  split; [apply in_remove|]. intros [H1 H2]. apply in_in_remove; assumption.
Qed.

Lemma place_split_at dm s r total l asize :
  region_ok dm s -> free_list dm s l -> In r l -> tagged (mem s) r total 0 ->
  mem_start_brk s <= r - 4 -> r + total - 4 <= mem_brk s ->
  total < 2 ^ 32 -> total mod 8 = 0 ->
  16 <= asize -> asize mod 8 = 0 -> asize + 24 <= total ->
  Forall (fun x => x + 16 <= r - 8 \/ r + total <= x) (remove Z.eq_dec r l) ->
  exists s', place dm r asize s = Ok tt s' /\ same_globals s s' /\
    tagged (mem s') r asize 1 /\
    tagged (mem s') (r + asize) (total - asize) 0 /\
    free_list dm s' (r + asize :: remove Z.eq_dec r l) /\
    unchanged_outside (remove Z.eq_dec r l) (r - 4) (r + total - 4) (mem s) (mem s').
Proof.
  intros Hreg Hfl Hrl [Th Tf] B1 B2 T1 T2 A1 A2 A3 Hrest.
  pose proof Hreg as [R1 R2].
  set (rest := remove Z.eq_dec r l) in *.
  assert (Hsplit : forall y, In y l -> y = r \/ In y rest).
  { intros y Hy. destruct (Z.eq_dec y r) as [E|E]; [left; exact E|right].
    apply in_in_remove; assumption. }
  unfold place, HDRP, WSIZE, DSIZE.
  rewrite run_GET_SIZE by inh. rewrite Th, size_of_PACK by arith.
  destruct (edit_free_list_remove dm s l r Hreg Hfl Hrl)
    as (s1 & Hrun1 & Hfl1 & Hfr1 & Hsg1).
  fold rest in Hfl1.
  rewrite ?run_bind, (run_ok _ _ _ _ _ Hrun1).
  pose proof Hsg1 as (G1 & G2 & _).
  rewrite size_t_small by lia.
  replace (total - asize >=? 8 * 3) with true
    by (symmetry; rewrite Z.geb_leb; apply Z.leb_le; lia).
  set (rem := total - asize) in *.
  assert (Hrem : rem mod 8 = 0).
  { subst rem. rewrite Zminus_mod, T2, A2. reflexivity. }
  rewrite (PACK_add asize 1), (PACK_0 rem) by arith.
  rewrite ?run_bind, run_PUT by inh.
  rewrite ?run_bind, run_FTRP by inh.
  rewrite mem_set_mem, word_store_same by arith.
  rewrite <- (PACK_add asize 1), size_of_PACK by arith. rewrite PACK_add by arith.
  rewrite ?run_bind, run_PUT by inh.
  rewrite ?run_bind, run_NEXT_BLKP by inh.
  rewrite mem_set_mem, word_store_other by arith.
  rewrite mem_set_mem, word_store_same by arith.
  rewrite <- (PACK_add asize 1), size_of_PACK by arith. rewrite PACK_add by arith.
  rewrite ?run_bind, run_PUT by inh.
  rewrite ?run_bind, run_FTRP by inh.
  rewrite mem_set_mem, word_store_same, size_of_mul8 by arith.
  rewrite ?run_bind, run_PUT by (subst rem; inh).
  set (s5 := set_mem _ _).
  assert (Hsg5 : same_globals s s5).
  { eapply same_globals_trans; [exact Hsg1|]. subst s5. repeat split. }
  assert (Hfl5 : free_list dm s5 rest).
  { subst s5.
    repeat (apply free_list_store;
            [eapply Forall_impl; [|exact Hrest]; cbv beta; intros x Hx; cbn;
             subst rem; lia|]).
    exact Hfl1. }
  destruct (edit_free_list_insert dm s5 rest (r + asize)
              (region_ok_same dm s s5 Hsg5 Hreg) Hfl5)
    as (s' & Hrun & Hfl' & Hfr & Hsg);
    [subst s5; cbn; lia|subst s5 rem; cbn; lia| |].
  { eapply Forall_impl; [|exact Hrest]. cbv beta. intros x Hx. subst rem. lia. }
  exists s'. split; [exact Hrun|].
  split; [exact (same_globals_trans _ _ _ Hsg5 Hsg)|].
  assert (Hout1 : Forall (fun y => r - 4 + 4 <= y \/ y + 16 <= r - 4) (r + asize :: rest)).
  { constructor; [lia|]. eapply Forall_impl; [|exact Hrest]. cbv beta. intros x Hx. lia. }
  assert (Hout2 : Forall (fun y => r + asize - 8 + 4 <= y \/ y + 16 <= r + asize - 8)
                         (r + asize :: rest)).
  { constructor; [lia|]. eapply Forall_impl; [|exact Hrest]. cbv beta. intros x Hx. lia. }
  assert (Hout3 : Forall (fun y => r + asize - 4 + 4 <= y \/ y + 16 <= r + asize - 4)
                         (r + asize :: rest)).
  { constructor; [lia|]. eapply Forall_impl; [|exact Hrest]. cbv beta. intros x Hx. lia. }
  assert (Hout4 : Forall (fun y => r + asize + rem - 8 + 4 <= y \/
                                   y + 16 <= r + asize + rem - 8)
                         (r + asize :: rest)).
  { constructor; [lia|]. eapply Forall_impl; [|exact Hrest]. cbv beta.
    intros x Hx. subst rem. lia. }
  split; [|split; [|split; [exact Hfl'|]]].
  - unfold tagged. rewrite (word_frame _ _ _ _ Hfr Hout1), (word_frame _ _ _ _ Hfr Hout2).
    subst s5. rewrite ?mem_set_mem. rewrite PACK_add by arith. split.
    + repeat (rewrite word_store_other by (subst rem; lia)).
      apply word_store_same. lia.
    + repeat (rewrite word_store_other by (subst rem; lia)).
      apply word_store_same. lia.
  - unfold tagged.
    rewrite (word_frame _ _ _ _ Hfr Hout3), (word_frame _ _ _ _ Hfr Hout4).
    subst s5. rewrite ?mem_set_mem. rewrite PACK_0. split.
    + repeat (rewrite word_store_other by (subst rem; lia)).
      apply word_store_same. lia.
    + apply word_store_same. lia.
  - eapply unchanged_trans; [|eapply unchanged_frame; [exact Hfr|]].
    + subst s5. rewrite ?mem_set_mem.
      repeat (eapply unchanged_trans; [|apply unchanged_store; subst rem; cbn; lia]).
      eapply unchanged_frame; [exact Hfr1|].
      apply Forall_forall. intros y Hy. destruct (Hsplit y Hy) as [->|Hy'].
      * right. lia.
      * left. exact Hy'.
    + constructor; [right; subst rem; lia|].
      apply Forall_forall. intros y Hy. left. exact Hy.
Qed.

Lemma place_whole_any dm s r total l asize :
  region_ok dm s -> free_list dm s l -> In r l ->
  word (mem s) (r - 4) = PACK total 0 ->
  mem_start_brk s <= r - 4 -> r + total - 4 <= mem_brk s ->
  16 <= total < 2 ^ 32 -> total mod 8 = 0 ->
  asize <= total < asize + 24 ->
  Forall (fun x => x + 16 <= r - 8 \/ r + total <= x) (remove Z.eq_dec r l) ->
  exists s', place dm r asize s = Ok tt s' /\ same_globals s s' /\
    tagged (mem s') r total 1 /\
    free_list dm s' (remove Z.eq_dec r l) /\
    (24 <= total ->
     unchanged_outside (remove Z.eq_dec r l) (r - 4) (r + total - 4) (mem s) (mem s')).
Proof.
  intros Hreg Hfl Hrl Th B1 B2 T1 T2 A1 Hrest.
  assert (T3 : total + 8 <= 2 ^ 32) by (apply mul8_below; [exact T2|lia]).
  pose proof Hreg as [R1 R2].
  set (rest := remove Z.eq_dec r l) in *.
  assert (Hsplit : forall y, In y l -> y = r \/ In y rest).
  { intros y Hy. destruct (Z.eq_dec y r) as [E|E]; [left; exact E|right].
    apply in_in_remove; assumption. }
  unfold place, HDRP, WSIZE, DSIZE.
  rewrite run_GET_SIZE by inh. rewrite Th, size_of_PACK by arith.
  destruct (edit_free_list_remove dm s l r Hreg Hfl Hrl)
    as (s1 & Hrun1 & Hfl1 & Hfr1 & Hsg1).
  fold rest in Hfl1.
  rewrite ?run_bind, (run_ok _ _ _ _ _ Hrun1).
  pose proof Hsg1 as (G1 & G2 & _).
  rewrite size_t_small by lia.
  replace (total - asize >=? 8 * 3) with false
    by (symmetry; rewrite Z.geb_leb; apply Z.leb_gt; lia).
  rewrite (PACK_add total 1) by arith.
  rewrite ?run_bind, run_PUT by inh.
  rewrite ?run_bind, run_FTRP by inh.
  rewrite mem_set_mem, word_store_same by arith.
  rewrite <- (PACK_add total 1), size_of_PACK by arith. rewrite PACK_add by arith.
  rewrite do_PUT by inh.
  eexists. split; [reflexivity|].
  split; [eapply same_globals_trans; [exact Hsg1|repeat split]|].
  rewrite ?mem_set_mem.
  split; [|split].
  - unfold tagged. rewrite PACK_add by arith. split.
    + rewrite word_store_other by lia. apply word_store_same. lia.
    + apply word_store_same. lia.
  - repeat (apply free_list_store;
            [eapply Forall_impl; [|exact Hrest]; cbv beta; intros x Hx; cbn; lia|]).
    exact Hfl1.
  - intros T0.
    repeat (eapply unchanged_trans; [|apply unchanged_store; cbn; lia]).
    eapply unchanged_frame; [exact Hfr1|].
    apply Forall_forall. intros y Hy. destruct (Hsplit y Hy) as [->|Hy'].
    + right. lia.
    + left. exact Hy'.
Qed.

Lemma place_whole_at dm s r total l asize :
  region_ok dm s -> free_list dm s l -> In r l -> tagged (mem s) r total 0 ->
  mem_start_brk s <= r - 4 -> r + total - 4 <= mem_brk s ->
  24 <= total < 2 ^ 32 -> total mod 8 = 0 ->
  asize <= total < asize + 24 ->
  Forall (fun x => x + 16 <= r - 8 \/ r + total <= x) (remove Z.eq_dec r l) ->
  exists s', place dm r asize s = Ok tt s' /\ same_globals s s' /\
    tagged (mem s') r total 1 /\
    free_list dm s' (remove Z.eq_dec r l) /\
    unchanged_outside (remove Z.eq_dec r l) (r - 4) (r + total - 4) (mem s) (mem s').
Proof.
  intros Hreg Hfl Hrl [Th _] B1 B2 T1 T2 A1 Hrest.
  destruct (place_whole_any dm s r total l asize Hreg Hfl Hrl Th B1 B2 ltac:(lia) T2 A1 Hrest)
    as (s' & H1 & H2 & H3 & H4 & H5).
  exists s'. split; [exact H1|]. split; [exact H2|]. split; [exact H3|].
  split; [exact H4|apply H5; lia].
Qed.

Lemma remove_head (r : Z) rest :
  Forall (fun y => 16 <= Z.abs (r - y)) rest -> remove Z.eq_dec r (r :: rest) = rest.
Proof.
  intros H. rewrite remove_cons. apply notin_remove. intros Hin.
  rewrite Forall_forall in H. specialize (H r Hin). lia.
Qed.

Lemma place_split dm s r total rest asize :
  region_ok dm s -> free_list dm s (r :: rest) -> tagged (mem s) r total 0 ->
  mem_start_brk s <= r - 4 -> r + total - 4 <= mem_brk s ->
  total < 2 ^ 32 -> total mod 8 = 0 ->
  16 <= asize -> asize mod 8 = 0 -> asize + 24 <= total ->
  Forall (fun x => x + 16 <= r - 8 \/ r + total <= x) rest ->
  exists s', place dm r asize s = Ok tt s' /\ same_globals s s' /\
    tagged (mem s') r asize 1 /\
    tagged (mem s') (r + asize) (total - asize) 0 /\
    free_list dm s' (r + asize :: rest) /\
    unchanged_outside rest (r - 4) (r + total - 4) (mem s) (mem s').
Proof.
  intros Hreg Hfl Htag B1 B2 T1 T2 A1 A2 A3 Hrest.
  pose proof Hfl as (_ & _ & _ & [Hfar _]).
  pose proof (place_split_at dm s r total (r :: rest) asize Hreg Hfl (or_introl eq_refl)
                Htag B1 B2 T1 T2 A1 A2 A3) as H.
  rewrite (remove_head r rest Hfar) in H. apply H. exact Hrest.
Qed.

Lemma place_head dm s r total rest asize :
  region_ok dm s -> free_list dm s (r :: rest) -> tagged (mem s) r total 0 ->
  mem_start_brk s <= r - 4 -> r + total - 4 <= mem_brk s ->
  24 <= total < 2 ^ 32 -> total mod 8 = 0 ->
  16 <= asize <= total -> asize mod 8 = 0 ->
  Forall (fun x => x + 16 <= r - 8 \/ r + total <= x) rest ->
  exists s' bsz, place dm r asize s = Ok tt s' /\ same_globals s s' /\
    asize <= bsz /\ tagged (mem s') r bsz 1.
Proof.
  intros Hreg Hfl Htag B1 B2 T1 T2 A1 A2 Hrest.
  destruct (Z.le_gt_cases (asize + 24) total) as [Hsplit|Hsplit].
  - destruct (place_split dm s r total rest asize) as (s' & H1 & H2 & H3 & _);
      try assumption; try lia.
    exists s', asize. split; [exact H1|]. split; [exact H2|]. split; [lia|exact H3].
  - pose proof Hfl as (_ & _ & _ & [Hfar _]).
    pose proof (place_whole_at dm s r total (r :: rest) asize Hreg Hfl (or_introl eq_refl)
                  Htag B1 B2 T1 T2 ltac:(lia)) as H.
    rewrite (remove_head r rest Hfar) in H.
    destruct (H Hrest) as (s' & H1 & H2 & H3 & _).
    exists s', total. split; [exact H1|]. split; [exact H2|]. split; [lia|exact H3].
Qed.

(** ** mm_malloc after mm_free *)

Lemma adjust_size_small dm n :
  0 < n -> n + 15 < 2 ^ 32 ->
  adjust_size dm n = (if n <=? 8 then 16 else 8 * ((n + 15) / 8)).
Proof.
  intros H0 H1. unfold adjust_size, DSIZE, OVERHEAD.
  destruct (Z.leb_spec n 8); [reflexivity|].
  replace (n + 8 + (8 - 1)) with (n + 15) by lia.
  pose proof (Z.mul_div_le (n + 15) 8 ltac:(lia)).
  pose proof (Z.div_pos (n + 15) 8 ltac:(lia) ltac:(lia)).
  rewrite (size_t_small dm (n + 15)) by lia.
  rewrite size_t_small by lia.
  unfold u32. apply Z.mod_small. lia.
Qed.

Lemma adjust_size_bounds dm n :
  0 < n -> n + 15 < 2 ^ 32 ->
  16 <= adjust_size dm n /\ adjust_size dm n mod 8 = 0 /\ n + 8 <= adjust_size dm n.
Proof.
  intros H0 H1. rewrite adjust_size_small by assumption.
  destruct (Z.leb_spec n 8); [repeat split; lia|].
  pose proof (Z.div_mod (n + 15) 8 ltac:(lia)).
  pose proof (Z.mod_pos_bound (n + 15) 8 ltac:(lia)).
  repeat split; [lia| |lia].
  rewrite Z.mul_comm. apply Z.mod_mul. lia.
Qed.

Lemma adjust_size_mono dm m n :
  0 < m <= n -> n + 15 < 2 ^ 32 -> adjust_size dm m <= adjust_size dm n.
Proof.
  intros H0 H1. rewrite !adjust_size_small by lia.
  destruct (Z.leb_spec m 8); destruct (Z.leb_spec n 8); try lia.
  - pose proof (Z.div_le_mono 24 (n + 15) 8 ltac:(lia) ltac:(lia)) as Hd.
    change (24 / 8) with 3 in Hd. lia.
  - pose proof (Z.div_le_mono (m + 15) (n + 15) 8 ltac:(lia) ltac:(lia)). lia.
Qed.

Lemma in_without x xs : forall l, In x (without xs l) -> In x l /\ ~ In x xs.
Proof.
  induction xs as [|q xs IH]; intros l H; cbn [without fold_right] in *; [tauto|].
  apply in_remove in H. destruct H as [H Hq].
  apply IH in H. cbn [In]. intuition congruence.
Qed.

Lemma merged_size_mod8 sz psz pa nsz na :
  sz mod 8 = 0 -> psz mod 8 = 0 -> nsz mod 8 = 0 ->
  merged_size sz psz pa nsz na mod 8 = 0.
Proof.
  intros H1 H2 H3. unfold merged_size.
  destruct (pa =? 0); destruct (na =? 0); repeat apply mul8_add; auto.
Qed.

Lemma release_then_allocate_room dm s X sz psz pa nsz na l n m :
  heap_listp s <> 0 ->
  region_ok dm s -> free_list dm s l ->
  neighbours s X sz 1 psz pa nsz na ->
  24 <= merged_size sz psz pa nsz na < 2 ^ 32 ->
  incl (absorbed X sz psz pa na) l ->
  nodes_outside (absorbed X sz psz pa na) l
    (merged_start X psz pa - 4)
    (merged_start X psz pa + merged_size sz psz pa nsz na - 4) ->
  adjust_size dm n <= sz -> 0 < m <= n -> n + 15 < 2 ^ 32 ->
  ~ (ff_size s = to_int (adjust_size dm m) /\ 40 < ff_count s) ->
  exists s1 s2,
    mm_free dm X s = Ok tt s1 /\
    mm_malloc dm m s1 = Ok (merged_start X psz pa) s2 /\
    merged_start X psz pa <> 0 /\
    merged_start X psz pa <= X < merged_start X psz pa + merged_size sz psz pa nsz na /\
    mem_brk s1 = mem_brk s /\ mem_brk s2 = mem_brk s.
Proof.
  intros Hh Hreg Hfl Hnb Htot Hgone Hout Hn Hm Hn32 Hby.
  destruct (mm_free_spec dm s X sz psz pa nsz na l Hh Hreg Hfl Hnb Htot Hgone Hout)
    as (s1 & Hfree & (Tg & Hfl1 & Hsg1 & _)).
  pose proof Hnb as ((S1 & S2) & (P1 & P2 & P3) & (N1 & N2 & N3) & (B1 & B2) &
          _ & _ & _ & Pfree & Nfree).
  pose proof Hreg as [R1 R2].
  pose proof (merged_size_mod8 sz psz pa nsz na S2 P2 N2) as HT8.
  set (r := merged_start X psz pa) in *.
  set (total := merged_size sz psz pa nsz na) in *.
  assert (Hr : X - psz <= r <= X /\ sz <= total /\ X + sz <= r + total /\
               r + total <= mem_brk s).
  { subst r total. unfold merged_start, merged_size.
    destruct (Z.eqb_spec pa 0); destruct (Z.eqb_spec na 0); try lia;
      destruct (Nfree e) as (? & ? & _) || destruct (Nfree e0) as (? & ? & _); lia. }
  destruct (adjust_size_bounds dm m ltac:(lia) ltac:(lia)) as (A1 & A2 & _).
  pose proof (adjust_size_mono dm m n Hm Hn32) as A3.
  set (asize := adjust_size dm m) in *.
  pose proof Hsg1 as (G1 & G2 & G3 & G4 & G5 & G6).
  pose proof Hfl1 as (Hhd & _). cbn [hd] in Hhd.
  destruct Tg as [Tgh Tgf].
  pose proof (find_fit_head dm s1 asize total) as HF. cbv zeta in HF.
  rewrite Hhd, G1, G2, G5, G6 in HF.
  destruct (HF ltac:(lia) ltac:(lia) ltac:(lia) Tgh HT8 ltac:(lia) ltac:(lia) Hby)
    as (sF & Hff & F1 & F2 & F3 & F4 & F5 & F6 & F7).
  clear HF.
  assert (HregF : region_ok dm sF).
  { unfold region_ok. rewrite F3, F4. exact Hreg. }
  assert (HflF : free_list dm sF (r :: without (absorbed X sz psz pa na) l)).
  { destruct Hfl1 as (H1 & H2 & H3 & H4). unfold free_list.
    rewrite F1, F2, F3, F4, <- G1, <- G2.
    split; [reflexivity|]. split; [exact H2|]. split; [exact H3|exact H4]. }
  destruct (place_head dm sF r total (without (absorbed X sz psz pa na) l) asize HregF HflF)
    as (s2 & bsz & Hpl & Hsg2 & _); try lia; try assumption.
  { rewrite F1. split; assumption. }
  { apply Forall_forall. intros x Hx. apply in_without in Hx. destruct Hx as [Hx Hnx].
    unfold nodes_outside in Hout. rewrite Forall_forall in Hout.
    destruct (Hout x Hx) as [H|H]; [contradiction|lia]. }
  exists s1, s2. split; [exact Hfree|].
  split; [|split; [lia|split; [lia|split; [exact G2|]]]].
  - unfold mm_malloc. rewrite run_gets, G4, nonzero_true, run_ret by exact Hh.
    replace (m <=? 0) with false by (symmetry; apply Z.leb_gt; lia).
    fold asize. rewrite (run_ok _ _ _ _ _ Hff).
    rewrite nonzero_true by lia.
    rewrite (run_ok _ _ _ _ _ Hpl). reflexivity.
  - destruct Hsg2 as (_ & E & _). rewrite E, F4. reflexivity.
Qed.

(** a block of 16 bytes between allocated blocks: freed, it has no room for
    its footer beside the two links, but its header still gives its size *)
Lemma release_then_allocate_small dm s X psz nsz l m :
  heap_listp s <> 0 ->
  region_ok dm s -> free_list dm s l ->
  neighbours s X 16 1 psz 1 nsz 1 ->
  nodes_outside (absorbed X 16 psz 1 1) l
    (merged_start X psz 1 - 4)
    (merged_start X psz 1 + merged_size 16 psz 1 nsz 1 - 4) ->
  0 < m <= 8 ->
  ~ (ff_size s = to_int (adjust_size dm m) /\ 40 < ff_count s) ->
  exists s1 s2,
    mm_free dm X s = Ok tt s1 /\ mm_malloc dm m s1 = Ok X s2 /\ X <> 0 /\
    mem_brk s1 = mem_brk s /\ mem_brk s2 = mem_brk s.
Proof.
  intros Hh Hreg Hfl Hnb Hout Hm Hby.
  assert (Htot : merged_size 16 psz 1 nsz 1 < 2 ^ 32).
  { unfold merged_size. change (1 =? 0) with false. cbv iota. lia. }
  destruct (mm_free_marks dm s X 16 psz 1 nsz 1 l Hh Hreg Hfl Hnb Htot Hout)
    as (s0 & Hrun0 & Hsg0 & Hfl0 & Hnb0 & _).
  pose proof Hnb0 as (_ & (P1 & _) & _ & (B1 & B2) & (Th & _) & _).
  pose proof Hreg as [R1 R2].
  pose proof Hsg0 as (G1 & G2 & G3 & G4 & G5 & G6).
  pose proof (region_ok_same dm s s0 Hsg0 Hreg) as Hreg0.
  unfold nodes_outside, absorbed, merged_start, merged_size in Hout.
  change (1 =? 0) with false in Hout. cbv iota in Hout. cbn [app] in Hout.
  assert (Hl : Forall (fun y => y + 16 <= X - 8 \/ X + 16 <= y) l).
  { eapply Forall_impl; [|exact Hout]. cbv beta. intros y [[]|Hy]. lia. }
  assert (Hfar : Forall (fun y => 16 <= Z.abs (X - y)) l).
  { eapply Forall_impl; [|exact Hl]. cbv beta. intros y Hy. lia. }
  destruct (edit_free_list_insert dm s0 l X Hreg0 Hfl0 ltac:(lia) ltac:(lia) Hfar)
    as (s1 & Hrun1 & Hfl1 & Hfr1 & Hsg1).
  assert (Hcoal : coalesce dm X s0 = Ok X s1).
  { unfold coalesce. rewrite (coalesce_reads _ _ _ _ _ _ _ _ Hnb0).
    change (nonzero 1) with true. cbn [andb negb]. rewrite run_ret.
    rewrite (run_ok _ _ _ _ _ Hrun1). reflexivity. }
  assert (Hhdr : word (mem s1) (X - 4) = PACK 16 0).
  { rewrite (word_frame _ _ _ _ Hfr1); [exact Th|].
    constructor; [lia|]. eapply Forall_impl; [|exact Hl]. cbv beta. intros y Hy. lia. }
  pose proof Hsg1 as (E1 & E2 & E3 & E4 & E5 & E6).
  rewrite (adjust_size_small dm m) in * by lia.
  replace (m <=? 8) with true in * by (symmetry; apply Z.leb_le; lia).
  pose proof Hfl1 as (Hhd & _). cbn [hd] in Hhd.
  pose proof (find_fit_head dm s1 16 16) as HF. cbv zeta in HF.
  rewrite Hhd, E1, E2, E5, E6, G5, G6 in HF.
  destruct (HF ltac:(lia) ltac:(lia) ltac:(lia) Hhdr ltac:(reflexivity) ltac:(lia)
              ltac:(lia) Hby)
    as (sF & Hff & F1 & F2 & F3 & F4 & F5 & F6 & F7).
  clear HF.
  assert (HregF : region_ok dm sF).
  { unfold region_ok. rewrite F3, F4. exact Hreg0. }
  assert (HflF : free_list dm sF (X :: l)).
  { destruct Hfl1 as (H1 & H2 & H3 & H4). unfold free_list.
    rewrite F1, F2, F3, F4, <- E1, <- E2.
    split; [reflexivity|]. split; [exact H2|]. split; [exact H3|exact H4]. }
  destruct (place_whole_any dm sF X 16 (X :: l) 16 HregF HflF (or_introl eq_refl))
    as (s2 & Hpl & Hsg2 & _); try lia.
  { rewrite F1. exact Hhdr. }
  { reflexivity. }
  { rewrite (remove_head X l Hfar). eapply Forall_impl; [|exact Hl].
    cbv beta. intros y Hy. lia. }
  exists s1, s2.
  split; [rewrite Hrun0, (run_ok _ _ _ _ _ Hcoal); reflexivity|].
  split; [|split; [lia|split; [lia|]]].
  - unfold mm_malloc. rewrite run_gets, E4, G4, nonzero_true, run_ret by exact Hh.
    replace (m <=? 0) with false by (symmetry; apply Z.leb_gt; lia).
    rewrite (adjust_size_small dm m) by lia.
    replace (m <=? 8) with true by (symmetry; apply Z.leb_le; lia).
    rewrite (run_ok _ _ _ _ _ Hff).
    rewrite nonzero_true by lia.
    rewrite (run_ok _ _ _ _ _ Hpl). reflexivity.
  - destruct Hsg2 as (_ & E & _). lia.
Qed.

Lemma release_then_allocate dm s X sz psz pa nsz na l n m :
  heap_listp s <> 0 ->
  region_ok dm s -> free_list dm s l ->
  neighbours s X sz 1 psz pa nsz na ->
  merged_size sz psz pa nsz na < 2 ^ 32 ->
  incl (absorbed X sz psz pa na) l ->
  nodes_outside (absorbed X sz psz pa na) l
    (merged_start X psz pa - 4)
    (merged_start X psz pa + merged_size sz psz pa nsz na - 4) ->
  adjust_size dm n <= sz -> 0 < m <= n -> n + 15 < 2 ^ 32 ->
  ~ (ff_size s = to_int (adjust_size dm m) /\ 40 < ff_count s) ->
  exists s1 s2,
    mm_free dm X s = Ok tt s1 /\
    mm_malloc dm m s1 = Ok (merged_start X psz pa) s2 /\
    merged_start X psz pa <> 0 /\
    merged_start X psz pa <= X < merged_start X psz pa + merged_size sz psz pa nsz na /\
    mem_brk s1 = mem_brk s /\ mem_brk s2 = mem_brk s.
Proof.
  intros Hh Hreg Hfl Hnb Htot Hgone Hout Hn Hm Hn32 Hby.
  destruct (Z_le_gt_dec 24 (merged_size sz psz pa nsz na)) as [Hroom|Hsmall].
  - apply (release_then_allocate_room dm s X sz psz pa nsz na l n m); try assumption.
    split; assumption.
  - pose proof Hnb as ((S1 & S2) & (_ & _ & P3) & (_ & _ & N3) & _ & _ & _ & _ &
                       Pfree & Nfree).
    assert (Epa : pa = 1).
    { destruct (Z.eq_dec pa 0) as [E|E]; [|lia]. specialize (Pfree E).
      unfold merged_size in Hsmall. rewrite E in Hsmall. change (0 =? 0) with true in Hsmall.
      cbv iota in Hsmall. destruct (na =? 0) eqn:En; [|lia].
      apply Z.eqb_eq in En. destruct (Nfree En) as (? & _). lia. }
    assert (Ena : na = 1).
    { destruct (Z.eq_dec na 0) as [E|E]; [|lia]. destruct (Nfree E) as (N4 & _).
      unfold merged_size in Hsmall. rewrite E, Epa in Hsmall.
      change (0 =? 0) with true in Hsmall. change (1 =? 0) with false in Hsmall.
      cbv iota in Hsmall. lia. }
    subst pa na.
    assert (Esz : sz = 16).
    { unfold merged_size in Hsmall. change (1 =? 0) with false in Hsmall.
      cbv iota in Hsmall. pose proof (Z.div_mod sz 8 ltac:(lia)). lia. }
    subst sz.
    destruct (adjust_size_bounds dm n ltac:(lia) Hn32) as (_ & _ & Bn).
    destruct (release_then_allocate_small dm s X psz nsz l m Hh Hreg Hfl Hnb Hout
                ltac:(lia) Hby) as (s1 & s2 & H1 & H2 & H3 & H4 & H5).
    exists s1, s2. unfold merged_start, merged_size. change (1 =? 0) with false.
    cbv iota. split; [exact H1|]. split; [exact H2|]. split; [exact H3|].
    split; [lia|]. split; [exact H4|exact H5].
Qed.

(** ** What no routine does to the region *)

Section Keeps.

Variable P : state -> state -> Prop.
Hypothesis P_refl : forall s, P s s.
Hypothesis P_trans : forall s1 s2 s3, P s1 s2 -> P s2 s3 -> P s1 s3.
Hypothesis P_mem : forall s m, P s (set_mem s m).

Lemma keeps_ret {A} (a : A) : keeps P (ret a).
Proof. intros s a' s' H. inversion H; subst. apply P_refl. Qed.

Lemma keeps_gets {A} (f : state -> A) : keeps P (gets f).
Proof. intros s a' s' H. inversion H; subst. apply P_refl. Qed.

Lemma keeps_exit {A} msg : keeps P (exit_with (A:=A) msg).
Proof. intros s a s' H. discriminate H. Qed.

Lemma keeps_bind {A B} (m : M A) (k : A -> M B) :
  keeps P m -> (forall a, keeps P (k a)) -> keeps P (bind m k).
Proof.
  intros Hm Hk s b s' H. unfold bind in H.
  destruct (m s) as [a s1| | |] eqn:E; try discriminate H.
  eapply P_trans; [eapply Hm; exact E|eapply Hk; exact H].
Qed.

Lemma keeps_modify (f : state -> state) : (forall s, P s (f s)) -> keeps P (modify f).
Proof. intros Hf s a s' H. inversion H; subst. apply Hf. Qed.

Lemma keeps_load n p : keeps P (load n p).
Proof.
  intros s a s' H. unfold load in H.
  destruct (in_heap s p (Z.of_nat n)); inversion H; subst. apply P_refl.
Qed.

Lemma keeps_store n p v : keeps P (store n p v).
Proof.
  intros s a s' H. unfold store in H.
  destruct (in_heap s p (Z.of_nat n)); inversion H; subst. apply P_mem.
Qed.

Lemma keeps_memcpy dst src n : keeps P (memcpy dst src n).
Proof.
  intros s a s' H. unfold memcpy in H.
  destruct (in_heap s src n && in_heap s dst n); inversion H; subst. apply P_mem.
Qed.

End Keeps.

Ltac keeps_step :=
  first [ apply keeps_ret; assumption
        | apply keeps_gets; assumption
        | apply keeps_exit
        | apply keeps_load; assumption
        | apply keeps_store; assumption
        | apply keeps_memcpy; assumption
        | apply keeps_bind; try assumption; [|intros]
        | progress cbv zeta
        | match goal with
          | |- keeps _ (if ?b then _ else _) => destruct b
          | |- keeps _ (let '(_, _) := ?p in _) => destruct p
          end ].

Ltac keeps_macros :=
  unfold GET_SIZE, GET_ALLOC, FTRP, NEXT_BLKP, PREV_BLKP, GET_NEXT, GET_PREV,
         SET_NEXT, SET_PREV, GET, PUT, mem_heap_lo, mem_heap_hi.

Lemma same_region_refl s : same_region s s.
Proof. repeat split. Qed.

Lemma same_region_trans s1 s2 s3 :
  same_region s1 s2 -> same_region s2 s3 -> same_region s1 s3.
Proof. unfold same_region. intuition congruence. Qed.

Lemma grown_refl s : grown s s.
Proof. repeat split. lia. Qed.

Lemma grown_trans s1 s2 s3 : grown s1 s2 -> grown s2 s3 -> grown s1 s3.
Proof. unfold grown. intros (A1 & A2 & A3) (B1 & B2 & B3). repeat split; try congruence. lia. Qed.

Lemma same_region_grown s s' : same_region s s' -> grown s s'.
Proof. intros (A1 & A2 & A3). repeat split; try assumption. lia. Qed.

Section KeepsRegion.

Variable P : state -> state -> Prop.
Hypothesis P_refl : forall s, P s s.
Hypothesis P_trans : forall s1 s2 s3, P s1 s2 -> P s2 s3 -> P s1 s3.
Hypothesis P_same : forall s s', same_region s s' -> P s s'.

Lemma P_set_mem s m : P s (set_mem s m).
Proof. apply P_same. repeat split. Qed.

Lemma keeps_edit_free_list dm bp i : keeps P (edit_free_list dm bp i).
Proof.
  pose proof P_set_mem as P_mem.
  unfold edit_free_list. keeps_macros.
  repeat first [ keeps_step | apply keeps_modify; intros; apply P_same; repeat split ].
Qed.

Lemma keeps_coalesce dm bp : keeps P (coalesce dm bp).
Proof.
  pose proof P_set_mem as P_mem.
  unfold coalesce. keeps_macros.
  repeat first [ apply keeps_edit_free_list | keeps_step ].
Qed.

Lemma keeps_place dm bp asize : keeps P (place dm bp asize).
Proof.
  pose proof P_set_mem as P_mem.
  unfold place. keeps_macros.
  repeat first [ apply keeps_edit_free_list | keeps_step ].
Qed.

End KeepsRegion.

Lemma keeps_mem_sbrk dm incr : keeps grown (mem_sbrk dm incr).
Proof.
  intros s a s' H. unfold mem_sbrk in H.
  destruct (Z.ltb_spec incr 0); cbn [orb] in H.
  - inversion H; subst. apply grown_refl.
  - destruct (mem_max_addr s <? mem_brk s + incr); inversion H; subst.
    + apply grown_refl.
    + repeat split. cbn. lia.
Qed.

Ltac grown_step :=
  first [ apply keeps_mem_sbrk
        | apply (keeps_coalesce grown grown_refl grown_trans same_region_grown)
        | apply (keeps_place grown grown_refl grown_trans same_region_grown)
        | apply (keeps_edit_free_list grown grown_refl grown_trans same_region_grown)
        | apply keeps_modify; intros; repeat split; cbn; lia
        | keeps_step ].

Lemma grown_set_mem s m : grown s (set_mem s m).
Proof. repeat split. cbn. lia. Qed.

Lemma keeps_extend_heap dm words : keeps grown (extend_heap dm words).
Proof.
  pose proof grown_refl as P_refl. pose proof grown_trans as P_trans.
  pose proof grown_set_mem as P_mem.
  unfold extend_heap. keeps_macros. repeat grown_step.
Qed.

Lemma keeps_mm_init dm : keeps grown (mm_init dm).
Proof.
  pose proof grown_refl as P_refl. pose proof grown_trans as P_trans.
  pose proof grown_set_mem as P_mem.
  unfold mm_init. keeps_macros.
  repeat first [ apply keeps_extend_heap | grown_step ].
Qed.

Lemma keeps_find_fit_scan dm fuel : forall asize fp,
  keeps grown (find_fit_scan dm fuel asize fp).
Proof.
  pose proof grown_refl as P_refl. pose proof grown_trans as P_trans.
  pose proof grown_set_mem as P_mem.
  induction fuel as [|k IH]; intros asize fp; cbn [find_fit_scan].
  - intros s a s' H. discriminate H.
  - keeps_macros. repeat first [ apply IH | grown_step ].
Qed.

Lemma keeps_find_fit dm asize : keeps grown (find_fit dm asize).
Proof.
  pose proof grown_refl as P_refl. pose proof grown_trans as P_trans.
  pose proof grown_set_mem as P_mem.
  unfold find_fit. keeps_macros.
  repeat first [ apply keeps_extend_heap | apply keeps_find_fit_scan | grown_step ].
Qed.

Lemma keeps_mm_malloc dm size : keeps grown (mm_malloc dm size).
Proof.
  pose proof grown_refl as P_refl. pose proof grown_trans as P_trans.
  pose proof grown_set_mem as P_mem.
  unfold mm_malloc. keeps_macros.
  repeat first [ apply keeps_extend_heap | apply keeps_find_fit | apply keeps_mm_init
               | grown_step ].
Qed.

Lemma extend_heap_amount dm words s r s' :
  extend_heap dm words s = Ok r s' ->
  mem_brk s' = mem_brk s \/ mem_brk s' = mem_brk s + extend_size dm words.
Proof.
  intros H. unfold extend_heap in H.
  destruct (extend_size_aligned dm words) as [[Z1 Z2] _].
  set (size := extend_size dm words) in *.
  unfold bind at 1 in H. unfold mem_sbrk in H.
  destruct (Z.ltb_spec (to_int size) 0) as [Hn|Hn]; cbn [orb] in H.
  - rewrite Z.eqb_refl in H. inversion H; subst. left. reflexivity.
  - destruct (mem_max_addr s <? mem_brk s + to_int size).
    + rewrite Z.eqb_refl in H. inversion H; subst. left. reflexivity.
    + assert (E : to_int size = size).
      { unfold to_int in *. rewrite Z.mod_small in * by lia.
        destruct (size <? 2 ^ 31); lia. }
      rewrite E in H. right.
      destruct (mem_brk s =? 2 ^ (8 * PSIZE dm) - 1).
      * inversion H; subst. reflexivity.
      * assert (K : keeps same_region
                      (PUT (HDRP (mem_brk s)) (PACK size 0) ;;;
                       f <- FTRP (mem_brk s) ;;
                       PUT f (PACK size 0) ;;;
                       nb <- NEXT_BLKP (mem_brk s) ;;
                       PUT (HDRP nb) (PACK 0 1) ;;;
                       coalesce dm (mem_brk s))).
        { pose proof same_region_refl as P_refl.
          pose proof same_region_trans as P_trans.
          assert (P_mem : forall s m, same_region s (set_mem s m)) by (repeat split).
          keeps_macros.
          repeat first
            [ apply (keeps_coalesce same_region same_region_refl same_region_trans
                       (fun s s' H => H))
            | keeps_step ]. }
        destruct (K _ _ _ H) as (_ & K2 & _). rewrite K2. reflexivity.
Qed.

Lemma realloc_null_never_returns dm s n r s' :
  0 <= mem_start_brk s -> mm_realloc dm 0 n s <> Ok r s'.
Proof.
  intros Hlo H. unfold mm_realloc in H. unfold bind at 1 in H.
  destruct (mm_malloc dm n s) as [newp s1| | |] eqn:E; try discriminate H.
  destruct (newp =? 0); [discriminate H|].
  destruct (keeps_mm_malloc dm n s newp s1 E) as (G1 & _).
  unfold bind at 1 in H. unfold GET, load, in_heap, HDRP, WSIZE in H.
  replace (mem_start_brk s1 <=? 0 - 4) with false in H
    by (symmetry; apply Z.leb_gt; lia).
  discriminate H.
Qed.

(** ** mm_malloc from the head of the free list *)

Lemma mm_malloc_split dm s r total rest m :
  heap_listp s <> 0 -> region_ok dm s -> free_list dm s (r :: rest) ->
  tagged (mem s) r total 0 ->
  mem_start_brk s <= r - 4 -> r + total - 4 <= mem_brk s ->
  total < 2 ^ 32 -> total mod 8 = 0 ->
  0 < m -> m + 15 < 2 ^ 32 -> adjust_size dm m + 24 <= total ->
  Forall (fun x => x + 16 <= r - 8 \/ r + total <= x) rest ->
  ~ (ff_size s = to_int (adjust_size dm m) /\ 40 < ff_count s) ->
  exists s', mm_malloc dm m s = Ok r s' /\
    (mem_start_brk s' = mem_start_brk s /\ mem_brk s' = mem_brk s /\
     mem_max_addr s' = mem_max_addr s /\ heap_listp s' = heap_listp s) /\
    ff_size s' = to_int (adjust_size dm m) /\
    tagged (mem s') r (adjust_size dm m) 1 /\
    tagged (mem s') (r + adjust_size dm m) (total - adjust_size dm m) 0 /\
    free_list dm s' (r + adjust_size dm m :: rest) /\
    unchanged_outside rest (r - 4) (r + total - 4) (mem s) (mem s').
Proof.
  intros Hh Hreg Hfl Htag B1 B2 T1 T2 M1 M2 Hsplit Hrest Hby.
  destruct (adjust_size_bounds dm m M1 M2) as (A1 & A2 & _).
  set (asize := adjust_size dm m) in *.
  pose proof Hreg as [R1 R2].
  pose proof Hfl as (Hhd & Hd & Hin & Hap). cbn [hd] in Hhd.
  pose proof Htag as [Th Tf].
  pose proof (find_fit_head dm s asize total) as HF. cbv zeta in HF. rewrite Hhd in HF.
  destruct (HF ltac:(lia) ltac:(lia) ltac:(lia) Th T2 ltac:(lia) ltac:(lia) Hby)
    as (sF & Hff & F1 & F2 & F3 & F4 & F5 & F6 & F7).
  clear HF.
  assert (HregF : region_ok dm sF) by (unfold region_ok; rewrite F3, F4; exact Hreg).
  assert (HflF : free_list dm sF (r :: rest)).
  { unfold free_list. rewrite F1, F2, F3, F4.
    split; [reflexivity|]. split; [exact Hd|]. split; [exact Hin|exact Hap]. }
  destruct (place_split dm sF r total rest asize HregF HflF)
    as (s' & Hpl & Hsg & Tg1 & Tg2 & Hfl' & Hun); try lia; try assumption.
  { rewrite F1. exact Htag. }
  exists s'. destruct Hsg as (G1 & G2 & G3 & G4 & G5 & G6).
  split; [|split; [|split; [|split; [|split; [|split]]]]]; try assumption.
  - unfold mm_malloc. rewrite run_gets, nonzero_true, run_ret by exact Hh.
    replace (m <=? 0) with false by (symmetry; apply Z.leb_gt; lia).
    fold asize. rewrite (run_ok _ _ _ _ _ Hff).
    rewrite nonzero_true by lia.
    rewrite (run_ok _ _ _ _ _ Hpl). reflexivity.
  - rewrite G1, G2, G3, G4, F3, F4, F5, F6. repeat split.
  - rewrite G5. exact F7.
  - rewrite <- F1. exact Hun.
Qed.

(** ** mm_init *)

Lemma extend_size_chunk dm : extend_size dm (CHUNKSIZE / WSIZE) = CHUNKSIZE.
Proof. destruct dm; reflexivity. Qed.

Lemma mm_init_spec dm base max_heap m0 :
  0 < base -> 16 + CHUNKSIZE <= max_heap -> base + max_heap <= 2 ^ (8 * PSIZE dm) ->
  exists s', mm_init dm (boot base max_heap m0) = Ok 0 s' /\
    (mem_start_brk s' = base /\ mem_brk s' = base + 16 + CHUNKSIZE /\
     mem_max_addr s' = base + max_heap /\ heap_listp s' = base) /\
    (ff_size s' = 0 /\ ff_count s' = 0) /\
    tagged (mem s') (base + 8) 8 1 /\
    tagged (mem s') (base + 16) CHUNKSIZE 0 /\
    word (mem s') (base + 16 + CHUNKSIZE - 4) = PACK 0 1 /\
    free_list dm s' [base + 16].
Proof.
  intros Hb Hm Hmax.
  assert (HC : CHUNKSIZE = 65536) by reflexivity.
  pose proof Hm as Hm'. rewrite HC in Hm'.
  unfold mm_init, WSIZE, DSIZE, OVERHEAD. change (4 * 4) with 16.
  unfold boot.
  rewrite run_mem_sbrk by (cbn [mem_brk mem_max_addr]; lia).
  cbn [mem_brk]. rewrite run_modify.
  replace (base =? 0) with false by (symmetry; apply Z.eqb_neq; lia).
  rewrite (PACK_add 8 1), (PACK_add 0 1) by (try reflexivity; lia).
  change (8 + 1) with 9. change (0 + 1) with 1.
  rewrite ?run_bind, run_PUT by inh.
  rewrite ?run_bind, run_PUT by inh.
  rewrite ?run_bind, run_PUT by inh.
  rewrite ?run_bind, run_PUT by inh.
  rewrite run_modify.
  set (sp := set_free_listp _ 0).
  pose proof (extend_heap_spec dm sp (CHUNKSIZE / 4) [] 8 1) as HE.
  cbv zeta in HE. change (CHUNKSIZE / 4) with (CHUNKSIZE / WSIZE) in HE.
  rewrite extend_size_chunk in HE.
  assert (Ebrk : mem_brk sp = base + 16) by reflexivity.
  assert (Em : mem sp =
               le_store (le_store (le_store (le_store m0 base 4 0) (base + 4) 4 9)
                                  (base + 8) 4 9) (base + 4 + 8) 4 1) by reflexivity.
  rewrite Ebrk in HE.
  unfold merged_start, merged_size, absorbed in HE. cbn [Z.eqb app] in HE.
  destruct HE as (s' & Hrun & Hr & Hbrk & _ & _ & Tg & _ & Hep & Hfl & Hsg & Hun).
  - subst sp. unfold region_ok. proj. lia.
  - subst sp. proj. lia.
  - subst sp. unfold free_list. proj. repeat split; constructor.
  - repeat split; lia.
  - subst sp. proj. lia.
  - rewrite Em. unfold tagged. rewrite (PACK_add 8 1) by (try reflexivity; lia).
    change (8 + 1) with 9. split.
    + repeat (rewrite word_store_other by lia).
      replace (base + 16 - 8 - 4) with (base + 4) by lia. apply word_store_same. lia.
    + repeat (rewrite word_store_other by lia).
      replace (base + 16 - 8 + 8 - 8) with (base + 8) by lia. apply word_store_same. lia.
  - intros E. discriminate E.
  - intros x [].
  - constructor.
  - rewrite HC. lia.
  - subst sp. proj. lia.
  - rewrite HC. lia.
  - change (CHUNKSIZE / 4) with (CHUNKSIZE / WSIZE).
    rewrite (run_ok _ _ _ _ _ Hrun).
    replace (base + 16 =? 0) with false by (symmetry; apply Z.eqb_neq; lia).
    exists s'. split; [reflexivity|].
    destruct Hsg as (G1 & G2 & G3 & G4 & G5 & G6).
    split; [|split; [|split; [|split; [|split]]]].
    + rewrite G1, G2, G3, G4. subst sp. proj. rewrite HC. repeat split; lia.
    + rewrite G5, G6. subst sp. proj. split; reflexivity.
    + unfold tagged.
      replace (base + 8 + 8 - 8) with (base + 8) by lia.
      replace (base + 8 - 4) with (base + 4) by lia.
      rewrite (PACK_add 8 1) by (try reflexivity; lia). change (8 + 1) with 9.
      rewrite !(word_unchanged _ _ _ _ _ _ Hun) by (first [lia|constructor]).
      rewrite Em. split.
      * repeat (rewrite word_store_other by lia). apply word_store_same. lia.
      * repeat (rewrite word_store_other by lia). apply word_store_same. lia.
    + rewrite !Z.add_0_r in Tg. exact Tg.
    + rewrite Hbrk in Hep. exact Hep.
    + cbn [without fold_right] in Hfl. exact Hfl.
Qed.

(** ** Scenario A at any heap base *)

Lemma tagged_unchanged l lo hi m m' bp sz a :
  unchanged_outside l lo hi m m' -> tagged m bp sz a ->
  bp <= lo \/ hi <= bp - 4 -> bp + sz - 4 <= lo \/ hi <= bp + sz - 8 ->
  Forall (fun y => bp <= y \/ y + 16 <= bp - 4) l ->
  Forall (fun y => bp + sz - 4 <= y \/ y + 16 <= bp + sz - 8) l ->
  tagged m' bp sz a.
Proof.
  intros Hu [Th Tf] H1 H2 L1 L2. unfold tagged.
  rewrite (word_unchanged _ _ _ _ _ _ Hu), (word_unchanged _ _ _ _ _ _ Hu).
  - split; assumption.
  - lia.
  - eapply Forall_impl; [|exact L2]. cbv beta. intros y Hy. lia.
  - lia.
  - eapply Forall_impl; [|exact L1]. cbv beta. intros y Hy. lia.
Qed.

Lemma scenario_A_runs dm base max_heap m0 :
  0 < base -> 16 + CHUNKSIZE <= max_heap -> base + max_heap <= 2 ^ (8 * PSIZE dm) ->
  result (scenario_A dm (boot base max_heap m0)) =
  Some (base + 16, base + 16, base + 16 + CHUNKSIZE, base + 16 + CHUNKSIZE).
Proof.
  intros Hb Hm Hmax.
  assert (HC : CHUNKSIZE = 65536) by reflexivity.
  assert (A50 : adjust_size dm 50 = 64) by (destruct dm; reflexivity).
  assert (A100 : adjust_size dm 100 = 112) by (destruct dm; reflexivity).
  assert (A200 : adjust_size dm 200 = 208) by (destruct dm; reflexivity).
  destruct (mm_init_spec dm base max_heap m0 Hb Hm Hmax)
    as (s1 & Hinit & (I1 & I2 & I3 & I4) & (I5 & I6) & Tp1 & Tb1 & _ & Fl1).
  rewrite HC in *.
  assert (T64 : to_int 64 = 64) by reflexivity.
  assert (T112 : to_int 112 = 112) by reflexivity.
  assert (T208 : to_int 208 = 208) by reflexivity.
  (* X = allocate(100) *)
  pose proof (mm_malloc_split dm s1 (base + 16) 65536 [] 100) as HM.
  rewrite A100, T112, I5 in HM.
  destruct HM as (s2 & Hx & (J1 & J2 & J3 & J4) & J5 & Tx2 & Tr2 & Fl2 & U2);
    [lia|unfold region_ok; lia|exact Fl1|exact Tb1|lia|lia|lia|reflexivity|lia|lia|lia
    |constructor|intros [E _]; discriminate E|].
  (* Y = allocate(200) *)
  pose proof (mm_malloc_split dm s2 (base + 16 + 112) (65536 - 112) [] 200) as HM.
  rewrite A200, T208, J5 in HM.
  destruct HM as (s3 & Hy & (K1 & K2 & K3 & K4) & K5 & Ty3 & Tr3 & Fl3 & U3);
    [lia|unfold region_ok; lia|exact Fl2|exact Tr2|lia|lia|lia|reflexivity|lia|lia|lia
    |constructor|intros [E _]; discriminate E|].
  (* release(X); allocate(50) *)
  pose proof (release_then_allocate dm s3 (base + 16) 112 8 1 208 1
                [base + 16 + 112 + 208] 100 50) as HR.
  rewrite A50, A100, T64, K5 in HR.
  change (merged_start (base + 16) 8 1) with (base + 16) in HR.
  change (merged_size 112 8 1 208 1) with 112 in HR.
  change (absorbed (base + 16) 112 8 1 1) with (@nil Z) in HR.
  destruct HR as (s4 & s5 & Hfree & Hz & _ & _ & E4 & Hbrk);
    [lia|unfold region_ok; lia|exact Fl3| |lia|intros x []| |lia|lia|lia
    |intros [E _]; discriminate E|].
  { split; [split; [lia|reflexivity]|].
    split; [repeat split; lia|]. split; [repeat split; lia|]. split; [lia|].
    split; [|split; [|split; [|split; intros E; discriminate E]]].
    - eapply tagged_unchanged; [exact U3|exact Tx2|lia|lia|constructor|constructor].
    - replace (base + 16 - 8) with (base + 8) by lia.
      assert (Tp2 : tagged (mem s2) (base + 8) 8 1).
      { eapply tagged_unchanged; [exact U2|exact Tp1|lia|lia|constructor|constructor]. }
      eapply tagged_unchanged; [exact U3|exact Tp2|lia|lia|constructor|constructor].
    - destruct Ty3 as [H _]. exact H. }
  { unfold nodes_outside. constructor; [|constructor]. right. right. lia. }
  unfold scenario_A.
  rewrite (run_ok _ _ _ _ _ Hinit), (run_ok _ _ _ _ _ Hx), (run_ok _ _ _ _ _ Hy).
  rewrite (run_ok _ _ _ _ _ Hfree). rewrite run_gets.
  rewrite (run_ok _ _ _ _ _ Hz). rewrite run_gets.
  cbn [ret result].
  rewrite E4, Hbrk, K2, J2, I2. reflexivity.
Qed.

(** ** Tags and accesses, again *)

Lemma in_heap_set_mem s m a n : in_heap (set_mem s m) a n = in_heap s a n.
Proof. reflexivity. Qed.

Lemma PACK_bound sz a :
  sz mod 8 = 0 -> 0 <= sz < 2 ^ 32 -> 0 <= a <= 1 -> 0 <= PACK sz a < 2 ^ 32.
Proof.
  intros H1 H2 H3. rewrite PACK_add by lia.
  pose proof (mul8_below sz H1 ltac:(lia)). lia.
Qed.

(** ** Size adjustment *)

Lemma adjust_size_aligned dm n :
  0 <= adjust_size dm n < 2 ^ 32 /\ adjust_size dm n mod 8 = 0.
Proof.
  unfold adjust_size, DSIZE, OVERHEAD.
  destruct (n <=? 8); [split; [lia|reflexivity]|].
  unfold u32. split; [apply Z.mod_pos_bound; lia|].
  apply mod8_of_mod_pow2; [lia|].
  unfold to_size_t at 1. apply mod8_of_mod_pow2; [destruct dm; cbn; lia|].
  rewrite Z.mul_comm. apply Z.mod_mul. lia.
Qed.

Lemma adjust_size_wraps dm n :
  8 < n < 2 ^ (8 * PSIZE dm) -> 2 ^ 32 <= n + 15 -> adjust_size dm n < n + 8.
Proof.
  intros Hn Hw.
  destruct (adjust_size_aligned dm n) as [[A1 A2] A3].
  pose proof (mul8_below _ A3 A2) as A4.
  destruct (Z.lt_ge_cases (n + 8) (2 ^ 32)) as [Hs|Hs]; [|lia].
  (* 2^32 - 15 <= n < 2^32 - 8 *)
  unfold adjust_size, DSIZE, OVERHEAD in *.
  replace (n <=? 8) with false in * by (symmetry; apply Z.leb_gt; lia).
  replace (n + 8 + (8 - 1)) with (n + 15) in * by lia.
  destruct dm; cbn [PSIZE] in *.
  - (* ILP32: n + 15 wraps to less than 8 *)
    unfold to_size_t, u32. cbn [PSIZE]. change (2 ^ (8 * 4)) with (2 ^ 32) in *.
    replace ((n + 15) mod 2 ^ 32) with (n + 15 - 2 ^ 32).
    2:{ apply Z.mod_unique with (q := 1); lia. }
    rewrite (Z.div_small (n + 15 - 2 ^ 32)) by lia.
    cbn. lia.
  - (* LP64: the product is 2^32, which the uint32_t drops *)
    unfold to_size_t, u32. cbn [PSIZE]. change (2 ^ (8 * 8)) with (2 ^ 64) in *.
    rewrite (Z.mod_small (n + 15)) by lia.
    assert (E : (n + 15) / 8 = 2 ^ 29).
    { symmetry. apply Z.div_unique with (r := n + 15 - 2 ^ 32); lia. }
    rewrite E. cbn. lia.
Qed.

Lemma adjust_size_fits dm n :
  (n <= 8 -> adjust_size dm n = 16) /\
  (8 < n < 2 ^ (8 * PSIZE dm) ->
   (n + OVERHEAD <= adjust_size dm n <-> n + 15 < 2 ^ 32)).
Proof.
  split.
  - intros H. unfold adjust_size, DSIZE, OVERHEAD.
    replace (n <=? 8) with true by (symmetry; apply Z.leb_le; lia). reflexivity.
  - intros Hn. unfold OVERHEAD. split.
    + intros H. destruct (Z.lt_ge_cases (n + 15) (2 ^ 32)) as [L|L]; [exact L|].
      pose proof (adjust_size_wraps dm n Hn L). lia.
    + intros H. destruct (adjust_size_bounds dm n ltac:(lia) H) as (_ & _ & B). lia.
Qed.

(** ** mm_realloc *)

Lemma bind_ok_inv {A B} (m : M A) (k : A -> M B) s b s' :
  bind m k s = Ok b s' -> exists a s1, m s = Ok a s1 /\ k a s1 = Ok b s'.
Proof.
  unfold bind. destruct (m s) as [a s1| | |]; try discriminate.
  intros H. exists a, s1. split; [reflexivity|exact H].
Qed.

Lemma mm_malloc_zero dm s : heap_listp s <> 0 -> mm_malloc dm 0 s = Ok 0 s.
Proof.
  intros H. unfold mm_malloc.
  rewrite run_gets, nonzero_true, run_ret by exact H. reflexivity.
Qed.

Lemma mm_realloc_exits dm ptr size s s1 :
  mm_malloc dm size s = Ok 0 s1 ->
  mm_realloc dm ptr size s = Exit "ERROR: mm_malloc failed in mm_realloc\n".
Proof. intros H. unfold mm_realloc. rewrite (run_ok _ _ _ _ _ H). reflexivity. Qed.

Lemma mm_realloc_not_null dm ptr size s : result (mm_realloc dm ptr size s) <> Some 0.
Proof.
  destruct (mm_realloc dm ptr size s) as [r s'| | |] eqn:E; cbn [result]; try discriminate.
  intros H. inversion H; subst r. clear H.
  unfold mm_realloc in E.
  apply bind_ok_inv in E. destruct E as (newp & s1 & _ & E).
  destruct (Z.eqb_spec newp 0) as [->|Hn]; [discriminate E|].
  apply bind_ok_inv in E. destruct E as (hdr & s2 & _ & E).
  apply bind_ok_inv in E. destruct E as (u1 & s3 & _ & E).
  apply bind_ok_inv in E. destruct E as (u2 & s4 & _ & E).
  inversion E; subst. apply Hn. reflexivity.
Qed.

(** ** The checker only reads *)

Ltac reads_step :=
  first [ apply (keeps_ret eq (@eq_refl state))
        | apply (keeps_gets eq (@eq_refl state))
        | apply keeps_exit
        | apply (keeps_load eq (@eq_refl state))
        | apply (keeps_bind eq (@eq_trans state)); [|intros]
        | progress cbv zeta
        | match goal with
          | |- keeps _ (if ?b then _ else _) => destruct b
          | |- keeps _ (let '(_, _) := ?p in _) => destruct p
          end ].

Lemma reads_GET_SIZE p : keeps eq (GET_SIZE p).
Proof. keeps_macros. repeat reads_step. Qed.

Lemma reads_GET_ALLOC p : keeps eq (GET_ALLOC p).
Proof. keeps_macros. repeat reads_step. Qed.

Lemma reads_FTRP bp : keeps eq (FTRP bp).
Proof. keeps_macros. repeat reads_step. Qed.

Lemma reads_NEXT_BLKP bp : keeps eq (NEXT_BLKP bp).
Proof. keeps_macros. repeat reads_step. Qed.

Lemma reads_printblock bp : keeps eq (printblock bp).
Proof. unfold printblock. keeps_macros. repeat reads_step. Qed.

Lemma reads_checkblock dm bp : keeps eq (checkblock dm bp).
Proof. unfold checkblock. keeps_macros. repeat reads_step. Qed.

Lemma reads_heap_walk dm fuel : forall bp c, keeps eq (heap_walk dm fuel bp c).
Proof.
  induction fuel as [|k IH]; intros bp c; cbn [heap_walk].
  - intros s a s' H. discriminate H.
  - keeps_macros.
    repeat first [ apply IH | apply reads_printblock | apply reads_checkblock | reads_step ].
Qed.

(** ** The free-list walk of the checker *)

Lemma printblock_null s : -4 < mem_start_brk s -> printblock 0 s = Fault.
Proof.
  intros H. unfold printblock, bind, GET_SIZE, bind, GET, load, in_heap, HDRP, WSIZE.
  replace (mem_start_brk s <=? 0 - 4) with false by (symmetry; apply Z.leb_gt; lia).
  reflexivity.
Qed.

Lemma list_walk_never_ends dm fuel : forall cp c s r s',
  -4 < mem_start_brk s -> cp <> 0 -> list_walk dm fuel cp c s <> Ok r s'.
Proof.
  induction fuel as [|k IH]; intros cp c s r s' Hlo Hcp H; cbn [list_walk] in H.
  - discriminate H.
  - rewrite (nonzero_true cp Hcp) in H.
    apply bind_ok_inv in H. destruct H as (u & s1 & H1 & H).
    apply reads_checkblock in H1. subst s1.
    apply bind_ok_inv in H. destruct H as (nx & s2 & H2 & H).
    apply (keeps_load eq (@eq_refl state)) in H2. subst s2.
    apply bind_ok_inv in H. destruct H as (u' & s3 & H3 & H).
    destruct (Z.eq_dec nx 0) as [->|Hnx].
    + rewrite printblock_null in H3 by exact Hlo. discriminate H3.
    + apply reads_printblock in H3. subst s3.
      apply (IH nx (c + 1) s r s' Hlo Hnx H).
Qed.

Lemma mm_checkheap_never_passes dm v s r s' :
  4 < mem_start_brk s -> mm_checkheap dm v s <> Ok r s'.
Proof.
  intros Hlo H. unfold mm_checkheap in H.
  rewrite !run_gets in H. unfold mem_heap_lo in H. rewrite run_gets in H.
  destruct (negb (heap_listp s =? mem_start_brk s)); [discriminate H|].
  destruct (Z.eq_dec (free_listp s) 0) as [E0|E0].
  - (* empty list: go is 8, below the region *)
    rewrite E0 in H. unfold bind at 1 in H.
    unfold GET_SIZE, bind, GET, load, in_heap, HDRP, WSIZE, DSIZE in H.
    replace (mem_start_brk s <=? 0 + 8 - 4) with false in H
      by (symmetry; apply Z.leb_gt; lia).
    discriminate H.
  - apply bind_ok_inv in H. destruct H as (hs & s1 & H1 & H).
    apply reads_GET_SIZE in H1. subst s1.
    apply bind_ok_inv in H. destruct H as (ha & s1 & H1 & H).
    apply reads_GET_ALLOC in H1. subst s1.
    destruct (negb (hs =? DSIZE) || negb (nonzero ha)); [discriminate H|].
    apply bind_ok_inv in H. destruct H as (f & s1 & H1 & H).
    apply reads_FTRP in H1. subst s1.
    apply bind_ok_inv in H. destruct H as (fs & s1 & H1 & H).
    apply reads_GET_SIZE in H1. subst s1.
    apply bind_ok_inv in H. destruct H as (fa & s1 & H1 & H).
    apply reads_GET_ALLOC in H1. subst s1.
    destruct (negb (fs =? DSIZE) || negb (nonzero fa)); [discriminate H|].
    apply bind_ok_inv in H. destruct H as (u & s1 & H1 & H).
    apply reads_checkblock in H1. subst s1.
    rewrite run_gets in H.
    apply bind_ok_inv in H. destruct H as (nb & s1 & H1 & H).
    apply reads_NEXT_BLKP in H1. subst s1.
    apply bind_ok_inv in H. destruct H as ([bp hc] & s1 & H1 & H).
    apply reads_heap_walk in H1. subst s1.
    rewrite run_gets in H.
    apply bind_ok_inv in H. destruct H as (lc & s1 & H1 & _).
    apply list_walk_never_ends in H1; [exact H1|lia|exact E0].
Qed.

(** ** checkblock *)



(** ** find_fit is first fit *)

Lemma apart_NoDup l : apart l -> NoDup l.
Proof.
  induction l as [|x l IH]; intros H; [constructor|].
  cbn [apart] in H. destruct H as [H1 H2]. constructor; [|apply IH; exact H2].
  intros Hin. rewrite Forall_forall in H1. specialize (H1 x Hin). lia.
Qed.

Lemma nodes_below_fuel s l :
  Forall (fun x => mem_start_brk s <= x /\ x + 16 <= mem_brk s) l -> apart l ->
  (List.length l < walk_fuel s)%nat.
Proof.
  intros Hin Hap. unfold walk_fuel.
  set (n := Z.to_nat (mem_brk s - mem_start_brk s)).
  set (L := map (fun i => mem_start_brk s + Z.of_nat i) (seq 0 n)).
  assert (H : (List.length l <= List.length L)%nat).
  { apply NoDup_incl_length; [apply apart_NoDup; exact Hap|].
    intros x Hx. rewrite Forall_forall in Hin. specialize (Hin x Hx).
    apply in_map_iff. exists (Z.to_nat (x - mem_start_brk s)). split; [lia|].
    apply in_seq. subst n. lia. }
  subst L. rewrite length_map, length_seq in H. lia.
Qed.

Lemma find_fit_scan_hit dm s asize : forall l1 fuel prv x l2 nxt,
  (List.length l1 < fuel)%nat ->
  dseg dm (mem s) prv (l1 ++ x :: l2) nxt ->
  Forall (fun y => mem_start_brk s <= y - 4 /\ y + 16 <= mem_brk s /\
                   block_size (mem s) y < asize) l1 ->
  mem_start_brk s <= x - 4 -> x <= mem_brk s -> asize <= block_size (mem s) x ->
  find_fit_scan dm fuel asize (hd x l1) s = Ok x (set_ff_size s (to_int asize)).
Proof.
  pose proof (pbytes_bound dm) as [Pb1 Pb2].
  induction l1 as [|y l1 IH]; intros fuel prv x l2 nxt Hf Hd Hs B1 B2 Hx.
  - destruct fuel as [|k]; [cbn in Hf; lia|].
    cbn [app dseg] in Hd. destruct Hd as (X0 & _).
    cbn [hd find_fit_scan]. rewrite (nonzero_true x X0). unfold HDRP, WSIZE.
    rewrite run_GET_SIZE by inh. fold (block_size (mem s) x).
    replace (asize <=? block_size (mem s) x) with true by (symmetry; apply Z.leb_le; lia).
    reflexivity.
  - destruct fuel as [|k]; [cbn in Hf; lia|].
    cbn [app dseg] in Hd. destruct Hd as (Y0 & _ & Yn & Hd).
    apply Forall_cons_iff in Hs. destruct Hs as [(Y1 & Y2 & Y3) Hs].
    cbn [hd find_fit_scan]. rewrite (nonzero_true y Y0). unfold HDRP, WSIZE.
    rewrite run_GET_SIZE by inh. fold (block_size (mem s) y).
    replace (asize <=? block_size (mem s) y) with false by (symmetry; apply Z.leb_gt; lia).
    rewrite run_GET_NEXT by inh. rewrite Yn.
    replace (hd nxt (l1 ++ x :: l2)) with (hd x l1) by (destruct l1; reflexivity).
    apply (IH k y x l2 nxt); try assumption. cbn in Hf. lia.
Qed.

Lemma find_fit_scan_miss dm s asize : forall l fuel prv,
  (List.length l < fuel)%nat ->
  dseg dm (mem s) prv l 0 ->
  Forall (fun y => mem_start_brk s <= y - 4 /\ y + 16 <= mem_brk s /\
                   block_size (mem s) y < asize) l ->
  find_fit_scan dm fuel asize (hd 0 l) s = Ok 0 s.
Proof.
  pose proof (pbytes_bound dm) as [Pb1 Pb2].
  induction l as [|y l IH]; intros fuel prv Hf Hd Hs.
  - destruct fuel as [|k]; [cbn in Hf; lia|]. reflexivity.
  - destruct fuel as [|k]; [cbn in Hf; lia|].
    cbn [dseg] in Hd. destruct Hd as (Y0 & _ & Yn & Hd).
    apply Forall_cons_iff in Hs. destruct Hs as [(Y1 & Y2 & Y3) Hs].
    cbn [hd find_fit_scan]. rewrite (nonzero_true y Y0). unfold HDRP, WSIZE.
    rewrite run_GET_SIZE by inh. fold (block_size (mem s) y).
    replace (asize <=? block_size (mem s) y) with false by (symmetry; apply Z.leb_gt; lia).
    rewrite run_GET_NEXT by inh. rewrite Yn.
    apply (IH k y); try assumption. cbn in Hf. lia.
Qed.

Lemma find_fit_dispatch dm asize s (k : M Z) :
  ~ (ff_size s = to_int asize /\ 40 < ff_count s) ->
  (forall s1, k s1 = (fuel <- gets walk_fuel ;; find_fit_scan dm fuel asize (free_listp s)) s1) ->
  find_fit dm asize s = k (set_ff_count s (next_count s asize)).
Proof.
  intros Hby Hk. unfold find_fit, next_count. rewrite !run_gets.
  destruct (Z.eqb_spec (ff_size s) (to_int asize)) as [E|E].
  - replace (ff_count s >? 40) with false
      by (symmetry; rewrite Z.gtb_ltb; apply Z.ltb_ge; lia).
    rewrite run_modify, Hk. reflexivity.
  - rewrite run_modify, Hk. reflexivity.
Qed.

Lemma find_fit_first dm s l1 x l2 asize :
  free_list dm s (l1 ++ x :: l2) ->
  Forall (fun y => mem_start_brk s <= y - 4 /\ block_size (mem s) y < asize) l1 ->
  mem_start_brk s <= x - 4 -> asize <= block_size (mem s) x ->
  ~ (ff_size s = to_int asize /\ 40 < ff_count s) ->
  find_fit dm asize s =
  Ok x (set_ff_size (set_ff_count s (next_count s asize)) (to_int asize)).
Proof.
  intros (Hh & Hd & Hin & Hap) Hs B1 Hx Hby.
  rewrite (find_fit_dispatch dm asize s
             (fuel <- gets walk_fuel ;; find_fit_scan dm fuel asize (free_listp s)))
    by (exact Hby || reflexivity).
  rewrite run_gets. set (s1 := set_ff_count s (next_count s asize)).
  rewrite Hh. replace (hd 0 (l1 ++ x :: l2)) with (hd x l1) by (destruct l1; reflexivity).
  pose proof (nodes_below_fuel s _ Hin Hap) as Hf. rewrite length_app in Hf. cbn in Hf.
  apply Forall_app in Hin. destruct Hin as [Hin1 Hin2].
  apply Forall_cons_iff in Hin2. destruct Hin2 as [[X1 X2] _].
  apply (find_fit_scan_hit dm s1 asize l1 (walk_fuel s1) 0 x l2 0).
  - change (walk_fuel s1) with (walk_fuel s). lia.
  - exact Hd.
  - apply Forall_forall. intros y Hy. rewrite Forall_forall in Hin1, Hs.
    specialize (Hin1 y Hy). specialize (Hs y Hy). subst s1. proj. lia.
  - exact B1.
  - subst s1. proj. lia.
  - exact Hx.
Qed.

Lemma find_fit_none dm s l asize :
  free_list dm s l ->
  Forall (fun y => mem_start_brk s <= y - 4 /\ block_size (mem s) y < asize) l ->
  ~ (ff_size s = to_int asize /\ 40 < ff_count s) ->
  find_fit dm asize s = Ok 0 (set_ff_count s (next_count s asize)).
Proof.
  intros (Hh & Hd & Hin & Hap) Hs Hby.
  rewrite (find_fit_dispatch dm asize s
             (fuel <- gets walk_fuel ;; find_fit_scan dm fuel asize (free_listp s)))
    by (exact Hby || reflexivity).
  rewrite run_gets. set (s1 := set_ff_count s (next_count s asize)).
  rewrite Hh.
  pose proof (nodes_below_fuel s _ Hin Hap) as Hf.
  apply (find_fit_scan_miss dm s1 asize l (walk_fuel s1) 0).
  - exact Hf.
  - exact Hd.
  - apply Forall_forall. intros y Hy. rewrite Forall_forall in Hin, Hs.
    specialize (Hin y Hy). specialize (Hs y Hy). subst s1. proj. lia.
Qed.

(** ** edit_free_list: insertion undone by removal *)

Lemma edit_free_list_insert_remove dm s l bp :
  region_ok dm s -> free_list dm s l ->
  mem_start_brk s <= bp -> bp + 16 <= mem_brk s ->
  Forall (fun y => 16 <= Z.abs (bp - y)) l ->
  exists s1 s2,
    edit_free_list dm bp 1 s = Ok tt s1 /\ free_list dm s1 (bp :: l) /\
    edit_free_list dm bp 0 s1 = Ok tt s2 /\ free_list dm s2 l /\
    frame (bp :: l) (mem s) (mem s2) /\ same_globals s s2.
Proof.
  intros Hreg Hfl B1 B2 Hfar.
  destruct (edit_free_list_insert dm s l bp Hreg Hfl B1 B2 Hfar)
    as (s1 & Hrun1 & Hfl1 & Hfr1 & Hsg1).
  destruct (edit_free_list_remove dm s1 (bp :: l) bp
              (region_ok_same dm s s1 Hsg1 Hreg) Hfl1 (or_introl eq_refl))
    as (s2 & Hrun2 & Hfl2 & Hfr2 & Hsg2).
  assert (Hnotin : ~ In bp l).
  { intros Hin. rewrite Forall_forall in Hfar. specialize (Hfar bp Hin). lia. }
  rewrite remove_cons, notin_remove in Hfl2 by exact Hnotin.
  exists s1, s2. split; [exact Hrun1|]. split; [exact Hfl1|].
  split; [exact Hrun2|]. split; [exact Hfl2|].
  split; [exact (frame_trans _ _ _ _ Hfr1 Hfr2)|exact (same_globals_trans _ _ _ Hsg1 Hsg2)].
Qed.

(** ** The region never shrinks *)

Lemma keeps_mm_free dm bp : keeps grown (mm_free dm bp).
Proof.
  pose proof grown_refl as P_refl. pose proof grown_trans as P_trans.
  pose proof grown_set_mem as P_mem.
  unfold mm_free. keeps_macros.
  repeat first [ apply keeps_mm_init | grown_step ].
Qed.

Lemma keeps_mm_realloc dm ptr size : keeps grown (mm_realloc dm ptr size).
Proof.
  pose proof grown_refl as P_refl. pose proof grown_trans as P_trans.
  pose proof grown_set_mem as P_mem.
  unfold mm_realloc. keeps_macros.
  repeat first [ apply keeps_mm_malloc | apply keeps_mm_free | grown_step ].
Qed.

(** ** extend_heap and mm_init when the region cannot grow *)

Lemma extend_heap_fails dm words s :
  to_int (extend_size dm words) < 0 \/
  mem_max_addr s < mem_brk s + to_int (extend_size dm words) ->
  extend_heap dm words s = Ok 0 s.
Proof.
  intros H. unfold extend_heap. cbv zeta. unfold bind at 1, mem_sbrk.
  replace ((to_int (extend_size dm words) <? 0)
           || (mem_max_addr s <? mem_brk s + to_int (extend_size dm words))) with true.
  - rewrite Z.eqb_refl. reflexivity.
  - symmetry. apply orb_true_iff.
    destruct H as [H|H]; [left|right]; apply Z.ltb_lt; exact H.
Qed.

Lemma mm_init_no_room dm base max_heap m0 :
  0 < base -> 16 <= max_heap < 16 + CHUNKSIZE ->
  exists s', mm_init dm (boot base max_heap m0) = Ok (-1) s' /\
    heap_listp s' = base /\ free_listp s' = 0 /\
    mem_start_brk s' = base /\ mem_brk s' = base + 16 /\
    word (mem s') (base + 4) = PACK OVERHEAD 1 /\
    word (mem s') (base + 8) = PACK OVERHEAD 1 /\
    word (mem s') (base + 12) = PACK 0 1.
Proof.
  intros Hb Hm.
  assert (HC : CHUNKSIZE = 65536) by reflexivity. rewrite HC in Hm.
  unfold mm_init, WSIZE, DSIZE, OVERHEAD. change (4 * 4) with 16.
  unfold boot.
  rewrite run_mem_sbrk by (cbn [mem_brk mem_max_addr]; lia).
  cbn [mem_brk]. rewrite run_modify.
  replace (base =? 0) with false by (symmetry; apply Z.eqb_neq; lia).
  rewrite (PACK_add 8 1), (PACK_add 0 1) by (try reflexivity; lia).
  change (8 + 1) with 9. change (0 + 1) with 1.
  rewrite ?run_bind, run_PUT by inh.
  rewrite ?run_bind, run_PUT by inh.
  rewrite ?run_bind, run_PUT by inh.
  rewrite ?run_bind, run_PUT by inh.
  rewrite run_modify.
  change (65536 / 4) with (CHUNKSIZE / WSIZE).
  set (sp := set_free_listp _ 0).
  assert (Hfail : extend_heap dm (CHUNKSIZE / WSIZE) sp = Ok 0 sp).
  { apply extend_heap_fails. right. rewrite extend_size_chunk. subst sp. proj.
    rewrite HC. change (to_int 65536) with 65536. lia. }
  rewrite (run_ok _ _ _ _ _ Hfail). subst sp.
  eexists. split; [reflexivity|]. proj.
  split; [reflexivity|]. split; [reflexivity|]. split; [reflexivity|].
  split; [reflexivity|].
  split; [|split].
    + repeat (rewrite word_store_other by lia). apply word_store_same. lia.
    + replace (base + 12) with (base + 4 + 8) by lia.
      repeat (rewrite word_store_other by lia). apply word_store_same. lia.
    + replace (base + 12) with (base + 4 + 8) by lia. apply word_store_same. lia.
Qed.

(** ** Layout of a block sequence *)

Lemma span_app bs1 bs2 : span (bs1 ++ bs2) = span bs1 + span bs2.
Proof.
  induction bs1 as [|[sz a] bs1 IH]; cbn [app span]; [reflexivity|]. rewrite IH. lia.
Qed.

Lemma placed_app bs1 : forall bp bs2,
  placed bp (bs1 ++ bs2) = placed bp bs1 ++ placed (bp + span bs1) bs2.
Proof.
  induction bs1 as [|[sz a] bs1 IH]; intros bp bs2; cbn [app span placed].
  - rewrite Z.add_0_r. reflexivity.
  - rewrite IH. replace (bp + sz + span bs1) with (bp + (sz + span bs1)) by lia.
    reflexivity.
Qed.

Lemma blocks_app m bs1 bp bs2 :
  blocks m bp (bs1 ++ bs2) <-> blocks m bp bs1 /\ blocks m (bp + span bs1) bs2.
Proof. unfold blocks. rewrite placed_app. apply Forall_app. Qed.

Lemma nodes_app a bs1 bp bs2 :
  nodes a bp (bs1 ++ bs2) = nodes a bp bs1 ++ nodes a (bp + span bs1) bs2.
Proof. unfold nodes. rewrite placed_app, filter_app, map_app. reflexivity. Qed.

Lemma in_nodes a bp bs y :
  In y (nodes a bp bs) <-> exists sz, In (y, sz, a) (placed bp bs).
Proof.
  unfold nodes. rewrite in_map_iff. split.
  - intros ([[b sz] a'] & E & H). cbn in E. subst b.
    apply filter_In in H. destruct H as [H Ha]. cbn in Ha. apply Z.eqb_eq in Ha. subst a'.
    exists sz. exact H.
  - intros (sz & H). exists (y, sz, a). split; [reflexivity|].
    apply filter_In. split; [exact H|]. cbn. apply Z.eqb_refl.
Qed.

Lemma span_nonneg m bs : forall bp, blocks m bp bs -> 0 <= span bs.
Proof.
  induction bs as [|[sz a] bs IH]; intros bp H; cbn [span]; [lia|].
  unfold blocks in H. cbn [placed] in H. apply Forall_cons_iff in H.
  destruct H as [(H1 & _) H]. specialize (IH _ H). lia.
Qed.

Lemma placed_bounds m bs : forall bp b sz a,
  blocks m bp bs -> In (b, sz, a) (placed bp bs) ->
  bp <= b /\ b + sz <= bp + span bs /\ 8 <= sz.
Proof.
  induction bs as [|[sz0 a0] bs IH]; intros bp b sz a H Hin; [destruct Hin|].
  unfold blocks in H. cbn [placed] in H, Hin. apply Forall_cons_iff in H.
  destruct H as [(H1 & _) H]. cbn [span].
  pose proof (span_nonneg m bs _ H) as Hs.
  destruct Hin as [E|Hin].
  - inversion E; subst. lia.
  - destruct (IH _ _ _ _ H Hin) as (I1 & I2 & I3). lia.
Qed.

Lemma placed_disjoint m bs : forall bp b1 sz1 a1 b2 sz2 a2,
  blocks m bp bs ->
  In (b1, sz1, a1) (placed bp bs) -> In (b2, sz2, a2) (placed bp bs) ->
  (b1, sz1, a1) = (b2, sz2, a2) \/ b1 + sz1 <= b2 \/ b2 + sz2 <= b1.
Proof.
  induction bs as [|[sz0 a0] bs IH]; intros bp b1 sz1 a1 b2 sz2 a2 H H1 H2; [destruct H1|].
  pose proof H as H'. unfold blocks in H'. cbn [placed] in H', H1, H2.
  apply Forall_cons_iff in H'. destruct H' as [(S1 & _) Hb].
  destruct H1 as [E1|H1]; destruct H2 as [E2|H2].
  - left. congruence.
  - inversion E1; subst. destruct (placed_bounds m bs _ _ _ _ Hb H2) as (I1 & _). right. left. lia.
  - inversion E2; subst. destruct (placed_bounds m bs _ _ _ _ Hb H1) as (I1 & _). right. right. lia.
  - apply (IH _ _ _ _ _ _ _ Hb H1 H2).
Qed.

Lemma block_aligned m bs : forall bp b sz a,
  blocks m bp bs -> bp mod 8 = 0 -> In (b, sz, a) (placed bp bs) -> b mod 8 = 0.
Proof.
  induction bs as [|[sz0 a0] bs IH]; intros bp b sz a H Hal Hin; [destruct Hin|].
  unfold blocks in H. cbn [placed] in H, Hin. apply Forall_cons_iff in H.
  destruct H as [(_ & S2 & _) H].
  destruct Hin as [E|Hin].
  - inversion E; subst. exact Hal.
  - apply (IH _ _ _ _ H (mul8_add _ _ Hal S2) Hin).
Qed.

(** ** Blocks a change of memory leaves alone *)

Lemma block_kept m m' L lo hi bp bs b sz a :
  blocks m bp bs -> In (b, sz, a) (placed bp bs) ->
  (forall y, In y L -> In y (nodes 0 bp bs)) ->
  unchanged_outside L lo hi m m' ->
  b + sz - 4 <= lo \/ hi <= b - 4 ->
  block_ok m' (b, sz, a) /\
  (a = 1 -> forall x, b <= x < b + sz - 8 -> m' x = m x).
Proof.
  intros Hb Hin HL Hu Hpos.
  pose proof Hb as Hall. unfold blocks in Hall. rewrite Forall_forall in Hall.
  pose proof (Hall _ Hin) as (S1 & S2 & S3 & S4 & Ht).
  assert (Hfar : forall y, In y L ->
            (y = b /\ a = 0) \/ y + 24 <= b \/ b + sz <= y).
  { intros y Hy. apply HL in Hy. apply in_nodes in Hy. destruct Hy as (sy & Hy).
    pose proof (Hall _ Hy) as (_ & _ & _ & Y4 & _). specialize (Y4 eq_refl).
    destruct (placed_disjoint m bs bp _ _ _ _ _ _ Hb Hy Hin) as [E|[D|D]].
    - inversion E; subst. left. split; reflexivity.
    - right. left. lia.
    - right. right. lia. }
  split.
  - unfold block_ok. repeat (split; [assumption|]).
    eapply tagged_unchanged; [exact Hu|exact Ht|lia|lia| |].
    + apply Forall_forall. intros y Hy. destruct (Hfar y Hy) as [[E _]|[D|D]]; lia.
    + apply Forall_forall. intros y Hy. destruct (Hfar y Hy) as [[E E']|[D|D]];
        [specialize (S4 E')|..]; lia.
  - intros Ha x Hx. apply Hu; [lia|].
    apply Forall_forall. intros y Hy. destruct (Hfar y Hy) as [[E E']|[D|D]]; lia.
Qed.

(** the blocks before and after a changed stretch of the heap *)
Lemma blocks_around m m' L bp pre mid post hi :
  blocks m bp (pre ++ mid ++ post) ->
  (forall y, In y L -> In y (nodes 0 bp (pre ++ mid ++ post))) ->
  unchanged_outside L (bp + span pre - 4) hi m m' ->
  post = [] \/ hi <= bp + span pre + span mid - 4 ->
  blocks m' bp pre /\ blocks m' (bp + span pre + span mid) post /\
  payloads_kept bp pre m m' /\ payloads_kept (bp + span pre + span mid) post m m'.
Proof.
  intros Hb HL Hu Hpost.
  pose proof Hb as Hb'. apply blocks_app in Hb'. destruct Hb' as [Hpre Hb'].
  apply blocks_app in Hb'. destruct Hb' as [Hmid Hpo].
  assert (Ipre : forall e, In e (placed bp pre) -> In e (placed bp (pre ++ mid ++ post))).
  { intros e He. rewrite placed_app. apply in_or_app. left. exact He. }
  assert (Ipost : forall e, In e (placed (bp + span pre + span mid) post) ->
                            In e (placed bp (pre ++ mid ++ post))).
  { intros e He. rewrite !placed_app. apply in_or_app. right. apply in_or_app. right.
    exact He. }
  assert (Kpre : forall b sz a, In (b, sz, a) (placed bp pre) ->
            block_ok m' (b, sz, a) /\ (a = 1 -> forall x, b <= x < b + sz - 8 -> m' x = m x)).
  { intros b sz a He.
    apply (block_kept m m' L _ hi bp _ b sz a Hb (Ipre _ He) HL Hu).
    destruct (placed_bounds m pre bp b sz a Hpre He) as (_ & I2 & _). left. lia. }
  assert (Kpost : forall b sz a, In (b, sz, a) (placed (bp + span pre + span mid) post) ->
            block_ok m' (b, sz, a) /\ (a = 1 -> forall x, b <= x < b + sz - 8 -> m' x = m x)).
  { intros b sz a He.
    apply (block_kept m m' L _ hi bp _ b sz a Hb (Ipost _ He) HL Hu).
    destruct (placed_bounds m post _ b sz a Hpo He) as (I1 & _).
    destruct Hpost as [->|Hhi]; [destruct He|]. right. lia. }
  split; [|split; [|split]].
  - unfold blocks. apply Forall_forall. intros [[b sz] a] He. apply (Kpre b sz a He).
  - unfold blocks. apply Forall_forall. intros [[b sz] a] He. apply (Kpost b sz a He).
  - intros b sz x He Hx. apply (proj2 (Kpre b sz 1 He) eq_refl x Hx).
  - intros b sz x He Hx. apply (proj2 (Kpost b sz 1 He) eq_refl x Hx).
Qed.

(** ** Heaps without adjacent free blocks *)

Lemma last_bit_cons b bs : bs <> [] -> last_bit (b :: bs) = last_bit bs.
Proof.
  intros H. unfold last_bit. destruct bs as [|c bs]; [contradiction|]. reflexivity.
Qed.

Lemma last_bit_snoc bs b : last_bit (bs ++ [b]) = snd b.
Proof. unfold last_bit. rewrite last_last. reflexivity. Qed.

Lemma coalesced_app xs ys :
  coalesced (xs ++ ys) <->
  coalesced xs /\ coalesced ys /\ (xs <> [] -> last_bit xs = 0 -> first_bit ys = 1).
Proof.
  induction xs as [|x xs IH]; cbn [app coalesced].
  - split; [intros H; repeat split; [exact H|intros E; exfalso; apply E; reflexivity]|tauto].
  - rewrite IH. destruct xs as [|x' xs].
    + cbn [app coalesced]. unfold last_bit. cbn [last].
      split.
      * intros (H1 & _ & H2 & _). repeat split; try assumption. intros _ E. apply H1. exact E.
      * intros ((_ & _) & H2 & H3). repeat split; try assumption.
        -- intros E. apply H3; [congruence|exact E].
        -- intros E. exfalso. apply E. reflexivity.
    + rewrite (last_bit_cons x (x' :: xs)) by congruence.
      change (first_bit ((x' :: xs) ++ ys)) with (first_bit (x' :: xs)).
      split.
      * intros (H1 & H2 & H3 & H4). split; [split; assumption|]. split; [assumption|].
        intros _. apply H4. congruence.
      * intros ((H1 & H2) & H3 & H4). split; [assumption|]. split; [assumption|].
        split; [assumption|]. intros _. apply H4. congruence.
Qed.

Lemma coalesced_free_run mid rest :
  Forall (fun b : Z * Z => snd b = 0) mid -> coalesced (mid ++ rest) ->
  mid <> [] -> first_bit rest = 1 /\ exists q, mid = [q].
Proof.
  intros Hfree Hc Hne. destruct mid as [|q mid]; [contradiction|].
  apply Forall_cons_iff in Hfree. destruct Hfree as [Fq Fm].
  cbn [app coalesced] in Hc. destruct Hc as [H1 _]. specialize (H1 Fq).
  destruct mid as [|q' mid].
  - split; [exact H1|]. exists q. reflexivity.
  - apply Forall_cons_iff in Fm. destruct Fm as [Fq' _].
    unfold first_bit in H1. cbn in H1. congruence.
Qed.

(** replacing the free blocks [midp] and [midn] around a block, with the
    block, by one free block *)
Lemma coalesced_merge pre midp b midn post total :
  coalesced (pre ++ midp ++ [b] ++ midn ++ post) ->
  Forall (fun b : Z * Z => snd b = 0) midp ->
  Forall (fun b : Z * Z => snd b = 0) midn ->
  (midp = [] -> last_bit pre = 1) -> (midn = [] -> first_bit post = 1) ->
  coalesced (pre ++ [(total, 0)] ++ post).
Proof.
  intros Hc Fp Fn Hp Hn.
  apply coalesced_app in Hc. destruct Hc as (Cpre & Crest & Hjoin).
  assert (Hlast : pre <> [] -> last_bit pre <> 0).
  { intros Hne E. destruct midp as [|q midp].
    - rewrite (Hp eq_refl) in E. discriminate E.
    - specialize (Hjoin Hne E). apply Forall_cons_iff in Fp. destruct Fp as [Fq _].
      unfold first_bit in Hjoin. cbn in Hjoin. congruence. }
  assert (Hfirst : first_bit post = 1 /\ coalesced post).
  { apply coalesced_app in Crest. destruct Crest as (_ & Crest & _).
    apply coalesced_app in Crest. destruct Crest as (_ & Crest & _).
    destruct midn as [|q midn].
    - split; [apply Hn; reflexivity|exact Crest].
    - destruct (coalesced_free_run (q :: midn) post Fn Crest ltac:(congruence))
        as [H _].
      split; [exact H|]. apply coalesced_app in Crest. tauto. }
  apply coalesced_app. split; [exact Cpre|]. split.
  - cbn [app coalesced]. split; [intros _; apply Hfirst|apply Hfirst].
  - intros Hne E. exfalso. apply (Hlast Hne E).
Qed.

Lemma coalesced_before_free pre q rest :
  coalesced (pre ++ q :: rest) -> snd q = 0 -> pre <> [] -> last_bit pre <> 0.
Proof.
  intros Hc Hq Hne E. apply coalesced_app in Hc. destruct Hc as (_ & _ & Hjoin).
  specialize (Hjoin Hne E). unfold first_bit in Hjoin. cbn in Hjoin. congruence.
Qed.

(** allocating a free block, whole or split *)
Lemma coalesced_place pre c post mid :
  coalesced (pre ++ (c, 0) :: post) ->
  (exists a c', mid = [(a, 1); (c', 0)]) \/ (exists a, mid = [(a, 1)]) ->
  coalesced (pre ++ mid ++ post).
Proof.
  intros Hc Hmid.
  pose proof (coalesced_before_free pre (c, 0) post Hc eq_refl) as Hlast.
  apply coalesced_app in Hc. destruct Hc as (Cpre & Crest & _).
  cbn [coalesced snd] in Crest. destruct Crest as [Hfirst Cpost]. specialize (Hfirst eq_refl).
  apply coalesced_app. split; [exact Cpre|]. split.
  - destruct Hmid as [(a & c' & ->)|(a & ->)]; cbn [app coalesced snd].
    + split; [intros E; discriminate E|]. split; [intros _; exact Hfirst|exact Cpost].
    + split; [intros E; discriminate E|exact Cpost].
  - intros Hne E. exfalso. apply (Hlast Hne E).
Qed.

(** a free block at the end, in place of the free blocks [midp] *)
Lemma coalesced_extend pre midp total :
  coalesced (pre ++ midp) ->
  Forall (fun b : Z * Z => snd b = 0) midp ->
  (midp = [] -> last_bit pre = 1) ->
  coalesced (pre ++ [(total, 0)]).
Proof.
  intros Hc Fp Hp.
  assert (Hlast : pre <> [] -> last_bit pre <> 0).
  { destruct midp as [|q midp].
    - intros _ E. rewrite (Hp eq_refl) in E. discriminate E.
    - apply Forall_cons_iff in Fp. destruct Fp as [Fq _].
      apply (coalesced_before_free pre q midp Hc Fq). }
  apply coalesced_app in Hc. destruct Hc as (Cpre & _ & _).
  apply coalesced_app. split; [exact Cpre|]. split.
  - cbn [coalesced]. split; [intros _; reflexivity|exact I].
  - intros Hne E. exfalso. apply (Hlast Hne E).
Qed.

(** ** Replacing a stretch of the heap *)

Lemma nodes_prologue lo bs : nodes 0 (lo + 8) ((8, 1) :: bs) = nodes 0 (lo + 16) bs.
Proof.
  unfold nodes. cbn [placed filter snd Z.eqb].
  replace (lo + 8 + 8) with (lo + 16) by lia. reflexivity.
Qed.

Lemma parts_disjoint m bp xs ys y a a' :
  blocks m bp (xs ++ ys) ->
  In y (nodes a bp xs) -> In y (nodes a' (bp + span xs) ys) -> False.
Proof.
  intros Hb H1 H2. apply blocks_app in Hb. destruct Hb as [Hx Hy].
  apply in_nodes in H1. destruct H1 as (s1 & H1).
  apply in_nodes in H2. destruct H2 as (s2 & H2).
  destruct (placed_bounds _ _ _ _ _ _ Hx H1) as (_ & I1 & I2).
  destruct (placed_bounds _ _ _ _ _ _ Hy H2) as (I3 & _). lia.
Qed.

Lemma free_node_room dm s bs l y :
  heap_ok dm s bs l -> In y l ->
  mem_start_brk s + 16 <= y /\ y + 24 <= mem_brk s.
Proof.
  intros (_ & _ & Hb & Hbrk & _ & _ & Hl) Hy.
  apply Hl in Hy. apply in_nodes in Hy. destruct Hy as (sy & Hy).
  unfold blocks in Hb. cbn [placed] in Hb. apply Forall_cons_iff in Hb.
  destruct Hb as [_ Hb]. replace (mem_start_brk s + 8 + 8) with (mem_start_brk s + 16) in Hb by lia.
  destruct (placed_bounds _ _ _ _ _ _ Hb Hy) as (I1 & I2 & _).
  pose proof Hb as Hb'. unfold blocks in Hb'. rewrite Forall_forall in Hb'.
  destruct (Hb' _ Hy) as (_ & _ & _ & S4 & _). specialize (S4 eq_refl). lia.
Qed.

Lemma heap_replace dm s s' pre mid mid' post l l' L hi :
  heap_ok dm s (pre ++ mid ++ post) l ->
  same_globals s s' ->
  (forall y, In y L -> In y l) ->
  unchanged_outside L (mem_start_brk s + 16 + span pre - 4) hi (mem s) (mem s') ->
  hi <= mem_start_brk s + 16 + span pre + span mid - 4 ->
  span mid' = span mid ->
  blocks (mem s') (mem_start_brk s + 16 + span pre) mid' ->
  free_list dm s' l' ->
  (forall y, In y l' <->
     (In y l /\ ~ In y (nodes 0 (mem_start_brk s + 16 + span pre) mid)) \/
     In y (nodes 0 (mem_start_brk s + 16 + span pre) mid')) ->
  heap_ok dm s' (pre ++ mid' ++ post) l' /\
  payloads_kept (mem_start_brk s + 16) pre (mem s) (mem s') /\
  payloads_kept (mem_start_brk s + 16 + span pre + span mid) post (mem s) (mem s').
Proof.
  intros Hok Hsg HL Hu Hhi Hspan Hmid' Hfl' Hl'.
  pose proof Hok as ((R1 & R2 & R3 & R4 & R5) & Hhp & Hb & Hbrk & Hep & Hfl & Hl).
  destruct Hsg as (G1 & G2 & G3 & G4 & _).
  set (lo := mem_start_brk s) in *.
  assert (E0 : (8, 1) :: pre ++ mid ++ post = ((8, 1) :: pre) ++ mid ++ post) by reflexivity.
  assert (E1 : lo + 8 + span ((8, 1) :: pre) = lo + 16 + span pre) by (cbn [span]; lia).
  rewrite E0 in Hb.
  pose proof Hb as Hb3. apply blocks_app in Hb3. destruct Hb3 as [Hbpre Hb3].
  apply blocks_app in Hb3. destruct Hb3 as [Hbmid Hbpost]. rewrite E1 in Hbmid, Hbpost.
  pose proof (span_nonneg _ _ _ Hbmid) as Smid.
  pose proof (span_nonneg _ _ _ Hbpost) as Spost.
  rewrite !span_app in Hbrk.
  destruct (blocks_around (mem s) (mem s') L (lo + 8) ((8, 1) :: pre) mid post hi Hb)
    as (Kpre & Kpost & Ppre & Ppost).
  { intros y Hy. rewrite <- E0, nodes_prologue. apply Hl. apply HL. exact Hy. }
  { rewrite E1. exact Hu. }
  { right. rewrite E1. exact Hhi. }
  rewrite E1 in Kpost, Ppost.
  split; [|split].
  - unfold heap_ok. rewrite G1, G2, G3, G4. fold lo.
    split; [repeat split; assumption|]. split; [exact Hhp|].
    split; [|split; [|split; [|split]]].
    + change ((8, 1) :: pre ++ mid' ++ post) with (((8, 1) :: pre) ++ mid' ++ post).
      apply blocks_app. split; [exact Kpre|]. apply blocks_app. rewrite E1.
      split; [exact Hmid'|]. rewrite Hspan. exact Kpost.
    + rewrite !span_app, Hspan. exact Hbrk.
    + rewrite <- Hep. apply (word_unchanged _ _ _ _ _ _ Hu); [right; lia|].
      apply Forall_forall. intros y Hy.
      destruct (free_node_room dm s _ l y Hok (HL y Hy)) as [F1 F2]. right. fold lo in F1. lia.
    + exact Hfl'.
    + intros y. rewrite Hl', Hl, !nodes_app, !in_app_iff, Hspan.
      split.
      * intros [[[H|[H|H]] Hn]|H]; tauto.
      * intros [H|[H|H]]; [left|right; exact H|left].
        -- split; [tauto|]. intros Hm.
           apply (parts_disjoint (mem s) (lo + 8) ((8, 1) :: pre) (mid ++ post) y 0 0).
           ++ exact Hb.
           ++ rewrite nodes_prologue. exact H.
           ++ rewrite E1, nodes_app. apply in_or_app. left. exact Hm.
        -- split; [tauto|]. intros Hm.
           apply (parts_disjoint (mem s) (lo + 16 + span pre) mid post y 0 0).
           ++ apply blocks_app. split; assumption.
           ++ exact Hm.
           ++ exact H.
  - intros b sz x He Hx. apply (Ppre b sz x); [|exact Hx].
    cbn [placed]. right. replace (lo + 8 + 8) with (lo + 16) by lia. exact He.
  - exact Ppost.
Qed.

(** ** Facts a well-formed heap gives about one of its blocks *)

Lemma heap_user_blocks dm s bs l :
  heap_ok dm s bs l -> blocks (mem s) (mem_start_brk s + 16) bs.
Proof.
  intros (_ & _ & Hb & _). unfold blocks in *. cbn [placed] in Hb.
  apply Forall_cons_iff in Hb. destruct Hb as [_ Hb].
  replace (mem_start_brk s + 8 + 8) with (mem_start_brk s + 16) in Hb by lia. exact Hb.
Qed.

Lemma heap_region dm s bs l : heap_ok dm s bs l -> region_ok dm s.
Proof. intros ((R1 & R2 & R3 & R4 & R5) & _). unfold region_ok. lia. Qed.

Lemma heap_block dm s bs l r sz a :
  heap_ok dm s bs l -> In (r, sz, a) (placed (mem_start_brk s + 16) bs) ->
  block_ok (mem s) (r, sz, a) /\
  mem_start_brk s + 16 <= r /\ r + sz <= mem_brk s /\ sz < 2 ^ 32 /\ r mod 8 = 0 /\
  (a = 0 -> In r l) /\
  (forall x, In x l -> x <> r -> x + 24 <= r \/ r + sz <= x).
Proof.
  intros Hok Hin.
  pose proof (heap_user_blocks _ _ _ _ Hok) as Hb.
  pose proof Hok as ((R1 & R2 & R3 & R4 & R5) & _ & _ & Hbrk & _ & _ & Hl).
  pose proof Hb as Hall. unfold blocks in Hall. rewrite Forall_forall in Hall.
  destruct (placed_bounds _ _ _ _ _ _ Hb Hin) as (I1 & I2 & I3).
  split; [exact (Hall _ Hin)|]. split; [exact I1|]. split; [lia|]. split; [lia|].
  split; [|split].
  - eapply block_aligned; [exact Hb| |exact Hin].
    apply mul8_add; [exact R2|reflexivity].
  - intros ->. apply Hl. apply in_nodes. exists sz. exact Hin.
  - intros x Hx Hne. apply Hl in Hx. apply in_nodes in Hx. destruct Hx as (sx & Hx).
    destruct (Hall _ Hx) as (_ & _ & _ & X4 & _). specialize (X4 eq_refl).
    destruct (placed_disjoint _ _ _ _ _ _ _ _ _ Hb Hx Hin) as [E|[D|D]].
    + inversion E. contradiction.
    + left. lia.
    + right. lia.
Qed.

Lemma in_placed_mid bp pre sz a post :
  In (bp + span pre, sz, a) (placed bp (pre ++ (sz, a) :: post)).
Proof. rewrite placed_app. apply in_or_app. right. left. reflexivity. Qed.

(** ** place on a well-formed heap *)

Lemma heap_place dm s pre csize post l asize :
  heap_ok dm s (pre ++ (csize, 0) :: post) l ->
  16 <= asize -> asize mod 8 = 0 -> asize <= csize ->
  exists s' bsz rest l',
    place dm (mem_start_brk s + 16 + span pre) asize s = Ok tt s' /\
    same_globals s s' /\
    heap_ok dm s' (pre ++ ((bsz, 1) :: rest) ++ post) l' /\
    asize <= bsz /\ bsz + span rest = csize /\
    payloads_kept (mem_start_brk s + 16) pre (mem s) (mem s') /\
    payloads_kept (mem_start_brk s + 16 + span pre + csize) post (mem s) (mem s') /\
    (bsz, 1) :: rest =
    (if asize + 24 <=? csize then [(asize, 1); (csize - asize, 0)] else [(csize, 1)]) /\
    (coalesced (pre ++ (csize, 0) :: post) ->
     coalesced (pre ++ ((bsz, 1) :: rest) ++ post)).
Proof.
  intros Hok A1 A2 A3.
  set (r := mem_start_brk s + 16 + span pre).
  pose proof (heap_block dm s _ l r csize 0 Hok (in_placed_mid _ _ _ _ _))
    as ((S1 & S2 & _ & S4 & [Th Tf]) & B1 & B2 & B3 & B4 & Hin & Hfar).
  specialize (S4 eq_refl). specialize (Hin eq_refl).
  pose proof (heap_region _ _ _ _ Hok) as Hreg.
  pose proof Hok as (_ & _ & _ & _ & _ & Hfl & Hl).
  assert (Hrest : Forall (fun x => x + 16 <= r - 8 \/ r + csize <= x) (remove Z.eq_dec r l)).
  { apply Forall_forall. intros x Hx. apply in_remove in Hx. destruct Hx as [Hx Hne].
    destruct (Hfar x Hx Hne); lia. }
  assert (HL : forall y, In y (remove Z.eq_dec r l) -> In y l).
  { intros y Hy. apply in_remove in Hy. tauto. }
  change (pre ++ (csize, 0) :: post) with (pre ++ [(csize, 0)] ++ post) in Hok.
  destruct (Z.le_gt_cases (asize + 24) csize) as [Hs|Hs].
  - destruct (place_split_at dm s r csize l asize Hreg Hfl Hin (conj Th Tf))
      as (s' & Hrun & Hsg & T1 & T2 & Hfl' & Hun); try lia; try assumption.
    exists s', asize, [(csize - asize, 0)], (r + asize :: remove Z.eq_dec r l).
    split; [exact Hrun|]. split; [exact Hsg|].
    destruct (heap_replace dm s s' pre [(csize, 0)] [(asize, 1); (csize - asize, 0)] post
                l (r + asize :: remove Z.eq_dec r l) (remove Z.eq_dec r l)
                (r + csize - 4) Hok Hsg HL)
      as (Hok' & P1 & P2).
    + exact Hun.
    + cbn [span]. fold r. lia.
    + cbn [span]. lia.
    + fold r. unfold blocks. cbn [placed]. constructor; [|constructor; [|constructor]].
      * unfold block_ok. repeat split; try lia; try assumption; apply T1.
      * unfold block_ok. repeat split; try lia; try apply T2.
        rewrite Zminus_mod, S2, A2. reflexivity.
    + exact Hfl'.
    + intros y. fold r. unfold nodes. cbn [placed filter snd fst map Z.eqb In].
      rewrite in_remove_iff. split.
      * intros [E|[H1 H2]]; [right; left; exact E|left]. split; [exact H1|].
        intros [E|[]]. apply H2. symmetry. exact E.
      * intros [[H1 H2]|[E|[]]]; [right|left; exact E]. split; [exact H1|].
        intros E. apply H2. left. symmetry. exact E.
    + split; [exact Hok'|]. split; [lia|]. split; [cbn [span]; lia|].
      split; [exact P1|]. cbn [span] in P2. rewrite Z.add_0_r in P2. split; [exact P2|].
      split.
      * replace (asize + 24 <=? csize) with true by (symmetry; apply Z.leb_le; lia).
        reflexivity.
      * intros Hc. apply (coalesced_place pre csize post _ Hc). left. eauto.
  - destruct (place_whole_at dm s r csize l asize Hreg Hfl Hin (conj Th Tf))
      as (s' & Hrun & Hsg & T1 & Hfl' & Hun); try lia; try assumption.
    exists s', csize, [], (remove Z.eq_dec r l).
    split; [exact Hrun|]. split; [exact Hsg|].
    destruct (heap_replace dm s s' pre [(csize, 0)] [(csize, 1)] post
                l (remove Z.eq_dec r l) (remove Z.eq_dec r l)
                (r + csize - 4) Hok Hsg HL)
      as (Hok' & P1 & P2).
    + exact Hun.
    + cbn [span]. fold r. lia.
    + reflexivity.
    + fold r. unfold blocks. cbn [placed]. constructor; [|constructor].
      unfold block_ok. repeat split; try lia; try assumption; try apply T1.
    + exact Hfl'.
    + intros y. fold r. unfold nodes. cbn [placed filter snd fst map Z.eqb In].
      rewrite in_remove_iff. split.
      * intros [H1 H2]. left. split; [exact H1|].
        intros [E|[]]. apply H2. symmetry. exact E.
      * intros [[H1 H2]|[]]. split; [exact H1|].
        intros E. apply H2. left. symmetry. exact E.
    + split; [exact Hok'|]. split; [lia|]. split; [cbn [span]; lia|].
      split; [exact P1|]. cbn [span] in P2. rewrite Z.add_0_r in P2. split; [exact P2|].
      split.
      * replace (asize + 24 <=? csize) with false by (symmetry; apply Z.leb_gt; lia).
        reflexivity.
      * intros Hc. apply (coalesced_place pre csize post _ Hc). right. eauto.
Qed.

(** ** The neighbours of a block of a well-formed heap *)

Lemma in_placed_split bs : forall bp b sz a,
  In (b, sz, a) (placed bp bs) ->
  exists pre post, bs = pre ++ (sz, a) :: post /\ b = bp + span pre.
Proof.
  induction bs as [|[sz0 a0] bs IH]; intros bp b sz a Hin; [destruct Hin|].
  cbn [placed] in Hin. destruct Hin as [E|Hin].
  - inversion E; subst. exists [], bs. split; [reflexivity|]. cbn [span]. lia.
  - destruct (IH _ _ _ _ Hin) as (pre & post & E1 & E2).
    exists ((sz0, a0) :: pre), post. split; [rewrite E1; reflexivity|].
    cbn [span]. lia.
Qed.

Lemma snoc_or_nil {A} (l : list A) : l = [] \/ exists l' x, l = l' ++ [x].
Proof. induction l using rev_ind; [left; reflexivity|right; eauto]. Qed.

Lemma bit_cases a : 0 <= a <= 1 -> a = 0 \/ a = 1.
Proof. lia. Qed.

(** the block before the block pointer at the end of [bs1]: its tags, and
    the part of [bs1] that a merge takes in *)
Lemma heap_prev dm s bs1 bs2 l :
  heap_ok dm s (bs1 ++ bs2) l ->
  let bp := mem_start_brk s + 16 + span bs1 in
  exists pre psz pa,
    bs1 = pre ++ (if pa =? 0 then [(psz, 0)] else []) /\
    (8 <= psz /\ psz mod 8 = 0 /\ 0 <= pa <= 1) /\
    mem_start_brk s <= bp - psz - 4 /\
    tagged (mem s) (bp - psz) psz pa /\
    (pa = 0 -> 24 <= psz) /\
    (pa <> 0 -> last_bit pre = 1).
Proof.
  intros Hok bp.
  destruct (snoc_or_nil bs1) as [E|(bs1' & [psz pa] & E)].
  - exists [], 8, 1. subst bs1 bp. cbn [span app Z.eqb].
    pose proof Hok as (_ & _ & Hb & _). unfold blocks in Hb. cbn [placed] in Hb.
    apply Forall_inv in Hb. destruct Hb as (_ & _ & _ & _ & Ht).
    split; [reflexivity|]. split; [repeat split; lia|]. split; [lia|].
    split; [|split; [intros E; discriminate E|intros _; reflexivity]].
    replace (mem_start_brk s + 16 + 0 - 8) with (mem_start_brk s + 8) by lia. exact Ht.
  - assert (Hin : In (mem_start_brk s + 16 + span bs1', psz, pa)
                     (placed (mem_start_brk s + 16) (bs1 ++ bs2))).
    { rewrite E, <- app_assoc. apply in_placed_mid. }
    destruct (heap_block dm s _ l _ _ _ Hok Hin)
      as ((S1 & S2 & S3 & S4 & Ht) & B1 & _).
    assert (Ebp : bp - psz = mem_start_brk s + 16 + span bs1').
    { subst bp. rewrite E, span_app. cbn [span]. lia. }
    destruct (bit_cases pa S3) as [->| ->].
    + exists bs1', psz, 0. cbn [Z.eqb].
      split; [exact E|]. split; [repeat split; lia|]. split; [lia|].
      split; [rewrite Ebp; exact Ht|]. split; [exact S4|]. intros Q. contradiction.
    + exists bs1, psz, 1. cbn [Z.eqb].
      split; [rewrite app_nil_r; reflexivity|]. split; [repeat split; lia|]. split; [lia|].
      split; [rewrite Ebp; exact Ht|]. split; [exact S4|].
      intros _. rewrite E. apply last_bit_snoc.
Qed.

(** the block after the block at the head of [(sz, a) :: bs2]: its header,
    and the part [midn] of [bs2] that a merge takes in *)
Lemma heap_next dm s bs1 sz a bs2 l :
  heap_ok dm s (bs1 ++ (sz, a) :: bs2) l ->
  let bp := mem_start_brk s + 16 + span bs1 in
  exists post nsz na,
    bs2 = (if na =? 0 then [(nsz, 0)] else []) ++ post /\
    (0 <= nsz /\ nsz mod 8 = 0 /\ 0 <= na <= 1) /\
    word (mem s) (bp + sz - 4) = PACK nsz na /\
    (na = 0 -> 24 <= nsz /\ bp + sz + nsz <= mem_brk s /\
               word (mem s) (bp + sz + nsz - 8) = PACK nsz 0) /\
    (na <> 0 -> first_bit post = 1).
Proof.
  intros Hok bp.
  destruct bs2 as [|[nsz na] bs2].
  - exists [], 0, 1. cbn [Z.eqb app].
    pose proof Hok as (_ & _ & _ & Hbrk & Hep & _).
    rewrite span_app in Hbrk. cbn [span] in Hbrk.
    split; [reflexivity|]. split; [repeat split; lia|].
    split; [|split; [intros E; discriminate E|intros _; reflexivity]].
    replace (bp + sz - 4) with (mem_brk s - 4) by (subst bp; lia). exact Hep.
  - assert (Hin : In (mem_start_brk s + 16 + span (bs1 ++ [(sz, a)]), nsz, na)
                     (placed (mem_start_brk s + 16) (bs1 ++ (sz, a) :: (nsz, na) :: bs2))).
    { replace (bs1 ++ (sz, a) :: (nsz, na) :: bs2)
        with ((bs1 ++ [(sz, a)]) ++ (nsz, na) :: bs2)
        by (rewrite <- app_assoc; reflexivity).
      apply in_placed_mid. }
    destruct (heap_block dm s _ l _ _ _ Hok Hin)
      as ((S1 & S2 & S3 & S4 & [Th Tf]) & B1 & B2 & _).
    rewrite span_app in Th, Tf, B2. cbn [span] in Th, Tf, B2.
    replace (mem_start_brk s + 16 + (span bs1 + (sz + 0))) with (bp + sz) in Th, Tf, B2
      by (subst bp; lia).
    destruct (bit_cases na S3) as [->| ->].
    + exists bs2, nsz, 0. cbn [Z.eqb app].
      split; [reflexivity|]. split; [repeat split; lia|]. split; [exact Th|].
      split; [|intros Q; contradiction].
      intros _. split; [exact (S4 eq_refl)|]. split; [exact B2|exact Tf].
    + exists ((nsz, 1) :: bs2), nsz, 1. cbn [Z.eqb app].
      split; [reflexivity|]. split; [repeat split; lia|]. split; [exact Th|].
      split; [intros E; discriminate E|intros _; reflexivity].
Qed.

(** ** mm_free on a well-formed heap *)

Lemma in_without_iff x xs : forall l, In x (without xs l) <-> In x l /\ ~ In x xs.
Proof.
  induction xs as [|q xs IH]; intros l; cbn [without fold_right In]; [tauto|].
  rewrite in_remove_iff. change (fold_right (remove Z.eq_dec) l xs) with (without xs l).
  rewrite IH. intuition congruence.
Qed.

Lemma heap_free dm s bs1 sz bs2 l :
  heap_ok dm s (bs1 ++ (sz, 1) :: bs2) l -> 24 <= sz ->
  exists s' pre midp midn post l',
    mm_free dm (mem_start_brk s + 16 + span bs1) s = Ok tt s' /\
    same_globals s s' /\
    bs1 = pre ++ midp /\ bs2 = midn ++ post /\
    Forall (fun b => snd b = 0) (midp ++ midn) /\
    heap_ok dm s' (pre ++ [(span midp + sz + span midn, 0)] ++ post) l' /\
    free_listp s' = mem_start_brk s + 16 + span pre /\
    payloads_kept (mem_start_brk s + 16) pre (mem s) (mem s') /\
    payloads_kept (mem_start_brk s + 16 + span bs1 + sz + span midn) post (mem s) (mem s') /\
    (coalesced (bs1 ++ (sz, 1) :: bs2) ->
     coalesced (pre ++ [(span midp + sz + span midn, 0)] ++ post)).
Proof.
  intros Hok Hsz.
  set (bp := mem_start_brk s + 16 + span bs1).
  destruct (heap_prev dm s bs1 ((sz, 1) :: bs2) l Hok)
    as (pre & psz & pa & E1 & P1 & P2 & P3 & P4 & P5).
  destruct (heap_next dm s bs1 sz 1 bs2 l Hok)
    as (post & nsz & na & E2 & N1 & N2 & N3 & N4).
  fold bp in P2, P3, N2, N3.
  set (midp := if pa =? 0 then [(psz, 0)] else []) in *.
  set (midn := if na =? 0 then [(nsz, 0)] else []) in *.
  pose proof (heap_block dm s _ l bp sz 1 Hok (in_placed_mid _ _ _ _ _))
    as ((S1 & S2 & _ & _ & Ht) & B1 & B2 & B3 & B4 & _ & Hfar).
  pose proof (heap_region _ _ _ _ Hok) as Hreg.
  pose proof Hok as ((R1 & R2 & R3 & R4 & R5) & Hhp & _ & Hbrk & _ & Hfl & Hl).
  assert (Hnb : neighbours s bp sz 1 psz pa nsz na).
  { assert (Hsz16 : 16 <= sz) by lia.
    exact (conj (conj Hsz16 S2) (conj P1 (conj N1 (conj (conj P2 B2)
             (conj Ht (conj P3 (conj N2 (conj P4 N3)))))))). }
  assert (Esp : span midp = (if pa =? 0 then psz else 0) /\
                span midn = (if na =? 0 then nsz else 0)).
  { subst midp midn. destruct (pa =? 0); destruct (na =? 0); cbn [span]; split; lia. }
  destruct Esp as [Esp Esn].
  assert (Er : mem_start_brk s + 16 + span pre = merged_start bp psz pa).
  { unfold merged_start. subst bp. rewrite E1, span_app, Esp.
    destruct (pa =? 0); lia. }
  assert (Et : span midp + sz + span midn = merged_size sz psz pa nsz na).
  { unfold merged_size. rewrite Esp, Esn. lia. }
  assert (Ebs : bs1 ++ (sz, 1) :: bs2 = pre ++ (midp ++ [(sz, 1)] ++ midn) ++ post).
  { rewrite E1, E2. rewrite <- !app_assoc. reflexivity. }
  assert (Enodes : nodes 0 (merged_start bp psz pa) (midp ++ [(sz, 1)] ++ midn)
                   = absorbed bp sz psz pa na).
  { unfold absorbed, merged_start. subst midp midn.
    destruct (pa =? 0); destruct (na =? 0); unfold nodes;
      cbn [app placed filter snd fst map Z.eqb]; try reflexivity.
    replace (bp - psz + psz) with bp by lia. reflexivity. }
  assert (Hspanmid : span (midp ++ [(sz, 1)] ++ midn) = merged_size sz psz pa nsz na).
  { rewrite !span_app. cbn [span]. lia. }
  assert (Hrng : mem_start_brk s + 16 <= merged_start bp psz pa /\
                 merged_start bp psz pa + merged_size sz psz pa nsz na <= mem_brk s).
  { rewrite Ebs in Hok. pose proof (heap_user_blocks _ _ _ _ Hok) as Hb.
    apply blocks_app in Hb. destruct Hb as [Hb1 Hb2].
    apply blocks_app in Hb2. destruct Hb2 as [Hb2 Hb3].
    pose proof (span_nonneg _ _ _ Hb1). pose proof (span_nonneg _ _ _ Hb3).
    rewrite Ebs, !span_app in Hbrk. rewrite <- Hspanmid, <- Er.
    rewrite !span_app. lia. }
  assert (Hms : sz <= merged_size sz psz pa nsz na).
  { unfold merged_size. destruct (pa =? 0); destruct (na =? 0); lia. }
  assert (Hgone : incl (absorbed bp sz psz pa na) l).
  { intros y Hy. apply Hl. rewrite <- Enodes in Hy. rewrite Ebs, !nodes_app.
    apply in_or_app. right. rewrite Er. apply in_or_app. left.
    rewrite !nodes_app in Hy. exact Hy. }
  assert (Hout : nodes_outside (absorbed bp sz psz pa na) l
                   (merged_start bp psz pa - 4)
                   (merged_start bp psz pa + merged_size sz psz pa nsz na - 4)).
  { unfold nodes_outside. apply Forall_forall. intros y Hy.
    destruct (in_dec Z.eq_dec y (absorbed bp sz psz pa na)) as [Ha|Ha]; [left; exact Ha|].
    right. pose proof Hy as Hy'. apply Hl in Hy. rewrite Ebs in Hy, Hok.
    rewrite !nodes_app, !in_app_iff in Hy. rewrite <- Er in *.
    pose proof (heap_user_blocks _ _ _ _ Hok) as Hb.
    apply blocks_app in Hb. destruct Hb as [Hb1 Hb2].
    apply blocks_app in Hb2. destruct Hb2 as [Hb2 Hb3].
    destruct Hy as [Hy|[Hy|Hy]].
    - apply in_nodes in Hy. destruct Hy as (sy & Hy).
      destruct (placed_bounds _ _ _ _ _ _ Hb1 Hy) as (_ & I2 & _).
      unfold blocks in Hb1. rewrite Forall_forall in Hb1.
      destruct (Hb1 _ Hy) as (_ & _ & _ & Y4 & _). specialize (Y4 eq_refl). left. lia.
    - exfalso. apply Ha. rewrite <- Enodes, !nodes_app, !in_app_iff. exact Hy.
    - apply in_nodes in Hy. destruct Hy as (sy & Hy).
      destruct (placed_bounds _ _ _ _ _ _ Hb3 Hy) as (I1 & _).
      rewrite Hspanmid in I1. right. lia. }
  destruct (mm_free_spec dm s bp sz psz pa nsz na l) as (s' & Hrun & Tg & Hfl' & Hsg & Hun);
    try assumption; [lia|lia|].
  exists s', pre, midp, midn, post,
    (merged_start bp psz pa :: without (absorbed bp sz psz pa na) l).
  split; [exact Hrun|]. split; [exact Hsg|]. split; [exact E1|]. split; [exact E2|].
  split.
  { subst midp midn. destruct (pa =? 0); destruct (na =? 0); cbn [app];
      repeat constructor. }
  rewrite Ebs in Hok.
  destruct (heap_replace dm s s' pre (midp ++ [(sz, 1)] ++ midn)
              [(span midp + sz + span midn, 0)] post l
              (merged_start bp psz pa :: without (absorbed bp sz psz pa na) l) l
              (merged_start bp psz pa + merged_size sz psz pa nsz na - 4) Hok Hsg)
    as (Hok' & K1 & K2).
  - intros y Hy. exact Hy.
  - rewrite Er. exact Hun.
  - rewrite Er, Hspanmid. lia.
  - cbn [span]. rewrite Hspanmid. lia.
  - rewrite Er, Et. unfold blocks. cbn [placed]. constructor; [|constructor].
    unfold block_ok. split; [lia|]. split; [|split; [lia|split; [lia|exact Tg]]].
    apply merged_size_mod8; tauto.
  - exact Hfl'.
  - intros y. rewrite Er, Enodes. unfold nodes.
    cbn [placed filter snd fst map Z.eqb In]. rewrite in_without_iff.
    split; [intros [E|H]; [right; left; exact E|left; exact H]|].
    intros [H|[E|[]]]; [right; exact H|left; exact E].
  - split; [exact Hok'|]. destruct Hfl' as [Hh _]. cbn [hd] in Hh.
    split; [rewrite Hh, Er; reflexivity|]. split; [exact K1|].
    rewrite Hspanmid in K2.
    split.
    + replace (bp + sz + span midn)
        with (mem_start_brk s + 16 + span pre + merged_size sz psz pa nsz na);
        [exact K2|].
      subst bp. rewrite <- Et, E1, span_app. lia.
    + intros Hc. rewrite Ebs, <- !app_assoc in Hc.
      apply (coalesced_merge pre midp (sz, 1) midn post _ Hc).
      * subst midp. destruct (pa =? 0); repeat constructor.
      * subst midn. destruct (na =? 0); repeat constructor.
      * subst midp. destruct (Z.eqb_spec pa 0); [intros Q; discriminate Q|].
        intros _. apply P5. assumption.
      * subst midn. destruct (Z.eqb_spec na 0); [intros Q; discriminate Q|].
        intros _. apply N4. assumption.
Qed.

(** ** extend_heap on a well-formed heap *)

Lemma to_int_cases x : 0 <= x < 2 ^ 32 -> 0 <= to_int x -> x < 2 ^ 31 /\ to_int x = x.
Proof.
  intros H. unfold to_int. rewrite Z.mod_small by lia.
  destruct (Z.ltb_spec x (2 ^ 31)); lia.
Qed.

Lemma heap_extend dm s bs l words :
  heap_ok dm s bs l ->
  extend_heap dm words s = Ok 0 s \/
  exists s' pre midp l',
    extend_heap dm words s = Ok (mem_start_brk s + 16 + span pre) s' /\
    bs = pre ++ midp /\ Forall (fun b => snd b = 0) midp /\
    heap_ok dm s' (pre ++ [(span midp + extend_size dm words, 0)]) l' /\
    same_globals (set_brk s (mem_brk s + extend_size dm words)) s' /\
    payloads_kept (mem_start_brk s + 16) pre (mem s) (mem s') /\
    (coalesced bs -> coalesced (pre ++ [(span midp + extend_size dm words, 0)])).
Proof.
  intros Hok.
  destruct (extend_size_aligned dm words) as [[Z1 Z2] Z3].
  set (size := extend_size dm words) in *.
  destruct (Z.lt_ge_cases (to_int size) 0) as [Hneg|Hpos];
    [left; apply extend_heap_fails; left; exact Hneg|].
  destruct (Z.lt_ge_cases (mem_max_addr s) (mem_brk s + to_int size)) as [Hfull|Hroom];
    [left; apply extend_heap_fails; right; exact Hfull|].
  right.
  destruct (to_int_cases size ltac:(lia) Hpos) as [Z4 Ei]. rewrite Ei in Hroom.
  rewrite <- (app_nil_r bs) in Hok.
  destruct (heap_prev dm s bs [] l Hok) as (pre & psz & pa & E1 & P1 & P2 & P3 & P4 & P5).
  rewrite app_nil_r in Hok.
  pose proof (heap_region _ _ _ _ Hok) as Hreg.
  pose proof Hok as ((R1 & R2 & R3 & R4 & R5) & Hhp & Hb & Hbrk & Hep & Hfl & Hl).
  set (midp := if pa =? 0 then [(psz, 0)] else []) in *.
  set (bp := mem_brk s) in *.
  replace (mem_start_brk s + 16 + span bs) with bp in P2, P3 by (subst bp; lia).
  assert (Esp : span midp = (if pa =? 0 then psz else 0)).
  { subst midp. destruct (pa =? 0); cbn [span]; lia. }
  assert (Er : mem_start_brk s + 16 + span pre = merged_start bp psz pa).
  { unfold merged_start. subst bp. rewrite Hbrk, E1, span_app, Esp.
    destruct (pa =? 0); lia. }
  assert (Et : span midp + size = merged_size size psz pa 0 1).
  { unfold merged_size. rewrite Esp. cbn [Z.eqb]. lia. }
  assert (Enodes : nodes 0 (merged_start bp psz pa) midp = absorbed bp size psz pa 1).
  { unfold absorbed, merged_start. subst midp. cbn [Z.eqb]. rewrite app_nil_r.
    destruct (pa =? 0); reflexivity. }
  pose proof (heap_user_blocks _ _ _ _ Hok) as Hub.
  rewrite E1 in Hub. apply blocks_app in Hub. destruct Hub as [Hb1 Hb2].
  pose proof (span_nonneg _ _ _ Hb1) as Spre.
  assert (Hgone : incl (absorbed bp size psz pa 1) l).
  { intros y Hy. apply Hl. rewrite <- Enodes in Hy. rewrite E1, nodes_app.
    apply in_or_app. right. rewrite Er. exact Hy. }
  assert (Hout : Forall (fun x => In x (absorbed bp size psz pa 1) \/
                                  x + 16 <= merged_start bp psz pa - 8) l).
  { apply Forall_forall. intros y Hy.
    apply Hl in Hy. rewrite E1, nodes_app, in_app_iff in Hy.
    destruct Hy as [Hy|Hy].
    - right. apply in_nodes in Hy. destruct Hy as (sy & Hy).
      destruct (placed_bounds _ _ _ _ _ _ Hb1 Hy) as (_ & I2 & _).
      unfold blocks in Hb1. rewrite Forall_forall in Hb1.
      destruct (Hb1 _ Hy) as (_ & _ & _ & Y4 & _). specialize (Y4 eq_refl). lia.
    - left. rewrite <- Enodes, <- Er. exact Hy. }
  pose proof (extend_heap_spec dm s words l psz pa) as HE. cbv zeta in HE.
  fold size bp in HE.
  destruct HE as (s' & Hrun & Hr & Hbrk' & _ & _ & Tg & Hend & Hep' & Hfl' & Hsg & Hun);
    try assumption; try lia.
  { rewrite <- Et. rewrite E1, span_app in Hbrk. lia. }
  exists s', pre, midp, (merged_start bp psz pa :: without (absorbed bp size psz pa 1) l).
  rewrite Er. split; [exact Hrun|]. split; [exact E1|].
  split; [subst midp; destruct (pa =? 0); repeat constructor|].
  pose proof Hsg as (G1 & G2 & G3 & G4 & _). fields.
  assert (E0 : (8, 1) :: bs = ((8, 1) :: pre) ++ midp ++ []).
  { rewrite app_nil_r, E1. reflexivity. }
  assert (E8 : mem_start_brk s + 8 + span ((8, 1) :: pre) = merged_start bp psz pa).
  { cbn [span]. lia. }
  rewrite E0 in Hb.
  destruct (blocks_around (mem s) (mem s') l (mem_start_brk s + 8) ((8, 1) :: pre) midp []
              (merged_start bp psz pa + merged_size size psz pa 0 1) Hb)
    as (Kpre & _ & Ppre & _).
  { intros y Hy. rewrite <- E0, nodes_prologue. apply Hl. exact Hy. }
  { rewrite E8. exact Hun. }
  { left. reflexivity. }
  split; [|split; [exact Hsg|split]].
  - unfold heap_ok. rewrite G1, G2, G3, G4.
    split; [repeat split; try assumption; lia|]. split; [exact Hhp|].
    split; [|split; [|split; [|split]]].
    + change ((8, 1) :: pre ++ [(span midp + size, 0)])
        with (((8, 1) :: pre) ++ [(span midp + size, 0)]).
      apply blocks_app. split; [exact Kpre|]. rewrite E8, Et.
      unfold blocks. cbn [placed]. constructor; [|constructor].
      unfold block_ok. rewrite <- Et at 1 2 3.
      pose proof (span_nonneg _ _ _ Hb2) as Sm.
      split; [lia|]. split; [|split; [lia|split; [lia|exact Tg]]].
      apply mul8_add; [|exact Z3]. rewrite Esp. destruct (pa =? 0); [tauto|reflexivity].
    + rewrite span_app. cbn [span]. rewrite Hbrk, E1, span_app. lia.
    + rewrite <- G2. exact Hep'.
    + exact Hfl'.
    + intros y. rewrite nodes_app, in_app_iff. rewrite Er, Et.
      unfold nodes at 2. cbn [placed filter snd fst map Z.eqb In].
      rewrite in_without_iff, Hl, E1, nodes_app, in_app_iff, Er, Enodes.
      split.
      * intros [E|[[H|H] Hn]]; [right; left; exact E|left; exact H|contradiction].
      * intros [H|[E|[]]]; [right|left; exact E].
        split; [left; exact H|]. intros Hm. rewrite <- Enodes, <- Er in Hm.
        eapply parts_disjoint; [|exact H|exact Hm].
        apply blocks_app. split; [exact Hb1|exact Hb2].
  - intros b sz x He Hx. apply (Ppre b sz x); [|exact Hx].
    cbn [placed]. right. replace (mem_start_brk s + 8 + 8) with (mem_start_brk s + 16) by lia.
    exact He.
  - intros Hc. rewrite E1 in Hc. apply (coalesced_extend pre midp _ Hc).
    + subst midp. destruct (pa =? 0); repeat constructor.
    + subst midp. destruct (Z.eqb_spec pa 0); [intros Q; discriminate Q|].
      intros _. apply P5. assumption.
Qed.

(** ** What the steps of mm_malloc keep *)

Lemma allocated_kept_refl bp bs m : allocated_kept bp bs m bs m.
Proof. intros b sz H. split; [exact H|reflexivity]. Qed.

Lemma allocated_kept_trans bp bs1 m1 bs2 m2 bs3 m3 :
  allocated_kept bp bs1 m1 bs2 m2 -> allocated_kept bp bs2 m2 bs3 m3 ->
  allocated_kept bp bs1 m1 bs3 m3.
Proof.
  intros H1 H2 b sz Hin. destruct (H1 b sz Hin) as [I1 K1].
  destruct (H2 b sz I1) as [I2 K2]. split; [exact I2|].
  intros x Hx. rewrite (K2 x Hx). apply K1. exact Hx.
Qed.

Lemma allocated_kept_parts bp pre mid mid' post m m' :
  Forall (fun b => snd b = 0) mid -> post = [] \/ span mid' = span mid ->
  payloads_kept bp pre m m' ->
  payloads_kept (bp + span pre + span mid) post m m' ->
  allocated_kept bp (pre ++ mid ++ post) m (pre ++ mid' ++ post) m'.
Proof.
  intros Hfree Hspan P1 P2 b sz Hin.
  rewrite !placed_app, !in_app_iff in Hin. rewrite !placed_app, !in_app_iff.
  destruct Hin as [Hin|[Hin|Hin]].
  - split; [left; exact Hin|]. intros x Hx. apply (P1 b sz x Hin Hx).
  - exfalso. clear - Hfree Hin. revert Hin. generalize (bp + span pre).
    induction mid as [|[sz0 a0] mid IH]; intros q Hin; [destruct Hin|].
    apply Forall_cons_iff in Hfree. destruct Hfree as [F1 F2]. cbn in F1. subst a0.
    cbn [placed] in Hin. destruct Hin as [E|Hin]; [discriminate E|].
    apply (IH F2 _ Hin).
  - destruct Hspan as [->|Hspan]; [destruct Hin|]. rewrite Hspan.
    split; [right; right; exact Hin|]. intros x Hx. apply (P2 b sz x Hin Hx).
Qed.

(** ** The size extend_heap is asked for *)

Lemma extend_size_mul8 dm x :
  x mod 8 = 0 -> 0 <= x < 2 ^ 32 ->
  extend_size dm (x / 4) = (if x <? 24 then 24 else x).
Proof.
  intros H8 Hx. unfold extend_size.
  pose proof (Z.div_mod x 8 ltac:(lia)) as D. rewrite H8 in D.
  assert (E4 : x / 4 = 2 * (x / 8)).
  { symmetry. apply Z.div_unique with (r := 0); lia. }
  rewrite E4.
  replace ((2 * (x / 8)) mod 2) with 0
    by (symmetry; rewrite Z.mul_comm; apply Z.mod_mul; lia).
  change (nonzero 0) with false. cbv iota. unfold WSIZE.
  replace (2 * (x / 8) * 4) with x by lia.
  rewrite size_t_small by lia. unfold u32. rewrite Z.mod_small by lia. reflexivity.
Qed.

Lemma bypass_size dm asize :
  16 <= asize < 2 ^ 31 -> asize mod 8 = 0 ->
  asize <= extend_size dm (to_size_t dm (Z.quot (to_int (MAX asize (4 * WSIZE))) 4)).
Proof.
  intros Ha H8.
  assert (EM : MAX asize (4 * WSIZE) = asize).
  { unfold MAX, WSIZE. destruct (Z.gtb_spec asize (4 * 4)); lia. }
  rewrite EM, to_int_small by lia.
  rewrite Z.quot_div_nonneg by lia.
  rewrite size_t_small.
  - rewrite extend_size_mul8 by lia. destruct (Z.ltb_spec asize 24); lia.
  - split; [apply Z.div_pos; lia|]. apply Z.div_lt_upper_bound; lia.
Qed.

Lemma chunk_size dm asize :
  16 <= asize < 2 ^ 31 -> asize mod 8 = 0 ->
  asize <= extend_size dm (MAX asize CHUNKSIZE / WSIZE).
Proof.
  intros Ha H8. change CHUNKSIZE with 65536. unfold WSIZE.
  assert (EM : (MAX asize 65536) mod 8 = 0 /\ asize <= MAX asize 65536 < 2 ^ 31).
  { unfold MAX. destruct (Z.gtb_spec asize 65536); [split; [exact H8|lia]|].
    split; [reflexivity|lia]. }
  destruct EM as [M1 M2].
  rewrite extend_size_mul8 by lia. destruct (Z.ltb_spec (MAX asize 65536) 24); lia.
Qed.

(** ** find_fit on a well-formed heap *)

Lemma first_fit_split (m : memory) (asize : Z) (l : list Z) :
  Forall (fun y => block_size m y < asize) l \/
  exists l1 x l2, l = l1 ++ x :: l2 /\
    Forall (fun y => block_size m y < asize) l1 /\ asize <= block_size m x.
Proof.
  induction l as [|y l IH]; [left; constructor|].
  destruct (Z.lt_ge_cases (block_size m y) asize) as [Hy|Hy].
  - destruct IH as [IH|(l1 & x & l2 & E & H1 & H2)].
    + left. constructor; assumption.
    + right. exists (y :: l1), x, l2. split; [rewrite E; reflexivity|].
      split; [constructor; assumption|exact H2].
  - right. exists [], y, l. split; [reflexivity|]. split; [constructor|lia].
Qed.

Lemma heap_free_node dm s bs l y :
  heap_ok dm s bs l -> In y l ->
  mem_start_brk s <= y - 4 /\
  In (y, block_size (mem s) y, 0) (placed (mem_start_brk s + 16) bs).
Proof.
  intros Hok Hy. pose proof Hok as (_ & _ & _ & _ & _ & _ & Hl).
  apply Hl in Hy. apply in_nodes in Hy. destruct Hy as (sy & Hy).
  destruct (heap_block dm s bs l y sy 0 Hok Hy) as ((S1 & S2 & _ & _ & [Th _]) & B1 & _).
  split; [lia|]. unfold block_size. rewrite Th, size_of_PACK by lia. exact Hy.
Qed.

Lemma heap_scan dm s bs l asize :
  heap_ok dm s bs l ->
  ~ (ff_size s = to_int asize /\ 40 < ff_count s) ->
  16 <= asize < 2 ^ 31 -> asize mod 8 = 0 ->
  exists r s' bs' l',
    find_fit dm asize s = Ok r s' /\ heap_ok dm s' bs' l' /\
    mem_start_brk s' = mem_start_brk s /\
    allocated_kept (mem_start_brk s + 16) bs (mem s) bs' (mem s') /\
    (coalesced bs -> coalesced bs') /\
    (r = 0 /\ bs' = bs /\ mem_brk s' = mem_brk s /\ mem s' = mem s \/
     exists pre csize post,
       bs' = pre ++ (csize, 0) :: post /\ r = mem_start_brk s + 16 + span pre /\
       asize <= csize).
Proof.
  intros Hok Hby Ha H8.
  pose proof Hok as (_ & _ & _ & _ & _ & Hfl & Hl).
  assert (Hhdr : forall l0, (forall y, In y l0 -> In y l) ->
            Forall (fun y => block_size (mem s) y < asize) l0 ->
            Forall (fun y => mem_start_brk s <= y - 4 /\ block_size (mem s) y < asize) l0).
  { intros l0 Hsub H0. apply Forall_forall. intros y Hy. rewrite Forall_forall in H0.
    split; [|apply H0; exact Hy].
    apply (heap_free_node dm s bs l y Hok). apply Hsub. exact Hy. }
  destruct (first_fit_split (mem s) asize l) as [Hnone|(l1 & x & l2 & E & H1 & H2)].
  - exists 0, (set_ff_count s (next_count s asize)), bs, l.
    split; [apply (find_fit_none dm s l asize Hfl); [|exact Hby]|].
    { apply Hhdr; [tauto|exact Hnone]. }
    split; [exact Hok|]. split; [reflexivity|]. split; [apply allocated_kept_refl|].
    split; [tauto|]. left. repeat split.
  - assert (Hx : In x l) by (rewrite E; apply in_or_app; right; left; reflexivity).
    destruct (heap_free_node dm s bs l x Hok Hx) as [X1 X2].
    exists x, (set_ff_size (set_ff_count s (next_count s asize)) (to_int asize)), bs, l.
    split.
    { rewrite E in Hfl. apply (find_fit_first dm s l1 x l2 asize Hfl); try assumption.
      apply Hhdr; [|exact H1]. intros y Hy. rewrite E. apply in_or_app. left. exact Hy. }
    split; [exact Hok|]. split; [reflexivity|]. split; [apply allocated_kept_refl|].
    split; [tauto|].
    right. destruct (in_placed_split _ _ _ _ _ X2) as (pre & post & E1 & E2).
    exists pre, (block_size (mem s) x), post. split; [exact E1|]. split; [exact E2|exact H2].
Qed.

Lemma heap_find_fit dm s bs l asize :
  heap_ok dm s bs l -> 16 <= asize < 2 ^ 31 -> asize mod 8 = 0 ->
  exists r s' bs' l',
    find_fit dm asize s = Ok r s' /\ heap_ok dm s' bs' l' /\
    mem_start_brk s' = mem_start_brk s /\
    allocated_kept (mem_start_brk s + 16) bs (mem s) bs' (mem s') /\
    (coalesced bs -> coalesced bs') /\
    (r = 0 /\ bs' = bs /\ mem_brk s' = mem_brk s /\ mem s' = mem s \/
     exists pre csize post,
       bs' = pre ++ (csize, 0) :: post /\ r = mem_start_brk s + 16 + span pre /\
       asize <= csize).
Proof.
  intros Hok Ha H8.
  pose proof Hok as (_ & _ & _ & _ & _ & Hfl & Hl).
  destruct (Z.eq_dec (ff_size s) (to_int asize)) as [By1|By1];
    [destruct (Z_lt_dec 40 (ff_count s)) as [By2|By2]|].
  - (* the bypass *)
    assert (Ef : find_fit dm asize s =
                 extend_heap dm (to_size_t dm (Z.quot (to_int (MAX asize (4 * WSIZE))) 4)) s).
    { unfold find_fit. rewrite !run_gets.
      replace (ff_size s =? to_int asize) with true by (symmetry; apply Z.eqb_eq; exact By1).
      replace (ff_count s >? 40) with true
        by (symmetry; rewrite Z.gtb_ltb; apply Z.ltb_lt; exact By2).
      reflexivity. }
    rewrite Ef.
    pose proof (bypass_size dm asize Ha H8) as Hsz.
    set (words := to_size_t dm (Z.quot (to_int (MAX asize (4 * WSIZE))) 4)) in *.
    destruct (heap_extend dm s bs l words Hok)
      as [Hfail|(s' & pre & midp & l' & Hrun & E & Hfree & Hok' & Hsg & Hkept & Hco)].
    + exists 0, s, bs, l. split; [exact Hfail|]. split; [exact Hok|].
      split; [reflexivity|]. split; [apply allocated_kept_refl|].
      split; [tauto|]. left. repeat split.
    + exists (mem_start_brk s + 16 + span pre), s',
        (pre ++ [(span midp + extend_size dm words, 0)]), l'.
      split; [exact Hrun|]. split; [exact Hok'|].
      destruct Hsg as (G1 & _). split; [exact G1|].
      split.
      * rewrite E. rewrite <- (app_nil_r midp) at 1.
        rewrite <- (app_nil_r [(span midp + extend_size dm words, 0)]).
        apply allocated_kept_parts.
        -- exact Hfree.
        -- left. reflexivity.
        -- exact Hkept.
        -- intros b sz x [].
      * split; [exact Hco|].
        right. exists pre, (span midp + extend_size dm words), [].
        split; [reflexivity|]. split; [reflexivity|].
        pose proof (heap_user_blocks _ _ _ _ Hok) as Hb. rewrite E in Hb.
        apply blocks_app in Hb. destruct Hb as [_ Hb].
        pose proof (span_nonneg _ _ _ Hb). lia.
  - apply (heap_scan dm s bs l asize Hok); [|exact Ha|exact H8]. lia.
  - apply (heap_scan dm s bs l asize Hok); [|exact Ha|exact H8]. tauto.
Qed.

(** ** mm_malloc on a well-formed heap *)

Lemma adjust_size_range dm n :
  0 < n -> n + 15 < 2 ^ 31 ->
  16 <= adjust_size dm n < 2 ^ 31 /\ adjust_size dm n mod 8 = 0 /\
  n + 8 <= adjust_size dm n.
Proof.
  intros H1 H2.
  destruct (adjust_size_bounds dm n H1 ltac:(lia)) as (B1 & B2 & B3).
  split; [|split; assumption]. split; [exact B1|].
  rewrite adjust_size_small by lia.
  destruct (n <=? 8); [lia|].
  pose proof (Z.mul_div_le (n + 15) 8 ltac:(lia)). lia.
Qed.

(** placing into the free block that find_fit or extend_heap has found *)
Lemma heap_place_found dm s0 bs0 s l pre csize post asize n :
  heap_ok dm s (pre ++ (csize, 0) :: post) l ->
  mem_start_brk s = mem_start_brk s0 ->
  allocated_kept (mem_start_brk s0 + 16) bs0 (mem s0) (pre ++ (csize, 0) :: post) (mem s) ->
  16 <= asize -> asize mod 8 = 0 -> asize <= csize -> n + 8 <= asize ->
  exists s' bs' l',
    place dm (mem_start_brk s0 + 16 + span pre) asize s = Ok tt s' /\
    heap_ok dm s' bs' l' /\
    mem_start_brk s' = mem_start_brk s0 /\ mem_brk s' = mem_brk s /\
    allocated_kept (mem_start_brk s0 + 16) bs0 (mem s0) bs' (mem s') /\
    exists pre' bsz post',
      bs' = pre' ++ (bsz, 1) :: post' /\
      mem_start_brk s0 + 16 + span pre = mem_start_brk s0 + 16 + span pre' /\
      n + 8 <= bsz /\
      ~ In (mem_start_brk s0 + 16 + span pre) (nodes 1 (mem_start_brk s0 + 16) bs0) /\
      (coalesced (pre ++ (csize, 0) :: post) -> coalesced bs').
Proof.
  intros Hok Hlo Hkept A1 A2 A3 A4.
  destruct (heap_place dm s pre csize post l asize Hok A1 A2 A3)
    as (s' & bsz & rest & l' & Hrun & Hsg & Hok' & B1 & B2 & P1 & P2 & _ & Hco).
  rewrite Hlo in *.
  exists s', (pre ++ ((bsz, 1) :: rest) ++ post), l'.
  split; [exact Hrun|]. split; [exact Hok'|].
  destruct Hsg as (G1 & G2 & _).
  split; [congruence|]. split; [exact G2|]. split.
  - eapply allocated_kept_trans; [exact Hkept|].
    change (pre ++ (csize, 0) :: post) with (pre ++ [(csize, 0)] ++ post).
    apply allocated_kept_parts.
    + repeat constructor.
    + right. cbn [span]. lia.
    + exact P1.
    + cbn [span]. rewrite Z.add_0_r. exact P2.
  - exists pre, bsz, (rest ++ post). split; [reflexivity|]. split; [reflexivity|].
    split; [lia|]. split; [|exact Hco].
    intros Hin. apply in_nodes in Hin. destruct Hin as (sz & Hin).
    destruct (Hkept _ _ Hin) as [Hin' _].
    pose proof (heap_user_blocks _ _ _ _ Hok) as Hb. rewrite Hlo in Hb.
    destruct (placed_disjoint _ _ _ _ _ _ _ _ _ Hb Hin' (in_placed_mid _ pre csize 0 post))
      as [E|[D|D]].
    + discriminate E.
    + destruct (placed_bounds _ _ _ _ _ _ Hb Hin') as (_ & _ & I3). lia.
    + destruct (placed_bounds _ _ _ _ _ _ Hb (in_placed_mid _ pre csize 0 post))
        as (_ & _ & I3). lia.
Qed.

Lemma heap_malloc dm s bs l n :
  heap_ok dm s bs l -> 0 < n -> n + 15 < 2 ^ 31 ->
  exists r s' bs' l',
    mm_malloc dm n s = Ok r s' /\ heap_ok dm s' bs' l' /\
    mem_start_brk s' = mem_start_brk s /\
    allocated_kept (mem_start_brk s + 16) bs (mem s) bs' (mem s') /\
    (coalesced bs -> coalesced bs') /\
    (r = 0 /\ bs' = bs /\ mem_brk s' = mem_brk s /\ mem s' = mem s \/
     exists pre bsz post,
       bs' = pre ++ (bsz, 1) :: post /\ r = mem_start_brk s + 16 + span pre /\
       n + 8 <= bsz /\ ~ In r (nodes 1 (mem_start_brk s + 16) bs)).
Proof.
  intros Hok N1 N2.
  destruct (adjust_size_range dm n N1 N2) as (A1 & A2 & A3).
  set (asize := adjust_size dm n) in *.
  pose proof Hok as ((R1 & _) & Hhp & _).
  assert (Hrun0 : mm_malloc dm n s =
            (bp <- find_fit dm asize ;;
             if nonzero bp then place dm bp asize ;;; ret bp
             else
               bp <- extend_heap dm (MAX asize CHUNKSIZE / WSIZE) ;;
               if bp =? 0 then ret 0 else place dm bp asize ;;; ret bp) s).
  { unfold mm_malloc. rewrite run_gets, nonzero_true, run_ret by lia.
    replace (n <=? 0) with false by (symmetry; apply Z.leb_gt; lia). reflexivity. }
  rewrite Hrun0. clear Hrun0.
  destruct (heap_find_fit dm s bs l asize Hok A1 A2)
    as (r & s1 & bs1 & l1 & Hff & Hok1 & Hlo1 & Hk1 & Hco1 & Hres).
  rewrite (run_ok _ _ _ _ _ Hff).
  destruct Hres as [(-> & -> & Hbrk1 & Hmem1)|(pre & csize & post & -> & -> & Hfit)].
  - (* no fit: extend the heap *)
    change (nonzero 0) with false. cbv iota.
    pose proof (chunk_size dm asize A1 A2) as Hsz.
    set (words := MAX asize CHUNKSIZE / WSIZE) in *.
    destruct (heap_extend dm s1 bs l1 words Hok1)
      as [Hfail|(s2 & pre & midp & l2 & Hrun & E & Hfree & Hok2 & Hsg & Hkept & Hco2)].
    + rewrite (run_ok _ _ _ _ _ Hfail). change (0 =? 0) with true. cbv iota.
      exists 0, s1, bs, l1. split; [reflexivity|]. split; [exact Hok1|].
      split; [exact Hlo1|]. split; [exact Hk1|]. split; [exact Hco1|].
      left. repeat split; assumption.
    + rewrite (run_ok _ _ _ _ _ Hrun). rewrite Hlo1 in *.
      pose proof (heap_user_blocks _ _ _ _ Hok1) as Hb. rewrite Hlo1, E in Hb.
      apply blocks_app in Hb. destruct Hb as [Hb1 Hb2].
      pose proof (span_nonneg _ _ _ Hb1). pose proof (span_nonneg _ _ _ Hb2).
      replace (mem_start_brk s + 16 + span pre =? 0) with false
        by (symmetry; apply Z.eqb_neq; lia).
      destruct Hsg as (G1 & _). fields.
      destruct (heap_place_found dm s bs s2 l2 pre
                  (span midp + extend_size dm words) [] asize n)
        as (s' & bs' & l' & Hpl & Hok' & Hlo' & _ & Hk' & pre' & bsz & post' & E1 & E2 & E3 & E4
            & Hco');
        try assumption; try lia.
      { eapply allocated_kept_trans; [exact Hk1|].
        rewrite E. rewrite <- (app_nil_r midp) at 1.
        rewrite <- (app_nil_r [(span midp + extend_size dm words, 0)]).
        apply allocated_kept_parts.
        - exact Hfree.
        - left. reflexivity.
        - exact Hkept.
        - intros b sz x []. }
      rewrite (run_ok _ _ _ _ _ Hpl).
      exists (mem_start_brk s + 16 + span pre), s', bs', l'.
      split; [reflexivity|]. split; [exact Hok'|]. split; [exact Hlo'|].
      split; [exact Hk'|]. split; [intros Hc; apply Hco', Hco2; exact Hc|].
      right. exists pre', bsz, post'.
      split; [exact E1|]. split; [exact E2|]. split; [exact E3|exact E4].
  - (* a fit, from the list or from the bypass *)
    pose proof (heap_user_blocks _ _ _ _ Hok1) as Hb. rewrite Hlo1 in Hb.
    apply blocks_app in Hb. destruct Hb as [Hb1 _].
    pose proof (span_nonneg _ _ _ Hb1).
    rewrite nonzero_true by lia.
    destruct (heap_place_found dm s bs s1 l1 pre csize post asize n)
      as (s' & bs' & l' & Hpl & Hok' & Hlo' & _ & Hk' & pre' & bsz & post' & E1 & E2 & E3 & E4
          & Hco');
      try assumption; try lia.
    rewrite (run_ok _ _ _ _ _ Hpl).
    exists (mem_start_brk s + 16 + span pre), s', bs', l'.
    split; [reflexivity|]. split; [exact Hok'|]. split; [exact Hlo'|].
    split; [exact Hk'|]. split; [intros Hc; apply Hco', Hco1; exact Hc|].
    right. exists pre', bsz, post'.
    split; [exact E1|]. split; [exact E2|]. split; [exact E3|exact E4].
Qed.

(** ** mm_init sets up a well-formed heap *)

Lemma mm_init_heap dm base max_heap m0 :
  0 < base -> base mod 8 = 0 ->
  16 + CHUNKSIZE <= max_heap < 2 ^ 32 -> base + max_heap <= 2 ^ (8 * PSIZE dm) ->
  exists s', mm_init dm (boot base max_heap m0) = Ok 0 s' /\
    heap_ok dm s' [(CHUNKSIZE, 0)] [base + 16] /\
    mem_start_brk s' = base /\ mem_brk s' = base + 16 + CHUNKSIZE /\
    ff_size s' = 0 /\ ff_count s' = 0.
Proof.
  intros Hb H8 Hm Hmax.
  destruct (mm_init_spec dm base max_heap m0 Hb ltac:(lia) Hmax)
    as (s' & Hrun & (I1 & I2 & I3 & I4) & (I5 & I6) & Tp & Tb & Hep & Hfl).
  exists s'. split; [exact Hrun|].
  split; [|repeat split; assumption].
  assert (HC : CHUNKSIZE = 65536) by reflexivity.
  unfold heap_ok. rewrite I1, I2, I3, I4.
  split; [repeat split; try assumption; lia|]. split; [reflexivity|].
  split; [|split; [|split; [|split]]].
  - unfold blocks. cbn [placed]. constructor; [|constructor; [|constructor]].
    + unfold block_ok. repeat split; try lia; try apply Tp.
    + replace (base + 8 + 8) with (base + 16) by lia.
      unfold block_ok. rewrite HC in *. repeat split; try lia; apply Tb.
  - cbn [span]. lia.
  - exact Hep.
  - exact Hfl.
  - intros y. unfold nodes. cbn [placed filter snd fst map Z.eqb]. reflexivity.
Qed.

(** ** Writing between the tags of an allocated block *)

Lemma heap_ok_payload dm s bs l b sz m' :
  heap_ok dm s bs l -> In (b, sz, 1) (placed (mem_start_brk s + 16) bs) ->
  (forall x, x < b \/ b + sz - 8 <= x -> m' x = mem s x) ->
  heap_ok dm (set_mem s m') bs l /\
  (forall b' sz' x, In (b', sz', 1) (placed (mem_start_brk s + 16) bs) -> b' <> b ->
                    b' <= x < b' + sz' - 8 -> m' x = mem s x).
Proof.
  intros Hok Hin Hm.
  pose proof Hok as (Hr & Hhp & Hb & Hbrk & Hep & Hfl & Hl).
  pose proof (heap_user_blocks _ _ _ _ Hok) as Hub.
  destruct (heap_block dm s bs l b sz 1 Hok Hin) as ((S1 & _) & B1 & B2 & _ & _ & _ & Hfar).
  assert (Hw : forall z, z + 4 <= b \/ b + sz - 8 <= z -> word m' z = word (mem s) z).
  { intros z Hz. unfold word. apply le_load_ext. intros x Hx. apply Hm. lia. }
  assert (Hother : forall b' sz' a', In (b', sz', a') (placed (mem_start_brk s + 8) ((8, 1) :: bs)) ->
            (b', sz', a') = (b, sz, 1) \/ b' + sz' <= b \/ b + sz <= b').
  { intros b' sz' a' H'.
    apply (placed_disjoint (mem s) _ _ _ _ _ _ _ _ Hb H').
    cbn [placed]. right. replace (mem_start_brk s + 8 + 8) with (mem_start_brk s + 16) by lia.
    exact Hin. }
  split.
  - unfold heap_ok. fields.
    split; [exact Hr|]. split; [exact Hhp|].
    split; [|split; [exact Hbrk|split; [|split; [|exact Hl]]]].
    + unfold blocks in *. rewrite Forall_forall in *. intros [[b' sz'] a'] H'.
      destruct (Hb _ H') as (T1 & T2 & T3 & T4 & [Th Tf]).
      unfold block_ok, tagged. repeat (split; [assumption|]).
      destruct (Hother _ _ _ H') as [E|[D|D]].
      * inversion E; subst. rewrite !Hw by lia. split; assumption.
      * rewrite !Hw by lia. split; assumption.
      * rewrite !Hw by lia. split; assumption.
    + rewrite Hw by lia. exact Hep.
    + destruct Hfl as (F1 & F2 & F3 & F4). unfold free_list. fields.
      split; [exact F1|]. split; [|split; assumption].
      eapply dseg_frame; [|exact F2]. intros z Hz.
      assert (Hz' : z + 24 <= b \/ b + sz <= z).
      { apply Hfar; [exact Hz|]. intros ->.
        apply Hl in Hz. apply in_nodes in Hz. destruct Hz as (sz0 & Hz).
        destruct (placed_bounds _ _ _ _ _ _ Hub Hz) as (_ & _ & I3).
        destruct (placed_disjoint _ _ _ _ _ _ _ _ _ Hub Hz Hin) as [E|[D|D]];
          [discriminate E|lia|lia]. }
      pose proof (pbytes_bound dm) as [Pb1 Pb2].
      unfold link, DSIZE. split; apply le_load_ext; intros x Hx; apply Hm; lia.
  - intros b' sz' x H' Hne Hx. apply Hm.
    destruct (placed_disjoint _ _ _ _ _ _ _ _ _ Hub H' Hin) as [E|[D|D]].
    + inversion E. contradiction.
    + left. destruct (placed_bounds _ _ _ _ _ _ Hub H') as (_ & _ & I3). lia.
    + right. lia.
Qed.

(** ** mm_free, in terms of the blocks *)

Lemma free_part_no_alloc mid : Forall (fun b : Z * Z => snd b = 0) mid ->
  forall q b sz, ~ In (b, sz, 1) (placed q mid).
Proof.
  induction mid as [|[sz0 a0] mid IH]; intros Hfree q b sz Hin; [destruct Hin|].
  apply Forall_cons_iff in Hfree. destruct Hfree as [F1 F2]. cbn in F1. subst a0.
  cbn [placed] in Hin. destruct Hin as [E|Hin]; [discriminate E|].
  apply (IH F2 _ _ _ Hin).
Qed.

Lemma heap_free_sound dm s bs l bp sz :
  heap_ok dm s bs l -> In (bp, sz, 1) (placed (mem_start_brk s + 16) bs) -> 24 <= sz ->
  exists s' bs' l',
    mm_free dm bp s = Ok tt s' /\ heap_ok dm s' bs' l' /\ same_globals s s' /\
    (exists fsz, In (free_listp s', fsz, 0) (placed (mem_start_brk s + 16) bs') /\
                 free_listp s' <= bp /\ bp + sz <= free_listp s' + fsz) /\
    (forall b sz', In (b, sz', 1) (placed (mem_start_brk s + 16) bs) -> b <> bp ->
       In (b, sz', 1) (placed (mem_start_brk s + 16) bs') /\
       forall x, b <= x < b + sz' - 8 -> mem s' x = mem s x) /\
    (forall b sz', In (b, sz', 1) (placed (mem_start_brk s + 16) bs') ->
       In (b, sz', 1) (placed (mem_start_brk s + 16) bs) /\ b <> bp) /\
    (coalesced bs -> coalesced bs').
Proof.
  intros Hok Hin Hsz.
  destruct (in_placed_split _ _ _ _ _ Hin) as (bs1 & bs2 & -> & ->).
  destruct (heap_free dm s bs1 sz bs2 l Hok Hsz)
    as (s' & pre & midp & midn & post & l' & Hrun & Hsg & E1 & E2 & Hfree & Hok' & Hh & K1 & K2
        & Hco).
  set (B := mem_start_brk s + 16) in *.
  apply Forall_app in Hfree. destruct Hfree as [Fp Fn].
  pose proof (heap_user_blocks _ _ _ _ Hok) as Hb. fold B in Hb.
  assert (Eold : bs1 ++ (sz, 1) :: bs2 = pre ++ midp ++ [(sz, 1)] ++ midn ++ post).
  { rewrite E1, E2, <- !app_assoc. reflexivity. }
  rewrite Eold in Hb.
  pose proof Hb as Hb'.
  apply blocks_app in Hb'. destruct Hb' as [Bpre Hb'].
  apply blocks_app in Hb'. destruct Hb' as [Bmidp Hb'].
  apply blocks_app in Hb'. destruct Hb' as [Bself Hb'].
  apply blocks_app in Hb'. destruct Hb' as [Bmidn Bpost].
  pose proof (span_nonneg _ _ _ Bpre) as Spre.
  pose proof (span_nonneg _ _ _ Bmidp) as Smidp.
  pose proof (span_nonneg _ _ _ Bmidn) as Smidn.
  assert (Ebp : B + span bs1 = B + span pre + span midp) by (rewrite E1, span_app; lia).
  exists s', (pre ++ [(span midp + sz + span midn, 0)] ++ post), l'.
  split; [exact Hrun|]. split; [exact Hok'|]. split; [exact Hsg|].
  split; [|split; [|split; [|exact Hco]]].
  - exists (span midp + sz + span midn). rewrite Hh. fold B.
    split; [apply in_placed_mid|]. lia.
  - intros b sz' Hb1 Hne. rewrite Eold in Hb1.
    rewrite !placed_app, !in_app_iff in Hb1. rewrite !placed_app, !in_app_iff.
    cbn [span] in *.
    destruct Hb1 as [H|[H|[H|[H|H]]]].
    + split; [left; exact H|]. intros x Hx. apply (K1 b sz' x H Hx).
    + exfalso. apply (free_part_no_alloc midp Fp _ _ _ H).
    + cbn [placed In] in H. destruct H as [H|[]]. inversion H. exfalso. apply Hne. lia.
    + exfalso. apply (free_part_no_alloc midn Fn _ _ _ H).
    + replace (B + span pre + (span midp + sz + span midn + 0))
        with (B + span pre + span midp + (sz + 0) + span midn) by lia.
      split; [right; right; exact H|]. intros x Hx.
      apply (K2 b sz' x); [|exact Hx].
      replace (B + span bs1 + sz + span midn)
        with (B + span pre + span midp + (sz + 0) + span midn) by lia. exact H.
  - intros b sz' Hb1. rewrite Eold.
    rewrite !placed_app, !in_app_iff in Hb1. rewrite !placed_app, !in_app_iff.
    cbn [span] in *.
    destruct Hb1 as [H|[H|H]].
    + split; [left; exact H|].
      destruct (placed_bounds _ _ _ _ _ _ Bpre H) as (_ & I2 & I3). lia.
    + cbn [placed In] in H. destruct H as [H|[]]. discriminate H.
    + replace (B + span pre + (span midp + sz + span midn + 0))
        with (B + span pre + span midp + (sz + 0) + span midn) in H by lia.
      split; [right; right; right; right; exact H|].
      destruct (placed_bounds _ _ _ _ _ _ Bpost H) as (I1 & _). lia.
Qed.

(** ** mm_realloc on a well-formed heap *)

Lemma mem_copy_in m dst src n x :
  dst <= x < dst + n -> mem_copy m dst src n x = m (src + (x - dst)).
Proof.
  intros H. unfold mem_copy.
  replace (dst <=? x) with true by (symmetry; apply Z.leb_le; lia).
  replace (x <? dst + n) with true by (symmetry; apply Z.ltb_lt; lia).
  reflexivity.
Qed.

Lemma mem_copy_out m dst src n x :
  x < dst \/ dst + n <= x -> mem_copy m dst src n x = m x.
Proof.
  intros H. unfold mem_copy.
  destruct (Z.leb_spec dst x); [|reflexivity].
  destruct (Z.ltb_spec x (dst + n)); [lia|reflexivity].
Qed.

Lemma heap_realloc dm s bs l ptr sz n :
  heap_ok dm s bs l -> In (ptr, sz, 1) (placed (mem_start_brk s + 16) bs) -> 24 <= sz ->
  0 < n -> n + 15 < 2 ^ 31 ->
  exists r s1,
    mm_malloc dm n s = Ok r s1 /\
    (r = 0 /\ mm_realloc dm ptr n s = Exit "ERROR: mm_malloc failed in mm_realloc\n" \/
     r <> 0 /\
     exists s' bs' l' rsz,
       mm_realloc dm ptr n s = Ok r s' /\ heap_ok dm s' bs' l' /\
       mem_start_brk s' = mem_start_brk s /\
       In (r, rsz, 1) (placed (mem_start_brk s + 16) bs') /\ n + 8 <= rsz /\
       r mod 8 = 0 /\ ~ In r (nodes 1 (mem_start_brk s + 16) bs) /\
       (forall i, 0 <= i < Z.min n (sz - 8) -> mem s' (r + i) = mem s (ptr + i)) /\
       (forall b sz', In (b, sz', 1) (placed (mem_start_brk s + 16) bs) -> b <> ptr ->
          In (b, sz', 1) (placed (mem_start_brk s + 16) bs') /\
          forall x, b <= x < b + sz' - 8 -> mem s' x = mem s x) /\
       (coalesced bs -> coalesced bs')).
Proof.
  intros Hok Hin Hsz N1 N2.
  set (B := mem_start_brk s + 16) in *.
  destruct (heap_malloc dm s bs l n Hok N1 N2)
    as (r & s1 & bs1 & l1 & Hm & Hok1 & Hlo1 & Hk1 & Hco1 & Hres).
  fold B in Hk1, Hres.
  exists r, s1. split; [exact Hm|].
  unfold mm_realloc. rewrite (run_ok _ _ _ _ _ Hm).
  destruct Hres as [(-> & _)|(pre & rsz & post & E1 & Er & Hrsz & Hfresh)];
    [left; split; reflexivity|].
  right.
  assert (Hr1 : In (r, rsz, 1) (placed B bs1)).
  { rewrite E1, Er. apply in_placed_mid. }
  destruct (Hk1 _ _ Hin) as [Hin1 Kptr].
  assert (B1eq : mem_start_brk s1 + 16 = B) by (subst B; lia).
  rewrite <- B1eq in Hr1, Hin1.
  destruct (heap_block dm s1 bs1 l1 r rsz 1 Hok1 Hr1)
    as ((R1 & _) & R2 & R3 & _ & R5 & _).
  destruct (heap_block dm s1 bs1 l1 ptr sz 1 Hok1 Hin1)
    as ((P1 & P2 & _ & _ & [Ph _]) & P3 & P4 & P5 & _).
  assert (Hne : r <> ptr).
  { intros E. apply Hfresh. apply in_nodes. exists sz. rewrite E. exact Hin. }
  pose proof Hok1 as ((Q1 & _) & _).
  replace (r =? 0) with false by (symmetry; apply Z.eqb_neq; lia).
  unfold HDRP, WSIZE. rewrite run_GET by inh. rewrite Ph.
  assert (Ec : copy_size n (PACK sz 1) = Z.min n sz).
  { unfold copy_size. rewrite size_of_PACK by lia.
    destruct (Z.ltb_spec n sz); lia. }
  rewrite Ec. set (c := Z.min n sz).
  assert (Hc : 0 <= c <= sz /\ c <= rsz - 8) by (subst c; lia).
  assert (Ecp : bind (memcpy r ptr c) (fun _ => mm_free dm ptr ;;; ret r) s1 =
                (mm_free dm ptr ;;; ret r) (set_mem s1 (mem_copy (mem s1) r ptr c))).
  { unfold bind at 1, memcpy.
    rewrite (in_heap_intro s1 ptr c), (in_heap_intro s1 r c) by lia. reflexivity. }
  rewrite Ecp. set (m2 := mem_copy (mem s1) r ptr c).
  destruct (heap_ok_payload dm s1 bs1 l1 r rsz m2 Hok1 Hr1) as [Hok2 Kother].
  { intros x Hx. subst m2. apply mem_copy_out. lia. }
  set (s2 := set_mem s1 m2) in *.
  destruct (heap_free_sound dm s2 bs1 l1 ptr sz Hok2 Hin1 Hsz)
    as (s' & bs' & l' & Hf & Hok' & Hsg & _ & Kf & _ & Hco').
  change (mem_start_brk s2) with (mem_start_brk s1) in Kf. rewrite B1eq in *.
  rewrite (run_ok _ _ _ _ _ Hf).
  destruct Hsg as (G1 & _). change (mem_start_brk s2) with (mem_start_brk s1) in G1.
  split; [lia|].
  exists s', bs', l', rsz.
  split; [reflexivity|]. split; [exact Hok'|]. split; [congruence|].
  destruct (Kf r rsz Hr1 Hne) as [Hr' Kr].
  split; [exact Hr'|]. split; [exact Hrsz|]. split; [exact R5|]. split; [exact Hfresh|].
  split; [|split].
  - intros i Hi. rewrite Kr by lia. change (mem s2) with m2. subst m2.
    rewrite mem_copy_in by (subst c; lia).
    replace (ptr + (r + i - r)) with (ptr + i) by lia. apply Kptr. lia.
  - intros b sz' Hb Hnb. destruct (Hk1 _ _ Hb) as [Hb1 Kb].
    destruct (Kf b sz' Hb1 Hnb) as [Hb' Kb'].
    split; [exact Hb'|]. intros x Hx. rewrite Kb' by exact Hx.
    change (mem s2) with m2.
    assert (Hnr : b <> r).
    { intros E. apply Hfresh. apply in_nodes. exists sz'. rewrite <- E. exact Hb. }
    rewrite (Kother b sz' x Hb1 Hnr Hx). apply Kb. exact Hx.
  - intros Hcoal. apply Hco', Hco1. exact Hcoal.
Qed.

(** * The claims *)

(** hypotheses about a concrete heap, by evaluation *)
Ltac crunch1 :=
  first [ exact I
        | vm_compute; reflexivity
        | vm_compute; discriminate
        | vm_compute; intros; discriminate
        | vm_compute; intuition congruence ].
Ltac crunch :=
  repeat match goal with
         | |- _ /\ _ => split
         | |- Forall _ _ => constructor
         | |- _ \/ _ => first [left; solve [crunch1] | right]
         | |- free_list _ _ _ => unfold free_list
         | |- neighbours _ _ _ _ _ _ _ _ => unfold neighbours
         | |- region_ok _ _ => unfold region_ok
         | |- tagged _ _ _ _ => unfold tagged
         | |- nodes_outside _ _ _ _ => unfold nodes_outside
         | |- dseg _ _ _ _ _ => cbn [dseg]
         | |- apart _ => cbn [apart]
         end;
  crunch1.

(** C1, amended.  In the sequence initialize(); X = allocate(100);
    Y = allocate(200); release(X); allocate(50), run in a fresh process
    whose region starts at any base and has room for the first chunk, the
    last call returns X's address and the break stays where initialize()
    put it.  In general, on a heap whose tags and free list are well formed,
    after release(X) of a block placed for a request of n bytes, the block
    of 16 bytes that a request of at most 8 bytes gets included,
    allocate(m) with 0 < m <= n returns the block that coalesce made of X,
    which contains X, and the break does not move, provided that find_fit's
    bypass is not armed for the adjusted size of m (its remembered size
    differs, or its counter is at most 40). *)
Theorem freed_block_is_reused :
  (forall dm base max_heap m0,
      0 < base -> 16 + CHUNKSIZE <= max_heap ->
      base + max_heap <= 2 ^ (8 * PSIZE dm) ->
      result (scenario_A dm (boot base max_heap m0)) =
      Some (base + 16, base + 16, base + 16 + CHUNKSIZE, base + 16 + CHUNKSIZE)) /\
  (forall dm s X sz psz pa nsz na l n m,
      heap_listp s <> 0 ->
      region_ok dm s -> free_list dm s l ->
      neighbours s X sz 1 psz pa nsz na ->
      merged_size sz psz pa nsz na < 2 ^ 32 ->
      incl (absorbed X sz psz pa na) l ->
      nodes_outside (absorbed X sz psz pa na) l
        (merged_start X psz pa - 4)
        (merged_start X psz pa + merged_size sz psz pa nsz na - 4) ->
      adjust_size dm n <= sz -> 0 < m <= n -> n + 15 < 2 ^ 32 ->
      ~ (ff_size s = to_int (adjust_size dm m) /\ 40 < ff_count s) ->
      exists s1 s2,
        mm_free dm X s = Ok tt s1 /\
        mm_malloc dm m s1 = Ok (merged_start X psz pa) s2 /\
        merged_start X psz pa <> 0 /\
        merged_start X psz pa <= X
          < merged_start X psz pa + merged_size sz psz pa nsz na /\
        mem_brk s1 = mem_brk s /\ mem_brk s2 = mem_brk s).
Proof.
  split.
  - intros dm base max_heap m0. apply scenario_A_runs.
  - intros. eapply release_then_allocate; eassumption.
Qed.

Lemma freed_block_is_reused_witness :
  result (scenario_A LP64 fresh) = Some (65552, 65552, 131088, 131088) /\
  (free_list LP64 heap_A [65872] /\
   neighbours heap_A 65552 112 1 8 1 208 1 /\
   exists s1 s2,
     mm_free LP64 65552 heap_A = Ok tt s1 /\
     mm_malloc LP64 50 s1 = Ok 65552 s2 /\
     mem_brk s2 = mem_brk heap_A) /\
  (free_list LP64 heap_D [65584] /\
   neighbours heap_D 65552 16 1 8 1 16 1 /\
   exists s1 s2,
     mm_free LP64 65552 heap_D = Ok tt s1 /\
     mm_malloc LP64 8 s1 = Ok 65552 s2 /\
     mem_brk s2 = mem_brk heap_D).
Proof.
  split; [|split; (split; [crunch|split; [crunch|]])].
  - exact (proj1 freed_block_is_reused LP64 heap_base MAX_HEAP zero_mem
             ltac:(crunch) ltac:(crunch) ltac:(crunch)).
  - destruct (proj2 freed_block_is_reused LP64 heap_A 65552 112 8 1 208 1 [65872] 100 50
                ltac:(crunch) ltac:(crunch) ltac:(crunch) ltac:(crunch) ltac:(crunch)
                ltac:(crunch) ltac:(crunch) ltac:(crunch) ltac:(crunch) ltac:(crunch)
                ltac:(crunch))
      as (s1 & s2 & H1 & H2 & _ & _ & _ & H3).
    exists s1, s2. split; [exact H1|]. split; [exact H2|exact H3].
  - destruct (proj2 freed_block_is_reused LP64 heap_D 65552 16 8 1 16 1 [65584] 8 8
                ltac:(crunch) ltac:(crunch) ltac:(crunch) ltac:(crunch) ltac:(crunch)
                ltac:(crunch) ltac:(crunch) ltac:(crunch) ltac:(crunch) ltac:(crunch)
                ltac:(crunch))
      as (s1 & s2 & H1 & H2 & _ & _ & _ & H3).
    exists s1, s2. split; [exact H1|]. split; [exact H2|exact H3].
Defined.

(** C1, as stated, fails.  After initialize(), the first allocate(65528)
    takes the whole initial free block and each of the next 41 finds the
    list empty, which arms the bypass for the adjusted size 65536.  Then
    X = allocate(65528); release(X); allocate(65528) moves the break by
    65536 bytes although X's block, free again, fits the request exactly. *)
Lemma bypass_defeats_reuse :
  exists x y b0 b1,
    result ((mm_init LP64 ;;; repeat_malloc LP64 42 65528 ;;;
             roundtrip LP64 65528 65528) fresh)
    = Some (x, y, b0, b1) /\ b0 < b1.
Proof.
  exists 2818064, 2818064, 2883600, 2949136. split; vm_compute; reflexivity.
Qed.

(** C2, at the failing input.  After initialize(); A = allocate(8);
    B = allocate(100); allocate(100); release(A), the footer of the
    16-byte block A holds its previous-link, 0.  With 4-byte pointers
    release(B) then reads size 0 before B, finds PREV_BLKP(B) == B and takes
    B's predecessor as allocated: B goes to the head of the free list with A
    behind it, and A, of 16 bytes, and B, of 112 bytes, stay two free blocks
    side by side.  With 8-byte pointers release(A) has also cleared B's
    header, and release(B) leaves B with size 0 as the only node of the
    list. *)
Theorem coalesce_skips_small_neighbour :
  result (small_neighbour ILP32 fresh)
  = Some (65552, 65552 + 16, 0, 65552 + 16, 65552, PACK 16 0, PACK 112 0) /\
  result (small_neighbour LP64 fresh)
  = Some (65552, 65552 + 16, 0, 65552 + 16, 0, PACK 16 0, 0).
Proof. split; vm_compute; reflexivity. Qed.

(** C3, at the failing input.  After initialize() and X = allocate(100), X's
    header is PACK(112, 1): a block of 112 bytes with 104 bytes of payload.
    resize(X, 200) copies 112 bytes, so the word 104 bytes into the new block
    is X's footer. *)
Theorem realloc_copies_block_size :
  forall dm,
    result ((mm_init dm ;;;
             x <- mm_malloc dm 100 ;;
             h <- GET (HDRP x) ;;
             y <- mm_realloc dm x 200 ;;
             w <- GET (y + 104) ;;
             ret (h, copy_size 200 h, w)) fresh)
    = Some (PACK 112 1, 112, PACK 112 1).
Proof. intros dm. destruct dm; vm_compute; reflexivity. Qed.

(** C4, at the failing input.  After initialize(), 42 calls of allocate(100)
    are all served from the free list, the break staying where it was; they
    leave find_fit with size 112 and count 41, and the next allocate(100)
    moves the break by 112 bytes although the head of the free list has
    60832 bytes. *)
Theorem bypass_counts_hits :
  forall dm,
    result ((mm_init dm ;;;
             b0 <- gets mem_brk ;;
             repeat_malloc dm 42 100 ;;;
             b1 <- gets mem_brk ;;
             size <- gets ff_size ;;
             count <- gets ff_count ;;
             head <- gets free_listp ;;
             hsize <- GET_SIZE (HDRP head) ;;
             mm_malloc dm 100 ;;;
             b2 <- gets mem_brk ;;
             ret (b1 - b0, size, count, hsize, b2 - b1)) fresh)
    = Some (0, 112, 41, 60832, 112).
Proof. intros dm. destruct dm; vm_compute; reflexivity. Qed.

(** C5, at the failing input.  A request of at most DSIZE bytes gets a block
    of DSIZE + OVERHEAD = 16 bytes, less than the DSIZE * 3 = 24 bytes that
    place and extend_heap take as the minimum; after initialize();
    A = allocate(8); B = allocate(8); release(A) the header of A holds
    PACK(16, 0) and its footer, 8 bytes into the block, where the
    previous-link was stored, holds 0. *)
Theorem small_block_loses_footer :
  (forall dm n, adjust_size dm (Z.min n DSIZE) = DSIZE + OVERHEAD) /\
  DSIZE + OVERHEAD < DSIZE * 3 /\
  (forall dm,
      result ((mm_init dm ;;;
               a <- mm_malloc dm 8 ;;
               mm_malloc dm 8 ;;;
               mm_free dm a ;;;
               h <- GET (HDRP a) ;;
               f <- FTRP a ;;
               t <- GET f ;;
               ret (h, f - a, t)) fresh)
      = Some (PACK 16 0, 8, 0)).
Proof.
  split; [|split].
  - intros dm n. unfold adjust_size.
    replace (Z.min n DSIZE <=? DSIZE) with true; [reflexivity|].
    symmetry. apply Z.leb_le. apply Z.le_min_r.
  - reflexivity.
  - intros dm. destruct dm; vm_compute; reflexivity.
Qed.

(** C6, amended.  Once the heap is initialized (heap_listp is not null),
    allocate(0) returns null and leaves the state as it was.  Before that
    (heap_listp is null) allocate(0) runs initialize() and then returns
    null, whatever initialize() returned; in a fresh process whose region
    has room for the first chunk this moves the break by 16 + CHUNKSIZE
    bytes and leaves the first free block as the one node of the free
    list. *)
Theorem malloc_zero_is_noop :
  (forall dm s, heap_listp s <> 0 -> mm_malloc dm 0 s = Ok 0 s) /\
  (forall dm s, heap_listp s = 0 -> mm_malloc dm 0 s = (mm_init dm ;;; ret 0) s) /\
  (forall dm base max_heap m0,
      0 < base -> 16 + CHUNKSIZE <= max_heap ->
      base + max_heap <= 2 ^ (8 * PSIZE dm) ->
      exists s',
        mm_malloc dm 0 (boot base max_heap m0) = Ok 0 s' /\
        mem_brk s' = base + 16 + CHUNKSIZE /\
        free_list dm s' [base + 16]).
Proof.
  split; [|split].
  - intros dm s H. unfold mm_malloc.
    rewrite run_gets, nonzero_true, run_ret by exact H. reflexivity.
  - intros dm s H. unfold mm_malloc. rewrite run_gets, H. reflexivity.
  - intros dm base max_heap m0 H1 H2 H3.
    destruct (mm_init_spec dm base max_heap m0 H1 H2 H3)
      as (s' & Hrun & (_ & Hbrk & _) & _ & _ & _ & _ & Hfl).
    exists s'. split; [|split; [exact Hbrk|exact Hfl]].
    unfold mm_malloc. rewrite run_gets. change (heap_listp (boot base max_heap m0)) with 0.
    change (nonzero 0) with false. cbv iota.
    rewrite (run_ok _ _ _ _ _ Hrun). reflexivity.
Qed.

Lemma malloc_zero_is_noop_witness :
  (heap_listp heap_C <> 0 /\ mm_malloc LP64 0 heap_C = Ok 0 heap_C) /\
  (heap_listp fresh = 0 /\ mm_malloc LP64 0 fresh = (mm_init LP64 ;;; ret 0) fresh) /\
  exists s', mm_malloc LP64 0 fresh = Ok 0 s' /\ mem_brk s' = 131088 /\
             free_list LP64 s' [65552].
Proof.
  split; [|split].
  - split; [vm_compute; discriminate|].
    apply (proj1 malloc_zero_is_noop LP64 heap_C). vm_compute; discriminate.
  - split; [reflexivity|].
    apply (proj1 (proj2 malloc_zero_is_noop) LP64 fresh). reflexivity.
  - exact (proj2 (proj2 malloc_zero_is_noop) LP64 heap_base MAX_HEAP zero_mem
             ltac:(crunch) ltac:(crunch) ltac:(crunch)).
Defined.

(** C6, as stated, fails: before initialization allocate(0) does not leave
    the state unchanged. *)
Lemma malloc_zero_initializes : mm_malloc LP64 0 fresh <> Ok 0 fresh.
Proof.
  intros H. apply (f_equal brk_after) in H. vm_compute in H. discriminate H.
Qed.

(** C7, at the failing input.  release(null) reads the word at address -4,
    outside the region, before it looks at its argument. *)
Theorem free_null_reads_header :
  forall dm s, 0 <= mem_start_brk s -> mm_free dm 0 s = Fault.
Proof.
  intros dm s H. unfold mm_free, bind, GET_SIZE, bind, GET, load, in_heap, HDRP, WSIZE.
  replace (mem_start_brk s <=? 0 - 4) with false by (symmetry; apply Z.leb_gt; lia).
  reflexivity.
Qed.

Lemma free_null_reads_header_witness :
  0 <= mem_start_brk heap_C /\ mm_free LP64 0 heap_C = Fault.
Proof.
  split; [vm_compute; discriminate|].
  apply (free_null_reads_header LP64 heap_C). vm_compute; discriminate.
Defined.

(** C8, at the failing input.  resize(null, n) never returns a block: when
    its allocate succeeds it reads the header of the null block, a word
    outside the region; after initialize(), resize(null, 8) ends in that
    fault. *)
Theorem realloc_null_faults :
  (forall dm s n r s', 0 <= mem_start_brk s -> mm_realloc dm 0 n s <> Ok r s') /\
  (forall dm m0,
      (mm_init dm ;;; mm_realloc dm 0 8) (boot heap_base MAX_HEAP m0) = Fault).
Proof.
  split.
  - intros dm s n r s' H. apply realloc_null_never_returns. exact H.
  - intros dm m0. destruct dm; vm_compute; reflexivity.
Qed.

Lemma realloc_null_faults_witness :
  0 <= mem_start_brk heap_C /\ result (mm_realloc LP64 0 8 heap_C) = None.
Proof.
  split; [vm_compute; discriminate|].
  destruct (mm_realloc LP64 0 8 heap_C) as [r s'| | |] eqn:E; try reflexivity.
  exfalso. apply (proj1 realloc_null_faults LP64 heap_C 8 r s'); [|exact E].
  vm_compute; discriminate.
Defined.

(** C9, at the failing input.  On the heap initialize() has just set up, the
    checker stops with a violation. *)
Theorem checkheap_rejects_fresh_heap :
  forall dm, (mm_init dm ;;; mm_checkheap dm 0) fresh = Exit "bad prologue HDR".
Proof. intros dm. destruct dm; vm_compute; reflexivity. Qed.

(** C10, at the failing input.  With 8-byte pointers, after initialize();
    H = allocate(8); P = allocate(65512), P ends at the break.  The caller
    stores the 8-byte value 131080 at P + 8, and release(H) writes H's
    previous-link over P's header.  allocate(70000) then finds no fit and
    calls extend_heap, which moves the break from 131088 to 201096, an
    aligned amount of 70008 bytes, but takes P for a free block before the
    new space: it returns P, and unlinking P writes through the 8 bytes the
    caller stored, so that the header of the new space holds 0 while its
    footer holds 70008. *)
Theorem extend_heap_returns_live_block :
  result (grow_after_small LP64 131080 fresh)
  = Some (65568, 0, 65568, 131088, 131088 + 70008, 0, PACK 70008 0).
Proof. vm_compute; reflexivity. Qed.

(** * Further properties *)

(** facts about a concrete heap, by evaluation *)
Ltac heap_facts :=
  repeat match goal with
         | |- heap_ok _ _ _ _ => unfold heap_ok; cbv zeta
         | |- _ /\ _ => split
         | |- blocks _ _ _ => unfold blocks; cbn [placed]
         | |- Forall _ _ => constructor
         | |- block_ok _ _ => unfold block_ok; cbv beta iota
         | |- free_list _ _ _ => unfold free_list
         | |- region_ok _ _ => unfold region_ok
         | |- tagged _ _ _ _ => unfold tagged
         | |- dseg _ _ _ _ _ => cbn [dseg]
         | |- apart _ => cbn [apart]
         | |- forall _, _ <-> _ => intro; vm_compute; tauto
         end;
  crunch1.

(** X1.  In a process whose region starts at an 8-byte boundary above NULL
    and may grow by at least 16 + CHUNKSIZE and less than 2^32 bytes,
    mm_init returns 0 and leaves a well-formed heap: prologue, one free
    block of CHUNKSIZE bytes, which is the only node of the free list, and
    the epilogue header at the break. *)
Theorem mm_init_sets_up_heap :
  forall dm base max_heap m0,
    0 < base -> base mod 8 = 0 ->
    16 + CHUNKSIZE <= max_heap < 2 ^ 32 -> base + max_heap <= 2 ^ (8 * PSIZE dm) ->
    exists s',
      mm_init dm (boot base max_heap m0) = Ok 0 s' /\
      heap_ok dm s' [(CHUNKSIZE, 0)] [base + 16] /\
      mem_start_brk s' = base /\ mem_brk s' = base + 16 + CHUNKSIZE.
Proof.
  intros dm base max_heap m0 H1 H2 H3 H4.
  destruct (mm_init_heap dm base max_heap m0 H1 H2 H3 H4) as (s' & E1 & E2 & E3 & E4 & _).
  exists s'. repeat (split; [assumption|]). assumption.
Qed.

Lemma mm_init_sets_up_heap_witness :
  exists s',
    mm_init LP64 fresh = Ok 0 s' /\ heap_ok LP64 s' [(CHUNKSIZE, 0)] [65552] /\
    mem_brk s' = 131088.
Proof.
  destruct (mm_init_sets_up_heap LP64 heap_base MAX_HEAP zero_mem
              ltac:(crunch) ltac:(crunch) ltac:(crunch) ltac:(crunch))
    as (s' & H1 & H2 & _ & H3).
  exists s'. split; [exact H1|]. split; [exact H2|exact H3].
Defined.

(** X2.  On a well-formed heap mm_malloc(n), for 0 < n < 2^31 - 15, always
    returns, and leaves a well-formed heap in which every block that was
    allocated is still allocated, with the same size and the same bytes
    between its tags.  It returns either NULL, with blocks, break and memory
    as they were, or the 8-byte aligned block pointer of an allocated block
    of at least n + 8 bytes that overlaps no block that was allocated
    before.  If no two free blocks were adjacent, none are afterwards. *)
Theorem mm_malloc_sound :
  forall dm s bs l n,
    heap_ok dm s bs l -> 0 < n -> n + 15 < 2 ^ 31 ->
    exists r s' bs' l',
      mm_malloc dm n s = Ok r s' /\ heap_ok dm s' bs' l' /\
      mem_start_brk s' = mem_start_brk s /\
      allocated_kept (mem_start_brk s + 16) bs (mem s) bs' (mem s') /\
      (coalesced bs -> coalesced bs') /\
      (r = 0 /\ bs' = bs /\ mem_brk s' = mem_brk s /\ mem s' = mem s \/
       exists rsz,
         In (r, rsz, 1) (placed (mem_start_brk s + 16) bs') /\ n + 8 <= rsz /\
         r mod 8 = 0 /\
         forall b sz, In (b, sz, 1) (placed (mem_start_brk s + 16) bs) ->
                      b + sz <= r \/ r + rsz <= b).
Proof.
  intros dm s bs l n Hok N1 N2.
  destruct (heap_malloc dm s bs l n Hok N1 N2)
    as (r & s' & bs' & l' & Hrun & Hok' & Hlo & Hk & Hco & Hres).
  exists r, s', bs', l'. split; [exact Hrun|]. split; [exact Hok'|].
  split; [exact Hlo|]. split; [exact Hk|]. split; [exact Hco|].
  destruct Hres as [H|(pre & rsz & post & E1 & E2 & E3 & E4)]; [left; exact H|].
  right. exists rsz.
  assert (Hr : In (r, rsz, 1) (placed (mem_start_brk s' + 16) bs')).
  { rewrite Hlo, E1, E2. apply in_placed_mid. }
  destruct (heap_block dm s' bs' l' r rsz 1 Hok' Hr) as (_ & _ & _ & _ & R5 & _).
  rewrite Hlo in Hr.
  split; [exact Hr|]. split; [exact E3|]. split; [exact R5|].
  intros b sz Hb. destruct (Hk b sz Hb) as [Hb' _].
  pose proof (heap_user_blocks _ _ _ _ Hok') as Hbl. rewrite Hlo in Hbl.
  destruct (placed_disjoint _ _ _ _ _ _ _ _ _ Hbl Hb' Hr) as [E|D]; [|exact D].
  exfalso. apply E4. apply in_nodes. exists sz. inversion E; subst. exact Hb.
Qed.

Lemma mm_malloc_sound_witness :
  heap_ok LP64 heap_A [(112, 1); (208, 1); (65216, 0)] [65872] /\
  exists r s' bs' l',
    mm_malloc LP64 50 heap_A = Ok r s' /\ heap_ok LP64 s' bs' l' /\
    In (65552, 112, 1) (placed 65552 bs').
Proof.
  split; [heap_facts|].
  destruct (mm_malloc_sound LP64 heap_A [(112, 1); (208, 1); (65216, 0)] [65872] 50
              ltac:(heap_facts) ltac:(lia) ltac:(lia))
    as (r & s' & bs' & l' & H1 & H2 & _ & H3 & _).
  exists r, s', bs', l'. split; [exact H1|]. split; [exact H2|].
  apply (H3 65552 112). left. reflexivity.
Defined.

(** X3.  On a well-formed heap mm_free(bp), for an allocated block bp of
    at least 24 bytes, returns and leaves a well-formed heap, the region
    and the other globals as they were.  The head of the free list is a
    free block that contains the bytes of bp; every other allocated block
    is still allocated with the same size and the same bytes between its
    tags, and no block but those is allocated.  If no two free blocks were
    adjacent, none are afterwards: bp is merged with its free neighbours. *)
Theorem mm_free_sound :
  forall dm s bs l bp sz,
    heap_ok dm s bs l -> In (bp, sz, 1) (placed (mem_start_brk s + 16) bs) -> 24 <= sz ->
    exists s' bs' l',
      mm_free dm bp s = Ok tt s' /\ heap_ok dm s' bs' l' /\ same_globals s s' /\
      (exists fsz, In (free_listp s', fsz, 0) (placed (mem_start_brk s + 16) bs') /\
                   free_listp s' <= bp /\ bp + sz <= free_listp s' + fsz) /\
      (forall b sz', In (b, sz', 1) (placed (mem_start_brk s + 16) bs) -> b <> bp ->
         In (b, sz', 1) (placed (mem_start_brk s + 16) bs') /\
         forall x, b <= x < b + sz' - 8 -> mem s' x = mem s x) /\
      (forall b sz', In (b, sz', 1) (placed (mem_start_brk s + 16) bs') ->
         In (b, sz', 1) (placed (mem_start_brk s + 16) bs) /\ b <> bp) /\
      (coalesced bs -> coalesced bs').
Proof. intros dm s bs l bp sz. apply heap_free_sound. Qed.

Lemma mm_free_sound_witness :
  exists s' bs' l',
    mm_free LP64 65552 heap_A = Ok tt s' /\ heap_ok LP64 s' bs' l' /\
    free_listp s' <= 65552 /\ In (65664, 208, 1) (placed 65552 bs').
Proof.
  destruct (mm_free_sound LP64 heap_A [(112, 1); (208, 1); (65216, 0)] [65872] 65552 112
              ltac:(heap_facts) ltac:(left; reflexivity) ltac:(lia))
    as (s' & bs' & l' & H1 & H2 & _ & (fsz & _ & H3 & _) & H4 & _).
  exists s', bs', l'. split; [exact H1|]. split; [exact H2|]. split; [exact H3|].
  apply (H4 65664 208); [right; left; reflexivity|discriminate].
Defined.

(** X4.  On a well-formed heap mm_realloc(ptr, n), for an allocated block
    ptr of sz >= 24 bytes and 0 < n < 2^31 - 15, does what its mm_malloc(n)
    decides, and that call returns.  If it returns NULL, mm_realloc exits.
    If it returns a block r, mm_realloc returns that same r and leaves a
    well-formed heap: r is allocated, 8-byte aligned, of at least n + 8
    bytes, was not allocated before, and starts with the first
    min(n, sz - 8) bytes that ptr held; every allocated block other than
    ptr is still allocated with the same size and the same bytes between
    its tags.  If no two free blocks were adjacent, none are afterwards. *)
Theorem mm_realloc_sound :
  forall dm s bs l ptr sz n,
    heap_ok dm s bs l -> In (ptr, sz, 1) (placed (mem_start_brk s + 16) bs) ->
    24 <= sz -> 0 < n -> n + 15 < 2 ^ 31 ->
    exists r s1,
      mm_malloc dm n s = Ok r s1 /\
      (r = 0 /\
       mm_realloc dm ptr n s = Exit "ERROR: mm_malloc failed in mm_realloc\n" \/
       r <> 0 /\
       exists s' bs' l' rsz,
         mm_realloc dm ptr n s = Ok r s' /\ heap_ok dm s' bs' l' /\
         mem_start_brk s' = mem_start_brk s /\
         In (r, rsz, 1) (placed (mem_start_brk s + 16) bs') /\ n + 8 <= rsz /\
         r mod 8 = 0 /\ ~ In r (nodes 1 (mem_start_brk s + 16) bs) /\
         (forall i, 0 <= i < Z.min n (sz - 8) -> mem s' (r + i) = mem s (ptr + i)) /\
         (forall b sz', In (b, sz', 1) (placed (mem_start_brk s + 16) bs) -> b <> ptr ->
            In (b, sz', 1) (placed (mem_start_brk s + 16) bs') /\
            forall x, b <= x < b + sz' - 8 -> mem s' x = mem s x) /\
         (coalesced bs -> coalesced bs')).
Proof. intros dm s bs l ptr sz n. apply heap_realloc. Qed.

Lemma mm_realloc_sound_witness :
  result (mm_malloc LP64 300 heap_A) = Some 65872 /\
  exists s' bs' l' rsz,
    mm_realloc LP64 65552 300 heap_A = Ok 65872 s' /\ heap_ok LP64 s' bs' l' /\
    In (65872, rsz, 1) (placed 65552 bs') /\
    forall i, 0 <= i < 104 -> mem s' (65872 + i) = mem heap_A (65552 + i).
Proof.
  assert (R : result (mm_malloc LP64 300 heap_A) = Some 65872) by (vm_compute; reflexivity).
  split; [exact R|].
  destruct (mm_realloc_sound LP64 heap_A [(112, 1); (208, 1); (65216, 0)] [65872] 65552 112 300
              ltac:(heap_facts) ltac:(left; reflexivity) ltac:(lia) ltac:(lia) ltac:(lia))
    as (r & s1 & Hm & H).
  rewrite Hm in R. cbn [result] in R. inversion R; subst r.
  destruct H as [[H _]|(_ & s' & bs' & l' & rsz & H1 & H2 & _ & H3 & _ & _ & _ & H4 & _)];
    [discriminate H|].
  exists s', bs', l', rsz. split; [exact H1|]. split; [exact H2|].
  split; [exact H3|]. intros i Hi. apply H4. lia.
Defined.

(** X5.  On a well-formed heap any number of calls of mm_malloc(n), for
    0 < n < 2^31 - 15, return, whether they are served from the free list,
    by find_fit's bypass or by extending the heap, or fail for lack of
    memory; the heap stays well formed, keeps every block that was
    allocated and, if no two free blocks were adjacent, has none that
    are. *)
Theorem repeated_malloc_keeps_heap :
  forall dm k n s bs l,
    heap_ok dm s bs l -> 0 < n -> n + 15 < 2 ^ 31 ->
    exists s' bs' l',
      repeat_malloc dm k n s = Ok tt s' /\ heap_ok dm s' bs' l' /\
      mem_start_brk s' = mem_start_brk s /\
      allocated_kept (mem_start_brk s + 16) bs (mem s) bs' (mem s') /\
      (coalesced bs -> coalesced bs').
Proof.
  intros dm k n. induction k as [|k IH]; intros s bs l Hok N1 N2; cbn [repeat_malloc].
  - exists s, bs, l. split; [reflexivity|]. split; [exact Hok|].
    split; [reflexivity|]. split; [apply allocated_kept_refl|tauto].
  - destruct (heap_malloc dm s bs l n Hok N1 N2)
      as (r & s1 & bs1 & l1 & Hrun & Hok1 & Hlo1 & Hk1 & Hco1 & _).
    destruct (IH s1 bs1 l1 Hok1 N1 N2) as (s' & bs' & l' & Hrun' & Hok' & Hlo' & Hk' & Hco').
    exists s', bs', l'. rewrite (run_ok _ _ _ _ _ Hrun).
    split; [exact Hrun'|]. split; [exact Hok'|]. split; [congruence|].
    split; [|intros Hc; apply Hco', Hco1; exact Hc].
    rewrite Hlo1 in Hk'. eapply allocated_kept_trans; eassumption.
Qed.

Lemma repeated_malloc_keeps_heap_witness :
  exists s' bs' l',
    repeat_malloc LP64 100 50 heap_A = Ok tt s' /\ heap_ok LP64 s' bs' l' /\
    In (65664, 208, 1) (placed 65552 bs').
Proof.
  destruct (repeated_malloc_keeps_heap LP64 100 50 heap_A
              [(112, 1); (208, 1); (65216, 0)] [65872]
              ltac:(heap_facts) ltac:(lia) ltac:(lia))
    as (s' & bs' & l' & H1 & H2 & _ & H3 & _).
  exists s', bs', l'. split; [exact H1|]. split; [exact H2|].
  apply (H3 65664 208). right. left. reflexivity.
Defined.

(** X6.  On a well-formed heap place(r, asize), for a free block r of
    csize >= asize bytes, with asize a multiple of 8 and at least 16,
    returns and leaves a well-formed heap: when csize - asize >= 24 the block
    is split into an allocated block of asize bytes and a free block of
    csize - asize bytes, otherwise the whole block is allocated; the blocks
    before and after are as they were, the allocated ones with the same
    bytes between their tags, and splitting makes no two free blocks
    adjacent. *)
Theorem place_splits_or_takes_all :
  forall dm s pre csize post l asize,
    heap_ok dm s (pre ++ (csize, 0) :: post) l ->
    16 <= asize -> asize mod 8 = 0 -> asize <= csize ->
    exists s' l',
      place dm (mem_start_brk s + 16 + span pre) asize s = Ok tt s' /\
      same_globals s s' /\
      heap_ok dm s'
        (pre ++ (if asize + 24 <=? csize
                 then [(asize, 1); (csize - asize, 0)] else [(csize, 1)]) ++ post) l' /\
      payloads_kept (mem_start_brk s + 16) pre (mem s) (mem s') /\
      payloads_kept (mem_start_brk s + 16 + span pre + csize) post (mem s) (mem s') /\
      (coalesced (pre ++ (csize, 0) :: post) ->
       coalesced
         (pre ++ (if asize + 24 <=? csize
                  then [(asize, 1); (csize - asize, 0)] else [(csize, 1)]) ++ post)).
Proof.
  intros dm s pre csize post l asize Hok A1 A2 A3.
  destruct (heap_place dm s pre csize post l asize Hok A1 A2 A3)
    as (s' & bsz & rest & l' & Hrun & Hsg & Hok' & _ & _ & K1 & K2 & E & Hco).
  exists s', l'. split; [exact Hrun|]. split; [exact Hsg|].
  rewrite <- E. split; [exact Hok'|]. split; [exact K1|]. split; [exact K2|exact Hco].
Qed.

Lemma place_splits_or_takes_all_witness :
  exists s' l',
    place LP64 65872 65200 heap_A = Ok tt s' /\
    heap_ok LP64 s' [(112, 1); (208, 1); (65216, 1)] l'.
Proof.
  destruct (place_splits_or_takes_all LP64 heap_A [(112, 1); (208, 1)] 65216 [] [65872] 65200
              ltac:(heap_facts) ltac:(lia) ltac:(reflexivity) ltac:(lia))
    as (s' & l' & H1 & _ & H2 & _).
  exists s', l'. split; [exact H1|exact H2].
Defined.

(** X7.  Unless its bypass is armed, find_fit returns the first node of the
    free list whose header size is at least asize and remembers asize, and
    returns NULL when no node is that large; it changes nothing but its own
    two static variables. *)
Theorem find_fit_is_first_fit :
  forall dm s asize,
    ~ (ff_size s = to_int asize /\ 40 < ff_count s) ->
    (forall l1 x l2,
        free_list dm s (l1 ++ x :: l2) ->
        Forall (fun y => mem_start_brk s <= y - 4 /\ block_size (mem s) y < asize) l1 ->
        mem_start_brk s <= x - 4 -> asize <= block_size (mem s) x ->
        find_fit dm asize s =
        Ok x (set_ff_size (set_ff_count s (next_count s asize)) (to_int asize))) /\
    (forall l,
        free_list dm s l ->
        Forall (fun y => mem_start_brk s <= y - 4 /\ block_size (mem s) y < asize) l ->
        find_fit dm asize s = Ok 0 (set_ff_count s (next_count s asize))).
Proof.
  intros dm s asize Hby. split.
  - intros l1 x l2 H1 H2 H3 H4. apply (find_fit_first dm s l1 x l2 asize); assumption.
  - intros l H1 H2. apply (find_fit_none dm s l asize); assumption.
Qed.

Lemma find_fit_is_first_fit_witness :
  free_list LP64 heap_B [65776; 65552; 66000] /\
  result (find_fit LP64 120 heap_B) = Some 66000 /\
  result (find_fit LP64 65096 heap_B) = Some 0.
Proof.
  split; [crunch|].
  pose proof (find_fit_is_first_fit LP64 heap_B 120 ltac:(crunch)) as [H1 _].
  pose proof (find_fit_is_first_fit LP64 heap_B 65096 ltac:(crunch)) as [_ H2].
  rewrite (H1 [65776; 65552] 66000 [] ltac:(cbn [app]; crunch) ltac:(crunch) ltac:(crunch)
             ltac:(crunch)).
  rewrite (H2 [65776; 65552; 66000] ltac:(crunch) ltac:(crunch)).
  split; reflexivity.
Defined.

(** X8.  edit_free_list(x, 0) unlinks the node x from a well-formed free
    list, wherever it stands: the list is the same without x, free_listp is
    its new head, and only link words of nodes of the list are written. *)
Theorem edit_free_list_unlinks :
  forall dm s l x,
    region_ok dm s -> free_list dm s l -> In x l ->
    exists s',
      edit_free_list dm x 0 s = Ok tt s' /\
      free_list dm s' (remove Z.eq_dec x l) /\
      free_listp s' = hd 0 (remove Z.eq_dec x l) /\
      frame l (mem s) (mem s') /\ same_globals s s'.
Proof.
  intros dm s l x H1 H2 H3.
  destruct (edit_free_list_remove dm s l x H1 H2 H3) as (s' & E1 & E2 & E3 & E4).
  exists s'. split; [exact E1|]. split; [exact E2|]. split; [apply E2|].
  split; [exact E3|exact E4].
Qed.

Lemma edit_free_list_unlinks_witness :
  free_list LP64 heap_B [65776; 65552; 66000] /\
  exists s',
    edit_free_list LP64 65552 0 heap_B = Ok tt s' /\
    free_list LP64 s' [65776; 66000].
Proof.
  split; [crunch|].
  destruct (edit_free_list_unlinks LP64 heap_B [65776; 65552; 66000] 65552
              ltac:(crunch) ltac:(crunch) ltac:(right; left; reflexivity))
    as (s' & H1 & H2 & _).
  exists s'. split; [exact H1|exact H2].
Defined.

(** X9.  edit_free_list(bp, 1) puts bp at the head of a well-formed free
    list, and edit_free_list(bp, 0) right after it gives the list back as it
    was; only link words of bp and of nodes of the list are written. *)
Theorem edit_free_list_round_trip :
  forall dm s l bp,
    region_ok dm s -> free_list dm s l ->
    mem_start_brk s <= bp -> bp + 16 <= mem_brk s ->
    Forall (fun y => 16 <= Z.abs (bp - y)) l ->
    exists s1 s2,
      edit_free_list dm bp 1 s = Ok tt s1 /\ free_list dm s1 (bp :: l) /\
      edit_free_list dm bp 0 s1 = Ok tt s2 /\ free_list dm s2 l /\
      frame (bp :: l) (mem s) (mem s2) /\ same_globals s s2.
Proof. intros dm s l bp. apply edit_free_list_insert_remove. Qed.

Lemma edit_free_list_round_trip_witness :
  exists s1 s2,
    edit_free_list LP64 65664 1 heap_B = Ok tt s1 /\
    free_list LP64 s1 [65664; 65776; 65552; 66000] /\
    edit_free_list LP64 65664 0 s1 = Ok tt s2 /\
    free_list LP64 s2 [65776; 65552; 66000].
Proof.
  destruct (edit_free_list_round_trip LP64 heap_B [65776; 65552; 66000] 65664
              ltac:(crunch) ltac:(crunch) ltac:(crunch) ltac:(crunch) ltac:(crunch))
    as (s1 & s2 & H1 & H2 & H3 & H4 & _).
  exists s1, s2. split; [exact H1|]. split; [exact H2|]. split; [exact H3|exact H4].
Defined.

(** X10.  The adjusted size mm_malloc computes is a multiple of 8 below
    2^32; it is 16 for requests of at most 8 bytes, and for a larger request
    n it has room for n bytes and both tags exactly when n + 15 < 2^32: a
    larger request wraps around to an adjusted size below n + 8. *)
Theorem adjust_size_fits_unless_wrapped :
  forall dm n,
    (0 <= adjust_size dm n < 2 ^ 32 /\ adjust_size dm n mod 8 = 0) /\
    (n <= 8 -> adjust_size dm n = 16) /\
    (8 < n < 2 ^ (8 * PSIZE dm) ->
     (n + OVERHEAD <= adjust_size dm n <-> n + 15 < 2 ^ 32)).
Proof.
  intros dm n. split; [apply adjust_size_aligned|apply adjust_size_fits].
Qed.

Lemma adjust_size_fits_unless_wrapped_witness :
  104 + OVERHEAD <= adjust_size ILP32 104 /\
  ~ (2 ^ 32 + OVERHEAD <= adjust_size LP64 (2 ^ 32)).
Proof.
  split.
  - apply (proj2 (proj2 (adjust_size_fits_unless_wrapped ILP32 104))); [vm_compute|];
      split; reflexivity || discriminate.
  - intros H.
    apply (proj2 (proj2 (adjust_size_fits_unless_wrapped LP64 (2 ^ 32)))) in H.
    + vm_compute in H. discriminate H.
    + vm_compute. split; reflexivity.
Defined.

(** X11.  mm_realloc never returns NULL: when its mm_malloc returns NULL,
    as it does for a size of 0 on an initialized heap, it calls exit with
    its error message. *)
Theorem realloc_exits_instead_of_null :
  (forall dm ptr size s, result (mm_realloc dm ptr size s) <> Some 0) /\
  (forall dm ptr size s s1,
      mm_malloc dm size s = Ok 0 s1 ->
      mm_realloc dm ptr size s = Exit "ERROR: mm_malloc failed in mm_realloc\n") /\
  (forall dm ptr s,
      heap_listp s <> 0 ->
      mm_realloc dm ptr 0 s = Exit "ERROR: mm_malloc failed in mm_realloc\n").
Proof.
  split; [|split].
  - apply mm_realloc_not_null.
  - apply mm_realloc_exits.
  - intros dm ptr s H. apply (mm_realloc_exits dm ptr 0 s s). apply mm_malloc_zero. exact H.
Qed.

Lemma realloc_exits_instead_of_null_witness :
  mm_realloc LP64 65552 0 heap_A = Exit "ERROR: mm_malloc failed in mm_realloc\n".
Proof.
  apply (proj2 (proj2 realloc_exits_instead_of_null) LP64 65552 heap_A).
  vm_compute. discriminate.
Defined.

(** X12.  In a process whose region lies above address 4, mm_checkheap
    never returns: with an empty free list it reads the word at address 4,
    and with a non-empty one its walk over the free list does not end,
    since after the last node it calls printblock on the NULL link. *)
Theorem checkheap_never_passes :
  (forall dm fuel cp c s r s',
      -4 < mem_start_brk s -> cp <> 0 -> list_walk dm fuel cp c s <> Ok r s') /\
  (forall dm verbose s r s',
      4 < mem_start_brk s -> mm_checkheap dm verbose s <> Ok r s').
Proof.
  split.
  - intros dm fuel cp c s r s'. apply list_walk_never_ends.
  - intros dm verbose s r s'. apply mm_checkheap_never_passes.
Qed.

Lemma checkheap_never_passes_witness :
  result (mm_checkheap LP64 0 heap_A) = None.
Proof.
  destruct (mm_checkheap LP64 0 heap_A) as [r s'| | |] eqn:E; try reflexivity.
  exfalso. apply (proj2 checkheap_never_passes LP64 0 heap_A r s'); [|exact E].
  vm_compute. reflexivity.
Defined.



(** X14.  No routine of the allocator shrinks the region or moves its low
    end or its limit: whenever mm_init, mm_malloc, mm_free or mm_realloc
    returns, the break is where it was or higher. *)
Theorem region_never_shrinks :
  forall dm,
    keeps grown (mm_init dm) /\
    (forall size, keeps grown (mm_malloc dm size)) /\
    (forall bp, keeps grown (mm_free dm bp)) /\
    (forall ptr size, keeps grown (mm_realloc dm ptr size)).
Proof.
  intros dm. split; [apply keeps_mm_init|]. split; [apply keeps_mm_malloc|].
  split; [apply keeps_mm_free|apply keeps_mm_realloc].
Qed.

Lemma region_never_shrinks_witness :
  exists s', mm_malloc LP64 70000 heap_A = Ok 65872 s' /\ mem_brk heap_A <= mem_brk s'.
Proof.
  assert (R : result (mm_malloc LP64 70000 heap_A) = Some 65872) by (vm_compute; reflexivity).
  revert R. destruct (mm_malloc LP64 70000 heap_A) as [r s'| | |] eqn:E;
    cbn [result]; intros R; try discriminate R.
  inversion R; subst r. exists s'. split; [reflexivity|].
  apply (proj1 (proj2 (region_never_shrinks LP64)) 70000 heap_A 65872 s' E).
Defined.

(** X15.  When memlib cannot grow the region by the size extend_heap asks
    for, or that size is not a non-negative int, extend_heap returns NULL
    and leaves the state as it is; and when the region has room for the
    16 bytes of padding, prologue and epilogue but not for the first
    chunk, mm_init returns -1 with those 16 bytes set up, heap_listp set
    and the free list empty. *)
Theorem out_of_memory_is_reported :
  (forall dm words s,
      to_int (extend_size dm words) < 0 \/
      mem_max_addr s < mem_brk s + to_int (extend_size dm words) ->
      extend_heap dm words s = Ok 0 s) /\
  (forall dm base max_heap m0,
      0 < base -> 16 <= max_heap < 16 + CHUNKSIZE ->
      exists s', mm_init dm (boot base max_heap m0) = Ok (-1) s' /\
        heap_listp s' = base /\ free_listp s' = 0 /\
        mem_start_brk s' = base /\ mem_brk s' = base + 16 /\
        word (mem s') (base + 4) = PACK OVERHEAD 1 /\
        word (mem s') (base + 8) = PACK OVERHEAD 1 /\
        word (mem s') (base + 12) = PACK 0 1).
Proof.
  split.
  - intros dm words s. apply extend_heap_fails.
  - intros dm base max_heap m0. apply mm_init_no_room.
Qed.

Lemma out_of_memory_is_reported_witness :
  extend_heap LP64 (2 ^ 29) heap_A = Ok 0 heap_A /\
  result (mm_init LP64 (boot heap_base 1000 zero_mem)) = Some (-1).
Proof.
  split.
  - apply (proj1 out_of_memory_is_reported LP64 (2 ^ 29) heap_A).
    left. vm_compute. reflexivity.
  - destruct (proj2 out_of_memory_is_reported LP64 heap_base 1000 zero_mem
                ltac:(crunch) ltac:(crunch)) as (s' & H & _).
    rewrite H. reflexivity.
Defined.

(** X16.  A boundary tag written with PUT(p, PACK(size, alloc)), for a size
    that is a multiple of 8 below 2^32 and a bit alloc, is read back by
    GET_SIZE(p) as size and by GET_ALLOC(p) as alloc. *)
Theorem tag_round_trip p sz a s :
  in_heap s p 4 = true -> sz mod 8 = 0 -> 0 <= sz < 2 ^ 32 -> 0 <= a <= 1 ->
  (PUT p (PACK sz a) ;;; x <- GET_SIZE p ;; y <- GET_ALLOC p ;; ret (x, y)) s
  = Ok (sz, a) (set_mem s (le_store (mem s) p 4 (PACK sz a))).
Proof.
  intros Hin H1 H2 H3.
  rewrite run_PUT by exact Hin.
  rewrite run_GET_SIZE by (rewrite in_heap_set_mem; exact Hin).
  rewrite run_GET_ALLOC by (rewrite in_heap_set_mem; exact Hin).
  rewrite mem_set_mem, word_store_same by (apply PACK_bound; assumption).
  rewrite size_of_PACK, alloc_of_PACK by lia. reflexivity.
Qed.

Lemma tag_round_trip_witness :
  result ((PUT 65548 (PACK 112 1) ;;; x <- GET_SIZE 65548 ;; y <- GET_ALLOC 65548 ;;
           ret (x, y)) heap_C) = Some (112, 1).
Proof.
  rewrite (tag_round_trip 65548 112 1 heap_C);
    [reflexivity|vm_compute; reflexivity|reflexivity|lia|lia].
Defined.

(** X17.  The two links of a node do not overlap: after SET_NEXT(bp, q) and
    SET_PREV(bp, r), GET_NEXT(bp) is q and GET_PREV(bp) is r, for pointers of
    either width, and nothing but the 16 bytes from bp on is written. *)
Theorem links_round_trip dm bp q r s :
  in_heap s bp 16 = true ->
  0 <= q < 2 ^ (8 * PSIZE dm) -> 0 <= r < 2 ^ (8 * PSIZE dm) ->
  (SET_NEXT dm bp q ;;; SET_PREV dm bp r ;;;
   x <- GET_NEXT dm bp ;; y <- GET_PREV dm bp ;; ret (x, y)) s
  = Ok (q, r)
       (set_mem s (le_store (le_store (mem s) bp (pbytes dm) q)
                            (bp + 8) (pbytes dm) r)).
Proof.
  intros Hin Hq Hr.
  pose proof (pbytes_bound dm) as [Pb1 Pb2].
  unfold in_heap in Hin. apply andb_true_iff in Hin. destruct Hin as [I1 I2].
  apply Z.leb_le in I1. apply Z.leb_le in I2.
  rewrite run_SET_NEXT by inh.
  rewrite run_SET_PREV by inh.
  rewrite run_GET_NEXT by inh.
  rewrite run_GET_PREV by inh.
  rewrite !mem_set_mem.
  rewrite link_store_other by lia.
  rewrite !link_store_same by lia.
  reflexivity.
Qed.

Lemma links_round_trip_witness :
  result ((SET_NEXT LP64 65552 66000 ;;; SET_PREV LP64 65552 65776 ;;;
           x <- GET_NEXT LP64 65552 ;; y <- GET_PREV LP64 65552 ;; ret (x, y)) heap_C)
  = Some (66000, 65776).
Proof.
  rewrite (links_round_trip LP64 65552 66000 65776 heap_C);
    [reflexivity|vm_compute; reflexivity|vm_compute; split; [discriminate|reflexivity]
    |vm_compute; split; [discriminate|reflexivity]].
Defined.

(** X18.  For a free block bp of at least 16 bytes whose own tags and the
    tags next to it are intact, whose free neighbours have at least 24
    bytes and are nodes of a well-formed free list, and which with them
    makes at least 24 bytes, coalesce returns the block made of bp and its
    free neighbours: that block carries the merged size, free, in header
    and footer, it is the head of the free list, and the list holds every
    node it held before but the absorbed neighbours; with both neighbours
    allocated the block is bp itself, put at the head. *)
Theorem coalesce_consolidates :
  forall dm s bp sz psz pa nsz na l,
    region_ok dm s -> free_list dm s l ->
    neighbours s bp sz 0 psz pa nsz na ->
    24 <= merged_size sz psz pa nsz na < 2 ^ 32 ->
    incl (absorbed bp sz psz pa na) l ->
    nodes_outside (absorbed bp sz psz pa na) l
      (merged_start bp psz pa - 4)
      (merged_start bp psz pa + merged_size sz psz pa nsz na - 4) ->
    exists s',
      coalesce dm bp s = Ok (merged_start bp psz pa) s' /\
      coalesce_post dm s bp sz psz pa nsz na l s' /\
      free_listp s' = merged_start bp psz pa /\
      (pa = 1 -> na = 1 -> merged_start bp psz pa = bp /\ free_list dm s' (bp :: l)).
Proof.
  intros dm s bp sz psz pa nsz na l H1 H2 H3 H4 H5 H6.
  destruct (coalesce_spec dm s bp sz psz pa nsz na l H1 H2 H3 H4 H5 H6)
    as (s' & Hrun & Hpost).
  exists s'. split; [exact Hrun|]. split; [exact Hpost|].
  destruct Hpost as (_ & Hfl & _). split.
  - destruct Hfl as [Hh _]. exact Hh.
  - intros -> ->. split; [reflexivity|exact Hfl].
Qed.

Lemma coalesce_consolidates_witness :
  free_list LP64 heap_B [65776; 65552; 66000] /\
  neighbours heap_B 65664 112 0 112 0 112 0 /\
  exists s',
    coalesce LP64 65664 heap_B = Ok 65552 s' /\
    tagged (mem s') 65552 336 0 /\
    free_list LP64 s' [65552; 66000].
Proof.
  split; [crunch|]. split; [crunch|].
  destruct (coalesce_consolidates LP64 heap_B 65664 112 112 0 112 0 [65776; 65552; 66000]
              ltac:(crunch) ltac:(crunch) ltac:(crunch) ltac:(crunch) ltac:(crunch)
              ltac:(crunch))
    as (s' & H1 & (H2 & H3 & _) & _).
  exists s'. split; [exact H1|]. split; [exact H2|exact H3].
Defined.

(** X19.  The amount extend_heap asks for is a multiple of 8 and at least
    24, whatever the number of words; in every state a call that returns has
    moved the break by that amount or not at all; and when the region can
    grow, the block that ends at the break has intact tags and the free list
    is well formed, the call returns a free block ending at the new break
    whose header and footer both carry its size, made of the new space and
    of that last block when it was free, and the word before the new break
    is the epilogue header PACK(0, 1). *)
Theorem extend_heap_grows_aligned :
  (forall dm words,
      24 <= extend_size dm words < 2 ^ 32 /\ extend_size dm words mod 8 = 0) /\
  (forall dm words s r s',
      extend_heap dm words s = Ok r s' ->
      mem_brk s' = mem_brk s \/ mem_brk s' = mem_brk s + extend_size dm words) /\
  (forall dm s words l psz pa,
      let size := extend_size dm words in
      let bp := mem_brk s in
      let r := merged_start bp psz pa in
      let total := merged_size size psz pa 0 1 in
      region_ok dm s ->
      mem_max_addr s <= 2 ^ (8 * PSIZE dm) ->
      free_list dm s l ->
      (8 <= psz /\ psz mod 8 = 0 /\ 0 <= pa <= 1) ->
      mem_start_brk s <= bp - psz - 4 ->
      tagged (mem s) (bp - psz) psz pa ->
      (pa = 0 -> 24 <= psz) ->
      incl (absorbed bp size psz pa 1) l ->
      Forall (fun x => In x (absorbed bp size psz pa 1) \/ x + 16 <= r - 8) l ->
      size < 2 ^ 31 -> bp + size <= mem_max_addr s -> total < 2 ^ 32 ->
      exists s',
        extend_heap dm words s = Ok r s' /\ r <> 0 /\
        mem_brk s' = mem_brk s + size /\
        tagged (mem s') r total 0 /\ r + total = mem_brk s' /\
        word (mem s') (mem_brk s' - 4) = PACK 0 1 /\
        free_list dm s' (r :: without (absorbed bp size psz pa 1) l)).
Proof.
  split; [|split].
  - intros dm words. apply extend_size_aligned.
  - intros dm words s r s'. apply extend_heap_amount.
  - intros dm s words l psz pa size bp r total H1 H2 H3 H4 H5 H6 H7 H8 H9 H10 H11 H12.
    destruct (extend_heap_spec dm s words l psz pa H1 H2 H3 H4 H5 H6 H7 H8 H9 H10 H11 H12)
      as (s' & E1 & E2 & E3 & _ & _ & E4 & E5 & E6 & E7 & _).
    exists s'. repeat (split; [assumption|]). assumption.
Qed.

Lemma extend_heap_grows_aligned_witness :
  free_list LP64 heap_C [65552] /\
  tagged (mem heap_C) 65552 65536 0 /\
  exists s',
    extend_heap LP64 2 heap_C = Ok 65552 s' /\
    mem_brk s' = mem_brk heap_C + 24 /\
    tagged (mem s') 65552 65560 0 /\
    word (mem s') (mem_brk s' - 4) = PACK 0 1.
Proof.
  split; [crunch|]. split; [crunch|].
  destruct (proj2 (proj2 extend_heap_grows_aligned) LP64 heap_C 2 [65552] 65536 0
              ltac:(crunch) ltac:(crunch) ltac:(crunch) ltac:(crunch) ltac:(crunch)
              ltac:(crunch) ltac:(crunch) ltac:(crunch) ltac:(crunch) ltac:(crunch)
              ltac:(crunch) ltac:(crunch))
    as (s' & H1 & _ & H2 & H3 & _ & H4 & _).
  exists s'. split; [exact H1|]. split; [exact H2|]. split; [exact H3|exact H4].
Defined.
